(** * Live Watch: the node tree, its controller and the webview diff

    A shallow embedding of [src/frontend/views/live-watch.ts] (the
    extension-host side: class [LiveVariableNode] and class
    [LiveWatchWebviewProvider]) and of the webview client script (class
    [LiveWatchView]), followed by the properties of the specification
    (C1 to C10) and by further properties of the code (X1 to X23).

    Conventions of the embedding.
    - JavaScript objects of class [LiveVariableNode] live in a store and are
      named by their address ([loc]); a field holding an object holds its
      address.  [parent] is a pointer, exactly as in the source.
    - A field that can hold [undefined] at run time has an [option] type,
      [None] being [undefined].
    - The arrays of children are kept by value inside the node that owns
      them.  The only array the source shares between two objects is
      [oldState.children], handed from a node that [refreshChildren] has
      just dropped to its replacement; the dropped node is never read again
      through its [children] field.
    - A method is a computation in the monad [M]: it reads and writes the
      store and may be stuck ([None]) on a dangling address or when the
      fuel of a recursive traversal runs out.
    - An asynchronous method is given by its synchronous part and by the
      callbacks that run when the request it issued is answered or
      rejected.
    - What a method asks of the editor, of the page or of another object
      as a whole is returned as a list of effects.
    - The sampling rate, the refresh rate and the timer period are rational
      numbers; [NaN] and the infinities, which a JSON configuration cannot
      hold, are left out. *)

From Stdlib Require Import ZArith QArith Qminmax Lqa String Ascii List Lia.
From Stdlib Require Import DecimalString DecimalNat DecimalFacts.
From stdpp Require Import base option list strings gmap.

Set Default Proof Using "Type".
Local Open Scope string_scope.
Local Open Scope list_scope.

(** ** JavaScript values *)

Module JS.

(** Truthiness of a boolean that may be [undefined]. *)
Definition truthy (b : option bool) : bool :=
  match b with Some true => true | _ => false end.

(** Truthiness of a string: the empty string is falsy. *)
Definition nonempty (s : string) : bool :=
  match s with EmptyString => false | _ => true end.

(** [a || b] on strings. *)
Definition or_else (a b : string) : string :=
  if nonempty a then a else b.

(** Template literal [`${n}`] for a counter. *)
Definition decimal (n : nat) : string :=
  NilZero.string_of_uint (Nat.to_uint n).

End JS.

(** ** The store of [LiveVariableNode] objects *)

Module Import Objects.

(** Addresses of objects in the store. *)
Abbreviation loc := nat (only parsing).

(** Identity of a [vscode.DebugSession] object ([===] on sessions compares
    references). *)
Abbreviation SessionRef := nat (only parsing).

(** The fields of [class LiveVariableNode] that the methods below read or
    write.  ([namedVariables] and [indexedVariables] are only written, by
    [refresh].)  [id], [prevValue] and [expanded] are declared as string,
    string and boolean; [refreshChildren] can store [undefined] in them. *)
Record LiveVariableNode := mkNode {
  session : option SessionRef;
  children : option (list loc);
  prevValue : option string;
  expanded : option bool;
  id : option string;
  parent : option loc;
  name : string;
  expr : string;
  value : string;
  type : string;
  variablesReference : Z
}.

Definition set_session (v : option SessionRef) (n : LiveVariableNode) :=
  mkNode v (children n) (prevValue n) (expanded n) (id n) (parent n)
         (name n) (expr n) (value n) (type n) (variablesReference n).
Definition set_children (v : option (list loc)) (n : LiveVariableNode) :=
  mkNode (session n) v (prevValue n) (expanded n) (id n) (parent n)
         (name n) (expr n) (value n) (type n) (variablesReference n).
Definition set_prevValue (v : option string) (n : LiveVariableNode) :=
  mkNode (session n) (children n) v (expanded n) (id n) (parent n)
         (name n) (expr n) (value n) (type n) (variablesReference n).
Definition set_expanded (v : option bool) (n : LiveVariableNode) :=
  mkNode (session n) (children n) (prevValue n) v (id n) (parent n)
         (name n) (expr n) (value n) (type n) (variablesReference n).
Definition set_id (v : option string) (n : LiveVariableNode) :=
  mkNode (session n) (children n) (prevValue n) (expanded n) v (parent n)
         (name n) (expr n) (value n) (type n) (variablesReference n).
Definition set_name_expr (v : string) (n : LiveVariableNode) :=
  mkNode (session n) (children n) (prevValue n) (expanded n) (id n) (parent n)
         v v (value n) (type n) (variablesReference n).

(** The object store together with the static [LiveVariableNode.idCounter]. *)
Record Store := mkStore {
  heap : list LiveVariableNode;
  idCounter : nat
}.

(** Computations on the store; [None] is a computation that is stuck. *)
Definition M (A : Type) : Type := Store -> option (A * Store).

Definition ret {A} (a : A) : M A := fun s => Some (a, s).

Definition bind {A B} (m : M A) (k : A -> M B) : M B :=
  fun s => match m s with
           | Some (a, s') => k a s'
           | None => None
           end.

Definition stuck {A} : M A := fun _ => None.

Notation "'let*' x ':=' m 'in' k" := (bind m (fun x => k))
  (at level 10, x name, m at level 100, k at level 200).
Notation "m ';;' k" := (bind m (fun _ => k))
  (at level 100, k at level 200, right associativity, only parsing).

(** Read the object at an address. *)
Definition get (l : loc) : M LiveVariableNode :=
  fun s => match heap s !! l with
           | Some n => Some (n, s)
           | None => None
           end.

(** Update the object at an address in place. *)
Definition modify (l : loc) (f : LiveVariableNode -> LiveVariableNode) : M unit :=
  fun s => match heap s !! l with
           | Some n => Some (tt, mkStore (<[l := f n]> (heap s)) (idCounter s))
           | None => None
           end.

End Objects.

(** ** Values exchanged with the webview, the adapter and the storage *)

Module WebViewVariableNode.

(** [interface WebViewVariableNode]; [id], [expanded] and [isRoot] carry
    whatever the node holds, which may be [undefined]. *)
#[warnings="-register-all"]
Inductive t := mk {
  id : option string;
  name : string;
  expr : string;
  value : string;
  type : string;
  hasChildren : bool;
  expanded : option bool;
  changed : bool;
  isRoot : option bool;
  children : option (list t);
  depth : Z
}.

End WebViewVariableNode.

Module NodeState.

(** [interface NodeState], the persisted form of a tree. *)
#[warnings="-register-all"]
Inductive t := mk {
  name : string;
  expr : string;
  expanded : bool;
  children : list t
}.

End NodeState.

Module ProtocolVariable.

(** [DebugProtocol.Variable], with the properties [refreshChildren]
    reads; those it guards with [||] or [??] may be missing. *)
Record t := mk {
  name : string;
  evaluateName : option string;
  value : option string;
  type : option string;
  variablesReference : option Z
}.

End ProtocolVariable.

Module SaveVarState.

(** [interface SaveVarState] *)
Record t := mk {
  id : option string;
  expanded : option bool;
  value : string;
  children : option (list loc)
}.

End SaveVarState.

Module SaveVarStateMap.

(** [const oldStateMap: SaveVarStateMap = {}] is an ordinary object: its
    own properties are the entries stored in it, and a property that is
    not its own is looked up along the prototype chain, which starts at
    [Object.prototype].  Storing under the key [__proto__] runs the
    inherited setter: it creates no own property and makes the stored
    object the prototype. *)
Record t := mk {
  own : gmap string SaveVarState.t;
  proto : option SaveVarState.t
}.

(** [{}] *)
Definition empty : t := mk ∅ None.

(** [oldStateMap[key] = state] *)
Definition assign (m : t) (key : string) (state : SaveVarState.t) : t :=
  if String.eqb key "__proto__" then mk (own m) (Some state)
  else mk (<[key := state]> (own m)) (proto m).

(** The string-keyed properties of [Object.prototype]; each holds a
    function, except [__proto__], an accessor. *)
Definition objectPrototype : list string :=
  [ "constructor"; "__defineGetter__"; "__defineSetter__"; "hasOwnProperty";
    "__lookupGetter__"; "__lookupSetter__"; "isPrototypeOf";
    "propertyIsEnumerable"; "toString"; "valueOf"; "__proto__";
    "toLocaleString" ].

(** What [oldStateMap[key]] evaluates to, as far as [refreshChildren]
    can tell: a saved state, some other truthy value (a function, a
    non-empty string, [true], an array or [Object.prototype], none of
    which has a property [id], [expanded], [value] or [children]), or a
    falsy value. *)
Inductive value :=
| State (oldState : SaveVarState.t)
| Other
| Falsy.

Definition inherited (key : string) : value :=
  if bool_decide (key ∈ objectPrototype) then Other else Falsy.

(** [oldStateMap[key]] *)
Definition lookup (m : t) (key : string) : value :=
  if String.eqb key "__proto__" then
    match proto m with
    | Some state => State state
    | None => Other
    end
  else
    match own m !! key with
    | Some state => State state
    | None =>
        match proto m with
        | Some state =>
            if String.eqb key "id" then
              match SaveVarState.id state with
              | Some i => if JS.nonempty i then Other else Falsy
              | None => Falsy
              end
            else if String.eqb key "expanded" then
              if JS.truthy (SaveVarState.expanded state) then Other else Falsy
            else if String.eqb key "value" then
              if JS.nonempty (SaveVarState.value state) then Other else Falsy
            else if String.eqb key "children" then
              match SaveVarState.children state with
              | Some _ => Other
              | None => Falsy
              end
            else inherited key
        | None => inherited key
        end
    end.

End SaveVarStateMap.

(** ** The tree model: class [LiveVariableNode] *)

Module Node.

(** [new LiveVariableNode(parent, name, expr, value, type, variablesReference)]:
    the field initialisers, then the constructor body
    [this.id = `node_${LiveVariableNode.idCounter++}`]. *)
Definition new (parent : option loc) (name expr value type : string)
           (variablesReference : Z) : M loc :=
  fun s =>
    let this := length (heap s) in
    let n := mkNode None None (Some "") (Some false)
                    (Some ("node_" +:+ JS.decimal (idCounter s)))
                    parent name expr value type variablesReference in
    Some (this, mkStore (heap s ++ [n]) (S (idCounter s))).

Definition getId (this : loc) : M (option string) :=
  let* n := get this in ret (id n).

Definition setId (this : loc) (v : option string) : M unit :=
  modify this (set_id v).

(** [this.children ?? []] *)
Definition getChildren (n : LiveVariableNode) : list loc :=
  match children n with Some cs => cs | None => [] end.

(** [this.variablesReference > 0 || (this.children?.length ?? 0) > 0] *)
Definition hasChildrenNodes (n : LiveVariableNode) : bool :=
  (0 <? variablesReference n)%Z || (0 <? length (getChildren n))%nat.

(** [const node = this.parent; return node && (node.getParent() === undefined);]
    The result is [undefined] when there is no parent, a boolean
    otherwise. *)
Definition isRootChild (this : loc) : M (option bool) :=
  let* n := get this in
  match parent n with
  | None => ret None
  | Some p =>
      let* pn := get p in
      ret (Some (match parent pn with None => true | Some _ => false end))
  end.

Definition rename (this : loc) (nm : string) : M unit :=
  let* r := isRootChild this in
  if JS.truthy r then modify this (set_name_expr nm) else ret tt.

(** [this.prevValue !== '' && this.prevValue !== this.value] *)
Definition isValueChanged (n : LiveVariableNode) : bool :=
  negb (bool_decide (prevValue n = Some ""))
  && negb (bool_decide (prevValue n = Some (value n))).

(** The loop of [findName]. *)
Fixpoint findName_loop (rest : list loc) (str : string) : M (option loc) :=
  match rest with
  | [] => ret None
  | child :: rest' =>
      let* c := get child in
      if String.eqb (name c) str then ret (Some child)
      else findName_loop rest' str
  end.

Definition findName (this : loc) (str : string) : M (option loc) :=
  let* n := get this in findName_loop (getChildren n) str.

Definition addChild (this : loc) (name expr value type : string)
           (reference : Z) : M loc :=
  let* n := get this in
  (match children n with
   | None => modify this (set_children (Some []))
   | Some _ => ret tt
   end) ;;
  let* child := new (Some this) name (JS.or_else expr name) value type reference in
  modify this (fun n => set_children (Some (getChildren n ++ [child])) n) ;;
  ret child.

(** Guard shared by [removeChild], [moveUpChild] and [moveDownChild]:
    [!node || !node.isRootChild()]. *)
Definition notRootChild (node : option loc) : M bool :=
  match node with
  | None => ret true
  | Some nd => let* r := isRootChild nd in ret (negb (JS.truthy r))
  end.

(** [node.name], read once the guard has established that [node] is an
    object; no name is written while the loops below run. *)
Definition nameOf (node : option loc) : M string :=
  match node with
  | None => stuck
  | Some nd => let* n := get nd in ret (name n)
  end.

(** The loop of [removeChild]; [ix] counts the children already passed. *)
Fixpoint removeChild_loop (this : loc) (rest : list loc) (nm : string)
         (ix : nat) : M bool :=
  match rest with
  | [] => ret false
  | child :: rest' =>
      let* c := get child in
      if String.eqb (name c) nm then
        (* this.children.splice(ix, 1) *)
        modify this (fun n => set_children (Some (delete ix (getChildren n))) n) ;;
        ret true
      else removeChild_loop this rest' nm (S ix)
  end.

Definition removeChild (this : loc) (node : option loc) : M bool :=
  let* g := notRootChild node in
  if g then ret false
  else
    let* nm := nameOf node in
    let* n := get this in
    removeChild_loop this (getChildren n) nm 0.

(** [this.children[i]] for an index the loop has reached. *)
Definition childAt (this : loc) (i : nat) : M loc :=
  let* n := get this in
  match getChildren n !! i with
  | Some c => ret c
  | None => stuck
  end.

(** [this.children[i] = c] *)
Definition setChildAt (this : loc) (i : nat) (c : loc) : M unit :=
  modify this (fun n => set_children (Some (<[i := c]> (getChildren n))) n).

Fixpoint moveUpChild_loop (this : loc) (rest : list loc) (nm : string)
         (ix : nat) : M bool :=
  match rest with
  | [] => ret false
  | child :: rest' =>
      let* c := get child in
      if String.eqb (name c) nm then
        (if (0 <? ix)%nat then
           let* prev := childAt this (ix - 1) in
           setChildAt this ix prev ;;
           setChildAt this (ix - 1) child
         else
           (* const first = this.children.shift(); this.children.push(first); *)
           let* first := childAt this 0 in
           modify this (fun n => set_children (Some (tail (getChildren n))) n) ;;
           modify this (fun n => set_children (Some (getChildren n ++ [first])) n)) ;;
        ret true
      else moveUpChild_loop this rest' nm (S ix)
  end.

Definition moveUpChild (this : loc) (node : option loc) : M bool :=
  let* g := notRootChild node in
  if g then ret false
  else
    let* nm := nameOf node in
    let* n := get this in
    moveUpChild_loop this (getChildren n) nm 0.

Fixpoint moveDownChild_loop (this : loc) (rest : list loc) (nm : string)
         (last : Z) (ix : nat) : M bool :=
  match rest with
  | [] => ret false
  | child :: rest' =>
      let* c := get child in
      if String.eqb (name c) nm then
        (if negb (Z.of_nat ix =? last)%Z then
           let* next := childAt this (ix + 1) in
           setChildAt this ix next ;;
           setChildAt this (ix + 1) child
         else
           (* const lastItem = this.children.pop(); this.children.unshift(lastItem); *)
           let* n := get this in
           match List.last (map Some (getChildren n)) None with
           | Some lastItem =>
               modify this (fun n => set_children (Some (removelast (getChildren n))) n) ;;
               modify this (fun n => set_children (Some (lastItem :: getChildren n)) n)
           | None => stuck
           end) ;;
        ret true
      else moveDownChild_loop this rest' nm last (S ix)
  end.

Definition moveDownChild (this : loc) (node : option loc) : M bool :=
  let* g := notRootChild node in
  if g then ret false
  else
    let* nm := nameOf node in
    let* n := get this in
    (* const last = this.children ? this.children.length - 1 : -1; *)
    let last := match children n with
                | Some cs => (Z.of_nat (length cs) - 1)%Z
                | None => (-1)%Z
                end in
    moveDownChild_loop this (getChildren n) nm last 0.

(** The loop of [addNewExpr]: is [expr] the expression of some child? *)
Fixpoint addNewExpr_loop (rest : list loc) (e : string) : M bool :=
  match rest with
  | [] => ret false
  | child :: rest' =>
      let* c := get child in
      if String.eqb e (expr c) then ret true else addNewExpr_loop rest' e
  end.

Definition addNewExpr (this : loc) (e : string) : M bool :=
  let* n := get this in
  match parent n with
  | Some _ => ret false
  | None =>
      let* dup := addNewExpr_loop (getChildren n) e in
      if dup then ret false
      else addChild this e e "" "" 0 ;; ret true
  end.

(** [findById]: depth-first search for the node carrying an id. *)
Fixpoint findById (fuel : nat) (this : loc) (i : string) : M (option loc) :=
  match fuel with
  | O => stuck
  | S fuel' =>
      let* n := get this in
      if bool_decide (id n = Some i) then ret (Some this)
      else
        (fix loop (rest : list loc) : M (option loc) :=
           match rest with
           | [] => ret None
           | child :: rest' =>
               let* found := findById fuel' child i in
               match found with
               | Some f => ret (Some f)
               | None => loop rest'
               end
           end) (getChildren n)
  end.

(** [cs.map(f)] for a callback that runs in the store. *)
Fixpoint mapM {A B} (f : A -> M B) (l : list A) : M (list B) :=
  match l with
  | [] => ret []
  | a :: l' => let* b := f a in let* bs := mapM f l' in ret (b :: bs)
  end.

(** *** Projection to the webview *)

(** [str.split(sep)] for a non-empty separator: [skip] counts the
    characters of a matched separator still to be passed, [piece] is the
    part read since the last separator. *)
Fixpoint split_from (sep : string) (skip : nat) (piece : string) (s : string)
  : list string :=
  match s with
  | EmptyString => [piece]
  | String c s' =>
      match skip with
      | S k => split_from sep k piece s'
      | O =>
          if String.prefix sep s
          then piece :: split_from sep (String.length sep - 1) "" s'
          else split_from sep 0 (piece +:+ String c "") s'
      end
  end.

Definition split (sep s : string) : list string := split_from sep 0 "" s.

(** [s.slice(1)] *)
Definition slice1 (s : string) : string :=
  match s with EmptyString => "" | String _ s' => s' end.

Definition newline : string := String (ascii_of_nat 10) "".

Section ToWebView.

(** [getPathRelative] is imported from [../../common], which is not
    part of the sources at hand; it only contributes to the [type]
    text of the projection. *)
Variable getPathRelative : string -> string -> string.

Fixpoint toWebViewNode (fuel : nat) (this : loc) (depth : Z)
         (cwd : option string) : M WebViewVariableNode.t :=
  match fuel with
  | O => stuck
  | S fuel' =>
      let* n := get this in
      let* rootChild := isRootChild this in
      let parts :=
        if String.prefix "'" (name n) && JS.truthy rootChild
        then split "'::" (name n) else [name n] in
      (* parts.pop() drops the last part; displayName is not used *)
      let parts := removelast parts in
      let file := match parts with [] => "" | p :: _ => slice1 p end in
      let file :=
        match cwd with
        | Some d => if JS.nonempty file && JS.nonempty d
                    then getPathRelative d file else file
        | None => file
        end in
      let changed := isValueChanged n in
      let* kids :=
        (if JS.truthy (expanded n) then
           match children n with
           | Some cs =>
               let* ws := mapM (fun c => toWebViewNode fuel' c (depth + 1)%Z cwd) cs in
               ret (Some ws)
           | None => ret None
           end
         else ret None) in
      modify this (fun n => set_prevValue (Some (value n)) n) ;;
      ret (WebViewVariableNode.mk
             (id n) (name n) (expr n) (value n)
             ((if JS.nonempty file then "File: " +:+ file +:+ newline else "")
                +:+ type n)
             (hasChildrenNodes n) (expanded n) changed rootChild kids depth)
  end.

End ToWebView.

(** *** Refreshing the children from the debug adapter *)

(** The synchronous part of [refreshChildren]: either [resolve()] is
    called at once, or the request [liveVariables] is issued and the
    states of the present children are kept for its answer. *)
Inductive Pending :=
| Resolved
| LiveVariables (variablesReference : Z) (oldStateMap : SaveVarStateMap.t).

Fixpoint saveStates (rest : list loc) (oldStateMap : SaveVarStateMap.t)
  : M SaveVarStateMap.t :=
  match rest with
  | [] => ret oldStateMap
  | child :: rest' =>
      let* c := get child in
      saveStates rest'
        (SaveVarStateMap.assign oldStateMap (name c)
           (SaveVarState.mk (id c) (expanded c) (value c) (children c)))
  end.

Definition refreshChildren (this : loc) (session : option SessionRef) : M Pending :=
  let* n := get this in
  if negb (bool_decide (is_Some session))
     || negb (bool_decide (Objects.session n = session))
  then ret Resolved
  else if JS.truthy (expanded n) && (0 <? variablesReference n)%Z then
    let* oldStateMap := saveStates (getChildren n) SaveVarStateMap.empty in
    ret (LiveVariables (variablesReference n) oldStateMap)
  else ret Resolved.

(** One round of the loop over [result.variables]. *)
Definition adopt (this : loc) (session : option SessionRef)
           (oldStateMap : SaveVarStateMap.t) (variable : ProtocolVariable.t) : M unit :=
  let* ch := new (Some this)
                 (ProtocolVariable.name variable)
                 (JS.or_else (default "" (ProtocolVariable.evaluateName variable))
                             (ProtocolVariable.name variable))
                 (default "" (ProtocolVariable.value variable))
                 (default "" (ProtocolVariable.type variable))
                 (default 0%Z (ProtocolVariable.variablesReference variable)) in
  let* c := get ch in
  (match SaveVarStateMap.lookup oldStateMap (name c) with
   | SaveVarStateMap.State oldState =>
       setId ch (SaveVarState.id oldState) ;;
       modify ch (set_expanded
                    (match SaveVarState.expanded oldState with
                     | Some true => Some (0 <? variablesReference c)%Z
                     | falsy => falsy
                     end)) ;;
       modify ch (set_prevValue (Some (SaveVarState.value oldState))) ;;
       modify ch (set_children (SaveVarState.children oldState))
   | SaveVarStateMap.Other =>
       (* a truthy value without id, expanded, value or children *)
       setId ch None ;;
       modify ch (set_expanded None) ;;
       modify ch (set_prevValue None) ;;
       modify ch (set_children None)
   | SaveVarStateMap.Falsy => ret tt
   end) ;;
  modify ch (set_session session) ;;
  modify this (fun n => set_children (Some (getChildren n ++ [ch])) n).

Fixpoint adoptAll (this : loc) (session : option SessionRef)
         (oldStateMap : SaveVarStateMap.t) (variables : list ProtocolVariable.t) : M unit :=
  match variables with
  | [] => ret tt
  | variable :: rest =>
      adopt this session oldStateMap variable ;;
      adoptAll this session oldStateMap rest
  end.

(** The loop that starts [refreshChildren] on every expanded child; the
    executor of [new Promise] runs at once, so the synchronous part of
    each child's [refreshChildren] runs here. *)
Fixpoint refreshExpanded (rest : list loc) (session : option SessionRef)
  : M (list (loc * Pending)) :=
  match rest with
  | [] => ret []
  | child :: rest' =>
      let* c := get child in
      if JS.truthy (expanded c) then
        let* p := refreshChildren child session in
        let* ps := refreshExpanded rest' session in
        ret ((child, p) :: ps)
      else refreshExpanded rest' session
  end.

(** The callback run when [liveVariables] is answered.  [result] is
    [None] for a missing result and [Some None] for a result without
    [variables].  It returns the requests begun for the children;
    [resolve()] is called once these have all settled. *)
Definition refreshChildren_fulfilled (this : loc) (session : option SessionRef)
           (oldStateMap : SaveVarStateMap.t)
           (result : option (option (list ProtocolVariable.t)))
  : M (list (loc * Pending)) :=
  (match result with
   | Some (Some (v :: vs)) =>
       modify this (set_children (Some [])) ;;
       adoptAll this session oldStateMap (v :: vs)
   | _ => modify this (set_children None)
   end) ;;
  let* n := get this in
  refreshExpanded (getChildren n) session.

(** The callback run when [liveVariables] is rejected: [resolve()]. *)
Definition refreshChildren_rejected (this : loc) : M unit := ret tt.

(** *** Persistence *)

(** [pvtSerialize] returns the item of this node; the item is appended to
    the parent's [children] by [state.children.push(item)], which is the
    order in which the loop of the caller collects the items here. *)
Fixpoint pvtSerialize (fuel : nat) (this : loc) : M NodeState.t :=
  match fuel with
  | O => stuck
  | S fuel' =>
      let* n := get this in
      let* items := mapM (pvtSerialize fuel') (getChildren n) in
      ret (NodeState.mk (name n) (expr n)
             (JS.truthy (expanded n)
              || match parent n with None => true | Some _ => false end)
             items)
  end.

Definition serialize (fuel : nat) (this : loc) : M NodeState.t :=
  pvtSerialize fuel this.

Fixpoint deSerialize (state : NodeState.t) (this : loc) {struct state} : M unit :=
  (fix loop (rest : list NodeState.t) : M unit :=
     match rest with
     | [] => ret tt
     | child :: rest' =>
         let* n := get this in
         (match children n with
          | None => modify this (set_children (Some []))
          | Some _ => ret tt
          end) ;;
         let* item := new (Some this) (NodeState.name child) (NodeState.expr child)
                          "" "" 0 in
         modify item (set_expanded (Some (NodeState.expanded child))) ;;
         modify this (fun n => set_children (Some (getChildren n ++ [item])) n) ;;
         deSerialize child item ;;
         loop rest'
     end) (NodeState.children state).

End Node.

(** ** The controller: class [LiveWatchWebviewProvider] *)

Module LiveWatchConfig.

(** [LiveWatchConfig] is declared in [../../common], which is not part of
    the sources at hand; these are the two properties the controller
    reads. *)
Record t := mk {
  enabled : bool;
  samplesPerSecond : option Q
}.

End LiveWatchConfig.

Module DebugSession.

(** [vscode.DebugSession]: the object identity, [id], [name] and
    [configuration.liveWatch]. *)
Record t := mk {
  ref : SessionRef;
  id : string;
  name : string;
  liveWatch : option LiveWatchConfig.t
}.

End DebugSession.

Module Provider.

(** What a method asks of the editor, the storage, the timer-driven
    refresh or the tree as a whole. *)
Inductive Effect :=
| UpdateWebview
| ShowErrorMessage (message : string)
| ShowInformationMessage (message : string)
| VariablesReset
| SaveState
| Refresh.

Record t := mk {
  variables : loc;
  session : option DebugSession.t;   (* static session *)
  timeout : option Q;                (* delay of the pending timer *)
  timeoutMs : Q;
  isStopped : bool;
  currentRefreshRate : Q
}.

Definition defaultRefreshRate : Q := 300%Q.
Definition minRefreshRate : Q := 200%Q.
Definition maxRefreshRate : Q := 5000%Q.

(** The field initialisers: [timeoutMs = 250], [isStopped = true],
    [currentRefreshRate = defaultRefreshRate]. *)
Definition initial (variables : loc) : t :=
  mk variables None None 250%Q true defaultRefreshRate.

(** [setRefreshRate]; [configured] is the setting
    [cortex-debug.liveWatchRefreshRate], if there is one. *)
Definition setRefreshRate (p : t) (configured : option Q) : t :=
  let rate := default defaultRefreshRate configured in
  let rate := Qmax rate minRefreshRate in
  let rate := Qmin rate maxRefreshRate in
  mk (variables p) (session p) (timeout p) (timeoutMs p) (isStopped p) rate.

(** [killTimer] followed by [setTimeout(..., this.timeoutMs - subtract)]. *)
Definition startTimer (p : t) (subtract : Q) : t :=
  mk (variables p) (session p) (Some (timeoutMs p - subtract)%Q) (timeoutMs p)
     (isStopped p) (currentRefreshRate p).

Definition debugSessionStarted (p : t) (s : DebugSession.t) : t * list Effect :=
  (* liveWatch?.enabled *)
  let enabled := match DebugSession.liveWatch s with
                 | Some liveWatch => LiveWatchConfig.enabled liveWatch
                 | None => false
                 end in
  if negb enabled then
    (p, match session p with None => [UpdateWebview] | Some _ => [] end)
  else
    match session p with
    | Some active =>
        (p, [ShowErrorMessage
               ("Error: You can have live-watch enabled to only one debug session at a time. Live Watch is already enabled for "
                  +:+ DebugSession.name active)])
    | None =>
        (* liveWatch.samplesPerSecond ?? 4 *)
        let configured := match DebugSession.liveWatch s with
                          | Some liveWatch => LiveWatchConfig.samplesPerSecond liveWatch
                          | None => None
                          end in
        let samplesPerSecond := Qmax 1%Q (Qmin 20%Q (default 4%Q configured)) in
        let p := mk (variables p) (Some s) (timeout p)
                    (1000 / samplesPerSecond)%Q true (currentRefreshRate p) in
        (startTimer p 0%Q, [VariablesReset])
    end.

(** [/,[hxbod]$/] matches a comma and one of the five letters at the very
    end of the string. *)
Definition isFormatLetter (c : ascii) : bool :=
  bool_decide (c ∈ ["h"; "x"; "b"; "o"; "d"]%char).

(** [expr.replace(/,[hxbod]$/, '')] *)
Fixpoint stripFormat (e : string) : string :=
  match e with
  | EmptyString => EmptyString
  | String a rest =>
      match rest with
      | String c EmptyString =>
          if Ascii.eqb a "," && isFormatLetter c then EmptyString
          else String a rest
      | _ => String a (stripFormat rest)
      end
  end.

(** The expression [handleUpdateFormat] computes for a node:
    [expr = expr.replace(/,[hxbod]$/, ''); if (format) { expr += ',' + format; }] *)
Definition formatted (e format : string) : string :=
  let e := stripFormat e in
  if JS.nonempty format then e +:+ "," +:+ format else e.

Definition handleUpdateFormat (fuel : nat) (p : t) (nodeId format : string)
  : M (list Effect) :=
  let* found := Node.findById fuel (variables p) nodeId in
  match found with
  | None => ret []
  | Some node =>
      let* r := Node.isRootChild node in
      if negb (JS.truthy r) then ret []
      else
        let* n := get node in
        let e := formatted (expr n) format in
        if String.eqb e (expr n) then ret []
        else
          let* taken := Node.findName (variables p) e in
          match taken with
          | Some _ =>
              ret [ShowInformationMessage
                     ("Live Watch: Expression " +:+ e +:+ " is already being watched")]
          | None =>
              Node.rename node e ;;
              ret [SaveState; Refresh]
          end
  end.

End Provider.

(** ** The webview: class [LiveWatchView] *)

Module VariableNode.

(** [interface VariableNode] of the webview script. *)
#[warnings="-register-all"]
Inductive t := mk {
  id : string;
  name : string;
  expr : string;
  value : string;
  type : string;
  hasChildren : bool;
  expanded : bool;
  changed : bool;
  isRoot : bool;
  children : option (list t);
  depth : Z
}.

End VariableNode.

Module View.

(** The test on the key structural properties of two nodes. *)
Definition keyDiffers (oldNode newNode : VariableNode.t) : bool :=
  negb (String.eqb (VariableNode.id oldNode) (VariableNode.id newNode))
  || negb (String.eqb (VariableNode.name oldNode) (VariableNode.name newNode))
  || negb (String.eqb (VariableNode.expr oldNode) (VariableNode.expr newNode))
  || negb (Bool.eqb (VariableNode.hasChildren oldNode) (VariableNode.hasChildren newNode))
  || negb (Bool.eqb (VariableNode.expanded oldNode) (VariableNode.expanded newNode))
  || negb (VariableNode.depth oldNode =? VariableNode.depth newNode)%Z.

(** [node.children || []] *)
Definition childrenOf (node : VariableNode.t) : list VariableNode.t :=
  default [] (VariableNode.children node).

(** The body of the loop of [compareNodes] for one index, the recursive
    call on the children included.  The children of the old node are
    matched on directly, which is what makes the recursion structural;
    [compareNode_unfold] below states the body as the source has it. *)
Fixpoint compareNode (oldNode newNode : VariableNode.t) {struct oldNode} : bool :=
  keyDiffers oldNode newNode
  ||
  let compare :=
    fix compare (oldNodes newNodes : list VariableNode.t) {struct oldNodes} : bool :=
      match oldNodes, newNodes with
      | o :: os, n :: ns => compareNode o n || compare os ns
      | _, _ => false
      end in
  match VariableNode.children oldNode with
  | Some oldChildren =>
      negb (length oldChildren =? length (childrenOf newNode))%nat
      || compare oldChildren (childrenOf newNode)
  | None =>
      negb (0 =? length (childrenOf newNode))%nat
  end.

(** The loop [for (let i = 0; i < oldNodes.length; i++)] over two arrays of
    equal length. *)
Fixpoint compareEach (oldNodes newNodes : list VariableNode.t) : bool :=
  match oldNodes, newNodes with
  | o :: os, n :: ns => compareNode o n || compareEach os ns
  | _, _ => false
  end.

Definition compareNodes (oldNodes newNodes : list VariableNode.t) : bool :=
  negb (length oldNodes =? length newNodes)%nat || compareEach oldNodes newNodes.

Definition isStructureChanged (oldVars newVars : list VariableNode.t) : bool :=
  if negb (length oldVars =? length newVars)%nat then true
  else compareNodes oldVars newVars.

Inductive MessageType := update | clear | hint | add_expression.

(** [interface LiveWatchMessage] *)
Record LiveWatchMessage := mkMessage {
  type : MessageType;
  msg_variables : option (list VariableNode.t);
  hintText : option string;
  msg_hasSession : option bool
}.

(** The fields of the view that [handleMessage] reads or writes. *)
Record t := mk {
  variables : list VariableNode.t;
  hasSession : bool;
  editingNodeId : option string
}.

(** What [handleMessage] does to the page. *)
Inductive Effect :=
| SetState (variables : list VariableNode.t) (hasSession : bool)
| Render
| UpdateVariableValues (newVariables : list VariableNode.t)
| RenderHint (hintText : string)
| ClearRoot
| ShowAddExpressionInput.

(** [!this.editingNodeId]: [null] and the empty string are falsy. *)
Definition notEditing (v : t) : bool :=
  match editingNodeId v with
  | Some i => negb (JS.nonempty i)
  | None => true
  end.

Definition handleMessage (v : t) (message : LiveWatchMessage) : t * list Effect :=
  match type message with
  | update =>
      let oldVariables := variables v in
      let v := mk (default [] (msg_variables message))
                  (default false (msg_hasSession message))
                  (editingNodeId v) in
      (v, SetState (variables v) (hasSession v)
            :: (if notEditing v then
                  if isStructureChanged oldVariables (variables v)
                  then [Render]
                  else [UpdateVariableValues (variables v)]
                else []))
  | clear =>
      (mk [] false (editingNodeId v), [SetState [] false; Render])
  | hint =>
      (v, [RenderHint (default "" (hintText message))])
  | add_expression =>
      (v, (if (length (variables v) =? 0)%nat then [ClearRoot] else [])
            ++ [ShowAddExpressionInput])
  end.

End View.

(** ** More of [LiveVariableNode]: [reset] and [expandChildren] *)

Module LiveNode.

(** [this.value = this.type = this.prevValue = ''; this.variablesReference = 0;] *)
Definition clear_values (n : LiveVariableNode) : LiveVariableNode :=
  mkNode (session n) (children n) (Some "") (expanded n) (id n) (parent n)
         (name n) (expr n) "" "" 0.

(** [reset(valuesToo = true)] *)
Fixpoint reset (fuel : nat) (this : loc) (valuesToo : bool) : M unit :=
  match fuel with
  | O => stuck
  | S fuel' =>
      modify this (set_session None) ;;
      (if valuesToo then modify this clear_values else ret tt) ;;
      let* n := get this in
      (fix loop (rest : list loc) : M unit :=
         match rest with
         | [] => ret tt
         | child :: rest' => reset fuel' child valuesToo ;; loop rest'
         end) (Node.getChildren n)
  end.

(** [expandChildren(session)], up to the call of [refreshChildren]; what
    follows the request is [Node.refreshChildren_fulfilled] or
    [Node.refreshChildren_rejected]. *)
Definition expandChildren (this : loc) (session : option SessionRef) : M Node.Pending :=
  modify this (set_expanded (Some true)) ;;
  modify this (set_session session) ;;
  Node.refreshChildren this session.

End LiveNode.

(** ** More of the controller: the commands on the watch list *)

Module Controller.

Import Provider.

Section Commands.

(** [String.prototype.trim], of which nothing is assumed. *)
Variable trim : string -> string.

(** [addWatchExpr(expr, _session)] *)
Definition addWatchExpr (p : Provider.t) (e : string) : M (list Effect) :=
  let e := trim e in
  if JS.nonempty e then
    let* added := Node.addNewExpr (variables p) e in
    if added then ret [SaveState; Refresh] else ret []
  else ret [].

(** [handleInlineRename(nodeId, newName)] *)
Definition handleInlineRename (fuel : nat) (p : Provider.t) (nodeId newName : string)
  : M (list Effect) :=
  let* found := Node.findById fuel (variables p) nodeId in
  match found with
  | None => ret []
  | Some node =>
      let* r := Node.isRootChild node in
      if negb (JS.truthy r) then ret []
      else
        let newName := trim newName in
        let* n := get node in
        if negb (JS.nonempty newName) || String.eqb newName (name n) then ret []
        else
          let* taken := Node.findName (variables p) newName in
          match taken with
          | Some _ =>
              ret [ShowInformationMessage
                     ("Live Watch: Expression " +:+ newName
                        +:+ " is already being watched")]
          | None =>
              Node.rename node newName ;;
              ret [SaveState; Refresh]
          end
  end.

(** [editNode(node)], up to the input box: the answer tells whether the
    box is shown. *)
Definition editNode (node : loc) : M bool :=
  let* r := Node.isRootChild node in
  ret (JS.truthy r).

(** The callback of [editNode] that runs once the input box is closed;
    [result] is what was typed, or [undefined] when the box was
    dismissed. *)
Definition editNode_answered (p : Provider.t) (node : loc) (result : option string)
  : M (list Effect) :=
  (* result = result ? result.trim() : result *)
  let result := match result with
                | Some r => if JS.nonempty r then Some (trim r) else Some r
                | None => None
                end in
  match result with
  | Some r =>
      let* n := get node in
      if JS.nonempty r && negb (String.eqb r (name n)) then
        let* taken := Node.findName (variables p) r in
        match taken with
        | Some _ =>
            ret [ShowInformationMessage
                   ("Live Watch: Expression " +:+ r +:+ " is already being watched")]
        | None =>
            Node.rename node r ;;
            ret [SaveState; Refresh]
        end
      else ret []
  | None => ret []
  end.

End Commands.

(** [try { body } catch (e) { handler }], for a body that writes nothing
    before the point at which it can throw: the handler starts from the
    store the body started from. *)
Definition catching {A} (body handler : M A) : M A :=
  fun s => match body s with
           | Some r => Some r
           | None => handler s
           end.

(** [removeWatchExpr(node)]; the handler only writes to the console. *)
Definition removeWatchExpr (p : Provider.t) (node : option loc) : M (list Effect) :=
  catching
    (let* removed := Node.removeChild (variables p) node in
     if removed then ret [SaveState; UpdateWebview] else ret [])
    (ret []).

(** [const parent = node?.getParent()] *)
Definition parentOf (node : option loc) : M (option loc) :=
  match node with
  | None => ret None
  | Some nd => let* n := get nd in ret (parent n)
  end.

(** [moveUpNode(node)] *)
Definition moveUpNode (p : Provider.t) (node : option loc) : M (list Effect) :=
  let* par := parentOf node in
  match par with
  | None => ret []
  | Some par =>
      let* moved := Node.moveUpChild par node in
      if moved then ret [SaveState; UpdateWebview] else ret []
  end.

(** [moveDownNode(node)] *)
Definition moveDownNode (p : Provider.t) (node : option loc) : M (list Effect) :=
  let* par := parentOf node in
  match par with
  | None => ret []
  | Some par =>
      let* moved := Node.moveDownChild par node in
      if moved then ret [SaveState; UpdateWebview] else ret []
  end.

(** The loop of [removeAllExpr] over the copy [[...children]]. *)
Fixpoint removeEach (root : loc) (copy : list loc) : M unit :=
  match copy with
  | [] => ret tt
  | child :: rest =>
      Node.removeChild root (Some child) ;;
      removeEach root rest
  end.

(** [removeAllExpr()] *)
Definition removeAllExpr (p : Provider.t) : M (list Effect) :=
  let* n := get (variables p) in
  let children := Node.getChildren n in
  if (0 <? length children)%nat then
    removeEach (variables p) children ;;
    ret [SaveState; UpdateWebview]
  else ret [].

(** The loop of [collapseAll]; [changed] is the flag it keeps. *)
Fixpoint collapseEach (rest : list loc) (changed : bool) : M bool :=
  match rest with
  | [] => ret changed
  | child :: rest' =>
      let* c := get child in
      if JS.truthy (expanded c) then
        modify child (set_expanded (Some false)) ;;
        collapseEach rest' true
      else collapseEach rest' changed
  end.

(** [collapseAll()] *)
Definition collapseAll (p : Provider.t) : M (list Effect) :=
  let* n := get (variables p) in
  let* changed := collapseEach (Node.getChildren n) false in
  if changed then ret [SaveState; UpdateWebview] else ret [].

(** The message [updateWebview] posts. *)
Record Update := mkUpdate {
  update_variables : list WebViewVariableNode.t;
  hasSession : bool
}.

Section Webview.

(** [getPathRelative] is imported from [../../common], as for
    [Node.toWebViewNode]. *)
Variable getPathRelative : string -> string -> string.

(** [updateWebview()]: [hasView] tells whether [this.webviewView] is set,
    [cwd] is [session?.configuration?.cwd]; the answer is the message
    posted, if any. *)
Definition updateWebview (fuel : nat) (p : Provider.t) (hasView : bool)
           (cwd : option string) : M (option Update) :=
  if negb hasView then ret None
  else
    let* n := get (variables p) in
    let* webViewNodes :=
      Node.mapM (fun c => Node.toWebViewNode getPathRelative fuel c 0 cwd)
                (Node.getChildren n) in
    ret (Some (mkUpdate webViewNodes (bool_decide (is_Some (session p))))).

End Webview.

(** What [toggleNode] comes to: no node carries the id; the node is
    toggled and the effects are asked for at once; or the children of the
    node are requested, and [saveState] and [updateWebview] follow once
    the request has settled. *)
Inductive Toggle :=
| NotFound
| Toggled (effects : list Effect)
| Requested (variablesReference : Z) (oldStateMap : SaveVarStateMap.t).

(** [toggleNode(nodeId)] *)
Definition toggleNode (fuel : nat) (p : Provider.t) (nodeId : string) : M Toggle :=
  let* found := Node.findById fuel (variables p) nodeId in
  match found with
  | None => ret NotFound
  | Some node =>
      let* n := get node in
      if JS.truthy (expanded n) then
        modify node (set_expanded (Some false)) ;;
        ret (Toggled [SaveState; UpdateWebview])
      else
        match session p with
        | Some active =>
            let* pending := LiveNode.expandChildren node (Some (DebugSession.ref active)) in
            match pending with
            | Node.Resolved => ret (Toggled [SaveState; UpdateWebview])
            | Node.LiveVariables reference oldStateMap =>
                ret (Requested reference oldStateMap)
            end
        | None =>
            modify node (set_expanded (Some true)) ;;
            ret (Toggled [SaveState; UpdateWebview])
        end
  end.

End Controller.

(** ** More of the controller: the debug session and the polling timer *)

Module Lifecycle.

Import Provider.

(** The two callbacks handed to [setTimeout] besides the polling timer;
    nothing ever clears them. *)
Inductive Callback :=
| ResetValues      (* [this.variables.reset(true)] *)
| RefreshIfIdle.   (* [if (!this.timeout) this.refresh(session)] *)

(** What a method asks for: an effect of [Provider], a callback after a
    delay, or the request [liveCacheRefresh], after which the tree is
    refreshed and [refreshed] runs. *)
Inductive Effect :=
| Now (e : Provider.Effect)
| After (ms : Q) (c : Callback)
| LiveCacheRefresh (s : DebugSession.t) (restartTimer : bool).

(** [isSameSession(session)] *)
Definition isSameSession (p : t) (s : option DebugSession.t) : bool :=
  match s, session p with
  | Some s, Some active => String.eqb (DebugSession.id s) (DebugSession.id active)
  | _, _ => false
  end.

(** [killTimer()] *)
Definition killTimer (p : t) : t :=
  mk (variables p) (session p) None (timeoutMs p) (isStopped p) (currentRefreshRate p).

Definition set_isStopped (v : bool) (p : t) : t :=
  mk (variables p) (session p) (timeout p) (timeoutMs p) v (currentRefreshRate p).

Definition set_session (v : option DebugSession.t) (p : t) : t :=
  mk (variables p) v (timeout p) (timeoutMs p) (isStopped p) (currentRefreshRate p).

(** [a < b] on numbers. *)
Definition lt (a b : Q) : bool := negb (Qle_bool b a).

(** The closure [restart] of [refresh]. *)
Definition restart (p : t) (restartTimer : bool) (elapsed : Q) : t :=
  if negb (isStopped p) && restartTimer && bool_decide (is_Some (session p))
  then startTimer p (if lt elapsed 0 || lt (timeoutMs p) elapsed then 0%Q else elapsed)
  else p.

(** [refresh(session, restartTimer = false)], up to the request. *)
Definition refresh (p : t) (s : option DebugSession.t) (restartTimer : bool)
  : M (t * list Effect) :=
  match s with
  | Some s' =>
      if isSameSession p s then
        let* n := get (variables p) in
        if (length (Node.getChildren n) =? 0)%nat
        then ret (restart p restartTimer 0, [])
        else ret (p, [LiveCacheRefresh s' restartTimer])
      else ret (p, [Now UpdateWebview])
  | None => ret (p, [Now UpdateWebview])
  end.

(** The callback of [refresh] that runs when the refresh of the tree has
    settled, [elapsed] milliseconds after the request; what it writes to
    the console is left out. *)
Definition refreshed (p : t) (restartTimer : bool) (elapsed : Q) : t * list Effect :=
  (restart p restartTimer elapsed, [Now UpdateWebview]).

(** The callback of the polling timer. *)
Definition timerFired (p : t) : M (t * list Effect) :=
  let p := killTimer p in
  match session p with
  | Some s => refresh p (Some s) true
  | None => ret (p, [])
  end.

(** The callback [RefreshIfIdle]. *)
Definition refreshIfIdle (p : t) : M (t * list Effect) :=
  match timeout p with
  | None => refresh p (session p) false
  | Some _ => ret (p, [])
  end.

(** [debugSessionTerminated(session)] *)
Definition debugSessionTerminated (p : t) (s : DebugSession.t) : t * list Effect :=
  if isSameSession p (Some s) then
    (set_session None (killTimer (set_isStopped true p)),
     [Now UpdateWebview; Now SaveState; After 100 ResetValues])
  else (p, []).

(** [debugStopped(session)] *)
Definition debugStopped (p : t) (s : DebugSession.t) : t * list Effect :=
  if isSameSession p (Some s) then
    (killTimer (set_isStopped true p), [After 250 RefreshIfIdle])
  else (p, []).

(** [debugContinued(session)] *)
Definition debugContinued (p : t) (s : DebugSession.t) : t * list Effect :=
  if isSameSession p (Some s) then (startTimer (set_isStopped false p) 0, [])
  else (p, []).

(** What can happen to the controller. *)
Inductive Event :=
| SessionStarted (s : DebugSession.t)
| SessionTerminated (s : DebugSession.t)
| Stopped (s : DebugSession.t)
| Continued (s : DebugSession.t)
| TimerFired
| Idle
| Refreshed (restartTimer : bool) (elapsed : Q)
| SettingsChanged (configured : option Q).

(** One event; a polling timer that is not pending does not fire. *)
Definition step (p : t) (e : Event) : M (t * list Effect) :=
  match e with
  | SessionStarted s =>
      let '(p', effects) := debugSessionStarted p s in ret (p', map Now effects)
  | SessionTerminated s => ret (debugSessionTerminated p s)
  | Stopped s => ret (debugStopped p s)
  | Continued s => ret (debugContinued p s)
  | TimerFired =>
      match timeout p with
      | Some _ => timerFired p
      | None => ret (p, [])
      end
  | Idle => refreshIfIdle p
  | Refreshed restartTimer elapsed => ret (refreshed p restartTimer elapsed)
  | SettingsChanged configured => ret (setRefreshRate p configured, [])
  end.

End Lifecycle.

(** ** More of the webview: the context menu and the searches by id *)

Module Page.

(** [const match = node.name.match(/,([hxbod])$/);
     const currentFormat = match ? match[1] : '';] *)
Fixpoint currentFormat (name : string) : string :=
  match name with
  | EmptyString => ""
  | String a rest =>
      match rest with
      | String c EmptyString =>
          if Ascii.eqb a "," && Provider.isFormatLetter c then String c "" else ""
      | _ => currentFormat rest
      end
  end.

(** [findNodeById(nodes, id)]: the body of the loop for one node, the
    recursive call on its children included. *)
Fixpoint findNode (node : VariableNode.t) (id : string) {struct node}
  : option VariableNode.t :=
  if String.eqb (VariableNode.id node) id then Some node
  else
    match VariableNode.children node with
    | Some children =>
        (fix loop (nodes : list VariableNode.t) : option VariableNode.t :=
           match nodes with
           | [] => None
           | n :: rest =>
               match findNode n id with
               | Some found => Some found
               | None => loop rest
               end
           end) children
    | None => None
    end.

Fixpoint findNodeById (nodes : list VariableNode.t) (id : string)
  : option VariableNode.t :=
  match nodes with
  | [] => None
  | n :: rest =>
      match findNode n id with
      | Some found => Some found
      | None => findNodeById rest id
      end
  end.

(** The closure [buildValueMap] of [updateVariableValues], on the map it
    fills: the body of the loop for one variable. *)
Fixpoint setValue (variable : VariableNode.t) (newValueMap : gmap string VariableNode.t)
         {struct variable} : gmap string VariableNode.t :=
  let newValueMap := <[VariableNode.id variable := variable]> newValueMap in
  match VariableNode.children variable with
  | Some children =>
      if (0 <? length children)%nat then
        (fix loop (vars : list VariableNode.t) (m : gmap string VariableNode.t) :=
           match vars with
           | [] => m
           | v :: rest => loop rest (setValue v m)
           end) children newValueMap
      else newValueMap
  | None => newValueMap
  end.

Fixpoint buildValueMap (vars : list VariableNode.t) (newValueMap : gmap string VariableNode.t)
  : gmap string VariableNode.t :=
  match vars with
  | [] => newValueMap
  | v :: rest => buildValueMap rest (setValue v newValueMap)
  end.

End Page.

(* ================================================================== *)
(** * Vocabulary of the properties *)

(** ** Trees in the store *)

(** The root of a tree is a node without parent. *)
Definition is_root (h : list LiveVariableNode) (l : loc) : Prop :=
  exists n, h !! l = Some n /\ parent n = None.

(** A root child is a node whose parent is a root. *)
Definition root_child (h : list LiveVariableNode) (l : loc) : Prop :=
  exists n p, h !! l = Some n /\ parent n = Some p /\ is_root h p.

(** A parent pointer always points to an object of the store. *)
Definition parent_alive (h : list LiveVariableNode) (l : loc) : Prop :=
  forall n p, h !! l = Some n -> parent n = Some p -> is_Some (h !! p).

(** The objects reachable from [l] through [children] form a tree of
    height less than [fuel], made of objects of the store whose parent
    pointers do not dangle. *)
Fixpoint tree_within (fuel : nat) (h : list LiveVariableNode) (l : loc) : Prop :=
  match fuel with
  | O => False
  | S fuel' =>
      exists n, h !! l = Some n /\
                (forall p, parent n = Some p -> is_Some (h !! p)) /\
                Forall (tree_within fuel' h) (Node.getChildren n)
  end.

(** [h'] is [h] up to the previous values held by the objects. *)
Definition up_to_prevValue (h h' : list LiveVariableNode) : Prop :=
  length h = length h' /\
  forall l n, h !! l = Some n -> exists v, h' !! l = Some (set_prevValue v n).

(** ** Reordering and adding children *)

(** The store after the children array of [this] has been overwritten. *)
Definition with_children (s : Store) (this : loc) (n : LiveVariableNode)
           (cs : list loc) : Store :=
  mkStore (<[this := set_children (Some cs) n]> (heap s)) (idCounter s).

(** [l] is the child at index [i], and no child before it carries its
    name: it is the child a search by name finds. *)
Definition found_by_name (h : list LiveVariableNode) (cs : list loc)
           (i : nat) (l : loc) : Prop :=
  cs !! i = Some l /\
  exists n, h !! l = Some n /\
    forall j c, (j < i)%nat -> cs !! j = Some c ->
      exists cn, h !! c = Some cn /\ name cn <> name n.

(** Every object of [cs] is alive and carries a name other than [nm]. *)
Definition other_names (h : list LiveVariableNode) (nm : string) (cs : list loc) : Prop :=
  forall c, c ∈ cs -> exists cn, h !! c = Some cn /\ name cn <> nm.

(** [es] lists the expressions of the objects [cs], in order. *)
Definition child_exprs (h : list LiveVariableNode) (cs : list loc)
           (es : list string) : Prop :=
  Forall2 (fun c e => exists cn, h !! c = Some cn /\ expr cn = e) cs es.

(** [root] is a root whose children watch the expressions [es]. *)
Definition watches (s : Store) (root : loc) (es : list string) : Prop :=
  exists n, heap s !! root = Some n /\ parent n = None /\
            child_exprs (heap s) (Node.getChildren n) es.

(** The node [addChild(e, e)] constructs under [this] in the store [s]. *)
Definition added (s : Store) (this : loc) (e : string) : LiveVariableNode :=
  mkNode None None (Some "") (Some false)
         (Some ("node_" +:+ JS.decimal (idCounter s)))
         (Some this) e e "" "" 0.

(** A sequence of calls of [addNewExpr] on one node. *)
Definition addNewExprs (this : loc) (es : list string) : M (list bool) :=
  Node.mapM (Node.addNewExpr this) es.

(** ** Refreshing *)

(** The request is wanted: a session is given, it is the one the node
    recorded, the node is expanded and refers to variables. *)
Definition request_wanted (n : LiveVariableNode) (given : option SessionRef) : Prop :=
  is_Some given /\ session n = given /\ expanded n = Some true
  /\ (0 < variablesReference n)%Z.

(** The state [refreshChildren] saves for a child. *)
Definition stateOf (c : LiveVariableNode) : SaveVarState.t :=
  SaveVarState.mk (id c) (expanded c) (value c) (children c).

(** [oldStateMap] once the states of the children [cs] are stored in [m],
    in order. *)
Definition saved (cs : list LiveVariableNode) (m : SaveVarStateMap.t)
  : SaveVarStateMap.t :=
  fold_left (fun m c => SaveVarStateMap.assign m (name c) (stateOf c)) cs m.

(** [key] is bound to [state] in [m]: as an own property, or for the key
    [__proto__] as the prototype. *)
Definition bound (m : SaveVarStateMap.t) (key : string) (state : SaveVarState.t) : Prop :=
  if String.eqb key "__proto__"
  then SaveVarStateMap.proto m = Some state
  else SaveVarStateMap.own m !! key = Some state.

(** The child [refreshChildren] makes of a variable of the answer, when
    the id counter is at [counter]. *)
Definition adopted (counter : nat) (this : loc) (given : option SessionRef)
           (m : SaveVarStateMap.t) (v : ProtocolVariable.t) : LiveVariableNode :=
  let reference := default 0%Z (ProtocolVariable.variablesReference v) in
  let made (i : option string) (e : option bool) (p : option string)
           (cs : option (list loc)) :=
    mkNode given cs p e i (Some this)
           (ProtocolVariable.name v)
           (JS.or_else (default "" (ProtocolVariable.evaluateName v))
                       (ProtocolVariable.name v))
           (default "" (ProtocolVariable.value v))
           (default "" (ProtocolVariable.type v))
           reference in
  match SaveVarStateMap.lookup m (ProtocolVariable.name v) with
  | SaveVarStateMap.State old =>
      made (SaveVarState.id old)
           (match SaveVarState.expanded old with
            | Some true => Some (0 <? reference)%Z
            | falsy => falsy
            end)
           (Some (SaveVarState.value old))
           (SaveVarState.children old)
  | SaveVarStateMap.Other => made None None None None
  | SaveVarStateMap.Falsy =>
      made (Some ("node_" +:+ JS.decimal counter)) (Some false) (Some "") None
  end.

(** ** Persistence *)

(** What the controller does with a saved state when it is constructed:
    [this.variables = new LiveVariableNode(undefined, '', '')], then
    [this.variables.deSerialize(saved)]. *)
Definition restore (saved : NodeState.t) : M loc :=
  let* root := Node.new None "" "" "" "" 0 in
  Node.deSerialize saved root ;;
  ret root.

(** The height of a saved state, which is the fuel its tree takes to be
    serialized. *)
Fixpoint height (state : NodeState.t) : nat :=
  S ((fix highest (rest : list NodeState.t) : nat :=
        match rest with
        | [] => O
        | child :: rest' => Nat.max (height child) (highest rest')
        end) (NodeState.children state)).

(** The object [l], at an address not below [lo], is a node restored from
    [state]: it has the name, the expression and the expansion flag of
    [state], a parent, no value, no type and no variables reference, and
    its children are restored from the children of [state], in order. *)
#[warnings="-register-all"]
Inductive restored (h : list LiveVariableNode) (lo : nat)
  : loc -> NodeState.t -> Prop :=
| restored_node (l : loc) (n : LiveVariableNode) (state : NodeState.t) :
    lo <= l ->
    h !! l = Some n ->
    name n = NodeState.name state ->
    expr n = NodeState.expr state ->
    expanded n = Some (NodeState.expanded state) ->
    is_Some (parent n) ->
    value n = "" -> type n = "" -> variablesReference n = 0%Z ->
    Forall2 (restored h lo) (Node.getChildren n) (NodeState.children state) ->
    restored h lo l state.

(** The loop of [deSerialize] over the children of a saved state. *)
Definition deSerialize_loop (this : loc) : list NodeState.t -> M unit :=
  fix loop (rest : list NodeState.t) : M unit :=
    match rest with
    | [] => ret tt
    | child :: rest' =>
        let* n := get this in
        (match children n with
         | None => modify this (set_children (Some []))
         | Some _ => ret tt
         end) ;;
        let* item := Node.new (Some this) (NodeState.name child) (NodeState.expr child)
                              "" "" 0 in
        modify item (set_expanded (Some (NodeState.expanded child))) ;;
        modify this (fun n => set_children (Some (Node.getChildren n ++ [item])) n) ;;
        Node.deSerialize child item ;;
        loop rest'
    end.

(** [run this] restores the states [kids] under the object [this]: it
    allocates after the objects there are, touches no object but [this],
    appends the restored nodes to the children of [this], and leaves
    [this] as it is when there is nothing to restore. *)
Definition builds (run : loc -> M unit) (kids : list NodeState.t) : Prop :=
  forall s this n,
    heap s !! this = Some n ->
    exists s' cs,
      run this s = Some (tt, s') /\
      length (heap s) <= length (heap s') /\
      (forall k x, k <> this -> heap s !! k = Some x -> heap s' !! k = Some x) /\
      heap s' !! this
      = Some (set_children (match kids with
                            | [] => children n
                            | _ => Some (Node.getChildren n ++ cs)
                            end) n) /\
      Forall2 (restored (heap s') (length (heap s))) cs kids.

(** The saved state [state] records the tree at [l]: node by node and in
    order, the name, the expression, and as flag whether the node is
    expanded or has no parent. *)
#[warnings="-register-all"]
Inductive recorded (h : list LiveVariableNode) : loc -> NodeState.t -> Prop :=
| recorded_node (l : loc) (n : LiveVariableNode) (state : NodeState.t) :
    h !! l = Some n ->
    NodeState.name state = name n ->
    NodeState.expr state = expr n ->
    NodeState.expanded state
    = (JS.truthy (expanded n)
       || match parent n with None => true | Some _ => false end) ->
    Forall2 (recorded h) (Node.getChildren n) (NodeState.children state) ->
    recorded h l state.

(** ** The controller and the webview *)


(** The bounds of the polling period, in milliseconds. *)
Definition period_bounded (p : Provider.t) : Prop :=
  (50 <= Provider.timeoutMs p)%Q /\ (Provider.timeoutMs p <= 1000)%Q.



(** Two webview trees have the same structure: the same shape (a missing
    [children] counts as no children) and, node by node, the same [id],
    [name], [expr], [hasChildren], [expanded] and [depth]. *)
#[warnings="-register-all"]
Inductive same_structure : VariableNode.t -> VariableNode.t -> Prop :=
| same_structure_node (oldNode newNode : VariableNode.t) :
    VariableNode.id oldNode = VariableNode.id newNode ->
    VariableNode.name oldNode = VariableNode.name newNode ->
    VariableNode.expr oldNode = VariableNode.expr newNode ->
    VariableNode.hasChildren oldNode = VariableNode.hasChildren newNode ->
    VariableNode.expanded oldNode = VariableNode.expanded newNode ->
    VariableNode.depth oldNode = VariableNode.depth newNode ->
    Forall2 same_structure (View.childrenOf oldNode) (View.childrenOf newNode) ->
    same_structure oldNode newNode.

(** ** Sample data *)

(** A watch tree to try the statements on.

    The root (address 0) watches [a], [b] and [c]; [a] is expanded and has
    one field [x]. *)
Module Sample.

Definition root : LiveVariableNode :=
  mkNode None (Some [1; 2; 3]%nat) (Some "") (Some false) (Some "node_0")
         None "" "" "" "" 0.
Definition a : LiveVariableNode :=
  mkNode (Some 7%nat) (Some [4%nat]) (Some "0") (Some true) (Some "node_1")
         (Some 0%nat) "a" "a" "1" "struct s" 5.
Definition b : LiveVariableNode :=
  mkNode None None (Some "") (Some false) (Some "node_2")
         (Some 0%nat) "b" "b" "" "" 0.
Definition c : LiveVariableNode :=
  mkNode None None (Some "") (Some false) (Some "node_3")
         (Some 0%nat) "c" "c" "" "" 0.
Definition x : LiveVariableNode :=
  mkNode (Some 7%nat) None (Some "") (Some false) (Some "node_4")
         (Some 1%nat) "x" "a.x" "3" "int" 0.

Definition store : Store := mkStore [root; a; b; c; x] 5.

End Sample.

(** A tree restored from a saved state in which two watch expressions
    carry the same name: the root (address 0) has the children 1, 2 and 3,
    named [x], [y] and [x]. *)
Module Duplicate.

Definition saved : NodeState.t :=
  NodeState.mk "" "" true
    [ NodeState.mk "x" "x" false [];
      NodeState.mk "y" "y" false [];
      NodeState.mk "x" "x" false [] ].

Definition store : Store :=
  Eval vm_compute in
    match restore saved (mkStore [] 0) with
    | Some (_, s) => s
    | None => mkStore [] 0
    end.

End Duplicate.

(** An answer of the adapter to [liveVariables] for the node [a] of the
    sample tree: the field [x] it had, a field called [constructor], and a
    field [y]. *)
Module Answer.

Definition x : ProtocolVariable.t :=
  ProtocolVariable.mk "x" (Some "a.x") (Some "4") (Some "int") (Some 0%Z).

Definition constructor : ProtocolVariable.t :=
  ProtocolVariable.mk "constructor" (Some "a.constructor") (Some "0x0")
                      (Some "void (*)(void)") (Some 0%Z).

Definition y : ProtocolVariable.t :=
  ProtocolVariable.mk "y" (Some "a.y") (Some "9") (Some "int") (Some 0%Z).

Definition variables : list ProtocolVariable.t := [x; constructor; y].

End Answer.

(** Two sessions to try the statements on: [first] asks for the default
    rate, [second] for twenty samples per second. *)
Module Sessions.

Definition first : DebugSession.t :=
  DebugSession.mk 7 "session-1" "Debug A" (Some (LiveWatchConfig.mk true None)).

Definition second : DebugSession.t :=
  DebugSession.mk 8 "session-2" "Debug B" (Some (LiveWatchConfig.mk true (Some 20%Q))).

End Sessions.

(** Two messages to try the statements on: the second differs from the
    first in [value], [type], [changed] and [isRoot] only, the third also
    in the [expanded] flag of the inner node. *)
Module Trees.

Definition field (value : string) (changed : bool) : VariableNode.t :=
  VariableNode.mk "node_4" "x" "a.x" value "int" false false changed false None 1.

Definition first : list VariableNode.t :=
  [ VariableNode.mk "node_1" "a" "a" "{...}" "struct s" true true false true
                    (Some [field "3" false]) 0 ].

Definition second : list VariableNode.t :=
  [ VariableNode.mk "node_1" "a" "a" "{..}" "File: m.c" true true true false
                    (Some [field "4" true]) 0 ].

Definition third : list VariableNode.t :=
  [ VariableNode.mk "node_1" "a" "a" "{...}" "struct s" true true false true
                    (Some [VariableNode.mk "node_4" "x" "a.x" "3" "int" false true
                                           false false None 1]) 0 ].

End Trees.

(** ** Reachability and the watch list *)

(** [k] is reached from [l] by following [children]. *)
Inductive reaches (h : list LiveVariableNode) : loc -> loc -> Prop :=
| reaches_here (l : loc) : reaches h l l
| reaches_below (l c k : loc) (n : LiveVariableNode) :
    h !! l = Some n -> c ∈ Node.getChildren n -> reaches h c k -> reaches h l k.

(** [c] is a watch expression called [nm] under [root]: an object whose
    parent is [root] and whose name and expression are both [nm]. *)
Definition watch (h : list LiveVariableNode) (root : loc) (c : loc) (nm : string) : Prop :=
  exists cn, h !! c = Some cn /\ parent cn = Some root /\ name cn = nm /\ expr cn = nm.

(** [root] is the root of a watch list: it has no parent, its children
    are the objects [cs], which are watch expressions with the pairwise
    distinct names [names], in order. *)
Definition watch_list (s : Store) (root : loc) (cs : list loc) (names : list string)
  : Prop :=
  exists n, heap s !! root = Some n /\ parent n = None /\ Node.getChildren n = cs /\
            Forall2 (watch (heap s) root) cs names /\ NoDup names.

(** The store in which the object [k], which was [kn], is renamed to
    [e]. *)
Definition renamed (s : Store) (k : loc) (kn : LiveVariableNode) (e : string) : Store :=
  mkStore (<[k := set_name_expr e kn]> (heap s)) (idCounter s).

(** What is asked for when an expression is watched already. *)
Definition already_watched (e : string) : list Provider.Effect :=
  [Provider.ShowInformationMessage
     ("Live Watch: Expression " +:+ e +:+ " is already being watched")].

(** What comes of an attempt to rename the root child [k], which is
    [kn], to [e], on the watch list [cs] of [root] with the names
    [names]; [kept] is the case in which the command gives up at once and
    [run] is the outcome of the command.
    - When the command gives up, nothing changes and nothing is asked
      for.
    - Otherwise, when [e] is in the list, nothing changes and the
      message is shown.
    - Otherwise [k] is renamed, nothing else changes, and a save and a
      refresh are asked for; the watch list is a watch list again, with
      [e] at the index of [k] (or with the same names, should [k] not be
      in the list). *)
Definition rename_outcome (s : Store) (root : loc) (cs : list loc) (names : list string)
           (k : loc) (kn : LiveVariableNode) (e : string) (kept : Prop)
           (run : option (list Provider.Effect * Store)) : Prop :=
  (kept -> run = Some ([], s))
  /\ (~ kept -> e ∈ names -> run = Some (already_watched e, s))
  /\ (~ kept -> e ∉ names ->
      run = Some ([Provider.SaveState; Provider.Refresh], renamed s k kn e) /\
      (forall i, cs !! i = Some k ->
                 watch_list (renamed s k kn e) root cs (<[i := e]> names)) /\
      (k ∉ cs -> watch_list (renamed s k kn e) root cs names)).

(** The store in which every object of [cs] that was expanded is
    collapsed, and nothing else differs. *)
Definition collapsed (cs : list loc) (h : list LiveVariableNode)
  : list LiveVariableNode :=
  imap (fun k x =>
          if bool_decide (k ∈ cs) && JS.truthy (expanded x)
          then set_expanded (Some false) x else x) h.

(** One of the objects [cs] is expanded. *)
Definition some_expanded (h : list LiveVariableNode) (cs : list loc) : bool :=
  existsb (fun c => match h !! c with
                    | Some x => JS.truthy (expanded x)
                    | None => false
                    end) cs.

(** What [reset] makes of one object. *)
Definition reset_node (valuesToo : bool) (n : LiveVariableNode) : LiveVariableNode :=
  let n := set_session None n in
  if valuesToo then LiveNode.clear_values n else n.

(** The objects a traversal from [l] visits, in the order of the visit. *)
Fixpoint below (fuel : nat) (h : list LiveVariableNode) (l : loc) : list loc :=
  match fuel with
  | O => []
  | S fuel' =>
      match h !! l with
      | Some n => l :: flat_map (below fuel' h) (Node.getChildren n)
      | None => []
      end
  end.

(** The store in which the objects [ks] are reset and nothing else
    differs. *)
Definition reset_in (ks : list loc) (valuesToo : bool) (h : list LiveVariableNode)
  : list LiveVariableNode :=
  imap (fun k x => if bool_decide (k ∈ ks) then reset_node valuesToo x else x) h.

(** A pending polling timer belongs to a session, and its delay is
    between zero and the period. *)
Definition timer_sane (p : Provider.t) : Prop :=
  match Provider.timeout p with
  | Some delay =>
      is_Some (Provider.session p) /\ (0 <= delay)%Q /\ (delay <= Provider.timeoutMs p)%Q
  | None => True
  end.

(** The events that neither start a session nor resume the target. *)
Definition quiet (e : Lifecycle.Event) : bool :=
  match e with
  | Lifecycle.SessionStarted _ | Lifecycle.Continued _ => false
  | _ => true
  end.

(** The nodes of a message, parents before children, in the order of the
    arrays. *)
Fixpoint preorder (node : VariableNode.t) : list VariableNode.t :=
  node :: match VariableNode.children node with
          | Some children => flat_map preorder children
          | None => []
          end.

(** The suffix a format adds to an expression. *)
Definition format_suffix (format : string) : string :=
  if JS.nonempty format then "," +:+ format else "".

(** [newValueMap.set(variable.id, variable)] for the nodes [l], in order. *)
Definition set_all (l : list VariableNode.t) (m : gmap string VariableNode.t)
  : gmap string VariableNode.t :=
  fold_left (fun m n => <[VariableNode.id n := n]> m) l m.

(** The test [node.id === id]. *)
Definition carries (id : string) (n : VariableNode.t) : bool :=
  String.eqb (VariableNode.id n) id.

(** Every id in the store was drawn from the counter: it is [node_j] for
    a [j] below the counter. *)
Definition ids_below (s : Store) : Prop :=
  forall k n i,
    heap s !! k = Some n -> id n = Some i ->
    exists j, j < idCounter s /\ i = "node_" +:+ JS.decimal j.

(** A projected tree without its [changed] flags. *)
Fixpoint unchanged (w : WebViewVariableNode.t) : WebViewVariableNode.t :=
  WebViewVariableNode.mk
    (WebViewVariableNode.id w) (WebViewVariableNode.name w)
    (WebViewVariableNode.expr w) (WebViewVariableNode.value w)
    (WebViewVariableNode.type w) (WebViewVariableNode.hasChildren w)
    (WebViewVariableNode.expanded w) false (WebViewVariableNode.isRoot w)
    (match WebViewVariableNode.children w with
     | Some ws => Some (map unchanged ws)
     | None => None
     end)
    (WebViewVariableNode.depth w).

(** The objects a projection from [l] visits: the children of an object
    are visited when it is expanded. *)
Fixpoint shown (fuel : nat) (h : list LiveVariableNode) (l : loc) : list loc :=
  match fuel with
  | O => []
  | S fuel' =>
      match h !! l with
      | Some n =>
          l :: (if JS.truthy (expanded n)
                then flat_map (shown fuel' h) (Node.getChildren n) else [])
      | None => []
      end
  end.

(** The previous value of each of the objects [ks] is its value. *)
Definition settled (h : list LiveVariableNode) (ks : list loc) : Prop :=
  forall k, k ∈ ks -> exists n, h !! k = Some n /\ prevValue n = Some (value n).

(** [h'] is [h] but for objects whose previous value has been set to
    their value. *)
Definition settling (h h' : list LiveVariableNode) : Prop :=
  length h = length h' /\
  forall k n, h !! k = Some n ->
    h' !! k = Some n \/ h' !! k = Some (set_prevValue (Some (value n)) n).

(** What one projection does, and what a second one does after it: the
    first ends in a store in which the visited objects are settled; from
    any such store the projection gives the same tree without its
    [changed] flags, and writes nothing. *)
Definition projects (getPathRelative : string -> string -> string)
           (fuel : nat) (s : Store) (l : loc) (depth : Z) (cwd : option string)
           (w : WebViewVariableNode.t) (s' : Store) : Prop :=
  Node.toWebViewNode getPathRelative fuel l depth cwd s = Some (w, s') /\
  settling (heap s) (heap s') /\
  settled (heap s') (shown fuel (heap s) l) /\
  forall s2,
    up_to_prevValue (heap s) (heap s2) ->
    settled (heap s2) (shown fuel (heap s) l) ->
    Node.toWebViewNode getPathRelative fuel l depth cwd s2 = Some (unchanged w, s2).

(* ================================================================== *)
(** * Properties *)

(** ** Reasoning about computations in [M] *)

Lemma bind_run {A B} (m : M A) (k : A -> M B) s a s' :
  m s = Some (a, s') -> bind m k s = k a s'.
Proof. unfold bind. intros ->. reflexivity. Qed.

Lemma bind_assoc {A B C} (m : M A) (f : A -> M B) (g : B -> M C) s :
  bind (bind m f) g s = bind m (fun x => bind (f x) g) s.
Proof. unfold bind. destruct (m s) as [[a s']|]; reflexivity. Qed.

Lemma get_run s l n : heap s !! l = Some n -> get l s = Some (n, s).
Proof. unfold get. intros ->. reflexivity. Qed.

Lemma modify_run s l f n :
  heap s !! l = Some n ->
  modify l f s = Some (tt, mkStore (<[l := f n]> (heap s)) (idCounter s)).
Proof. unfold modify. intros ->. reflexivity. Qed.

Lemma isRootChild_root_child s l :
  root_child (heap s) l -> Node.isRootChild l s = Some (Some true, s).
Proof.
  intros (n & p & Hn & Hp & pn & Hpn & Hpp).
  unfold Node.isRootChild.
  rewrite (bind_run _ _ _ _ _ (get_run _ _ _ Hn)), Hp.
  rewrite (bind_run _ _ _ _ _ (get_run _ _ _ Hpn)), Hpp. reflexivity.
Qed.

Lemma isRootChild_other s l n :
  heap s !! l = Some n -> parent_alive (heap s) l -> ~ root_child (heap s) l ->
  exists r, Node.isRootChild l s = Some (r, s) /\ JS.truthy r = false.
Proof.
  intros Hn Halive Hnot. unfold Node.isRootChild.
  rewrite (bind_run _ _ _ _ _ (get_run _ _ _ Hn)).
  destruct (parent n) as [p|] eqn:Hp.
  - destruct (Halive n p Hn Hp) as [pn Hpn].
    rewrite (bind_run _ _ _ _ _ (get_run _ _ _ Hpn)).
    destruct (parent pn) as [g|] eqn:Hg.
    + eexists; split; reflexivity.
    + exfalso. apply Hnot. exists n, p. repeat split; auto. exists pn; auto.
  - eexists; split; reflexivity.
Qed.

Lemma notRootChild_other s l n :
  heap s !! l = Some n -> parent_alive (heap s) l -> ~ root_child (heap s) l ->
  Node.notRootChild (Some l) s = Some (true, s).
Proof.
  intros Hn Ha Hnot. destruct (isRootChild_other s l n Hn Ha Hnot) as (r & Hr & Ht).
  unfold Node.notRootChild. rewrite (bind_run _ _ _ _ _ Hr), Ht. reflexivity.
Qed.

Lemma notRootChild_root_child s l :
  root_child (heap s) l -> Node.notRootChild (Some l) s = Some (false, s).
Proof.
  intros H. unfold Node.notRootChild.
  rewrite (bind_run _ _ _ _ _ (isRootChild_root_child _ _ H)). reflexivity.
Qed.

(** ** C1: only root children are renamed, removed or reordered *)

(** C1.  A node that is not a child of the root (the root itself, or a node
    whose parent has a parent) is not renamed by [rename], and
    [removeChild], [moveUpChild] and [moveDownChild] called with it on any
    node answer [false]; in each case the whole store, hence the children
    list of the parent, is unchanged.  For a child of the root, [rename]
    writes the new string into both [name] and [expr] and nothing else. *)
Theorem only_root_children_are_mutated (s : Store) (l : loc) (n : LiveVariableNode) :
  heap s !! l = Some n ->
  parent_alive (heap s) l ->
  (~ root_child (heap s) l ->
     (forall nm, Node.rename l nm s = Some (tt, s)) /\
     (forall this, Node.removeChild this (Some l) s = Some (false, s)) /\
     (forall this, Node.moveUpChild this (Some l) s = Some (false, s)) /\
     (forall this, Node.moveDownChild this (Some l) s = Some (false, s)))
  /\
  (root_child (heap s) l ->
     forall nm, exists s',
       Node.rename l nm s = Some (tt, s') /\
       heap s' = <[l := set_name_expr nm n]> (heap s) /\
       idCounter s' = idCounter s /\
       (exists n', heap s' !! l = Some n' /\ name n' = nm /\ expr n' = nm)).
Proof.
  intros Hn Ha. split.
  - intros Hnot.
    destruct (isRootChild_other s l n Hn Ha Hnot) as (r & Hr & Ht).
    pose proof (notRootChild_other s l n Hn Ha Hnot) as Hg.
    repeat split; intros.
    + unfold Node.rename. rewrite (bind_run _ _ _ _ _ Hr), Ht. reflexivity.
    + unfold Node.removeChild. rewrite (bind_run _ _ _ _ _ Hg). reflexivity.
    + unfold Node.moveUpChild. rewrite (bind_run _ _ _ _ _ Hg). reflexivity.
    + unfold Node.moveDownChild. rewrite (bind_run _ _ _ _ _ Hg). reflexivity.
  - intros Hrc nm. unfold Node.rename.
    rewrite (bind_run _ _ _ _ _ (isRootChild_root_child _ _ Hrc)). simpl.
    rewrite (modify_run _ _ _ _ Hn). eexists. split; [reflexivity|]. simpl.
    repeat split. exists (set_name_expr nm n). split; [|split; reflexivity].
    apply list_lookup_insert_eq. eapply lookup_lt_Some; eauto.
Qed.

Lemma only_root_children_are_mutated_witness :
  (forall nm, Node.rename 4 nm Sample.store = Some (tt, Sample.store)) /\
  (forall this, Node.removeChild this (Some 4%nat) Sample.store
                = Some (false, Sample.store)) /\
  (forall nm, exists s', Node.rename 2 nm Sample.store = Some (tt, s') /\
     exists n', heap s' !! 2%nat = Some n' /\ name n' = nm /\ expr n' = nm).
Proof.
  assert (Hx : ~ root_child (heap Sample.store) 4).
  { intros (n & p & Hn & Hp & pn & Hpn & Hpp).
    vm_compute in Hn. injection Hn as <-. vm_compute in Hp. injection Hp as <-.
    vm_compute in Hpn. injection Hpn as <-. discriminate Hpp. }
  assert (Hax : parent_alive (heap Sample.store) 4).
  { intros n p Hn Hp. vm_compute in Hn. injection Hn as <-.
    vm_compute in Hp. injection Hp as <-. vm_compute. eauto. }
  assert (Hb : root_child (heap Sample.store) 2).
  { exists Sample.b, 0%nat. repeat split. exists Sample.root. split; reflexivity. }
  assert (Hab : parent_alive (heap Sample.store) 2).
  { intros n p Hn Hp. vm_compute in Hn. injection Hn as <-.
    vm_compute in Hp. injection Hp as <-. vm_compute. eauto. }
  destruct (only_root_children_are_mutated Sample.store 4 Sample.x eq_refl Hax)
    as [Hno _].
  destruct (only_root_children_are_mutated Sample.store 2 Sample.b eq_refl Hab)
    as [_ Hyes].
  destruct (Hno Hx) as (Hr & Hrm & _).
  repeat split; auto.
  intros nm. destruct (Hyes Hb nm) as (s' & H1 & _ & _ & H2). eauto.
Defined.

(** ** Writing the children array *)

Lemma modify_children s this n (g : list loc -> list loc) :
  heap s !! this = Some n ->
  modify this (fun n => set_children (Some (g (Node.getChildren n))) n) s
  = Some (tt, with_children s this n (g (Node.getChildren n))).
Proof. intros H. unfold modify. rewrite H. reflexivity. Qed.

Lemma with_children_lookup s this n cs :
  heap s !! this = Some n ->
  heap (with_children s this n cs) !! this = Some (set_children (Some cs) n).
Proof.
  intros H. simpl. apply list_lookup_insert_eq. eapply lookup_lt_Some; eauto.
Qed.

Lemma with_children_again s this n cs cs' :
  with_children (with_children s this n cs) this (set_children (Some cs) n) cs'
  = with_children s this n cs'.
Proof. unfold with_children. simpl. by rewrite list_insert_insert_eq. Qed.

Lemma getChildren_set cs n : Node.getChildren (set_children (Some cs) n) = cs.
Proof. reflexivity. Qed.

Lemma getChildren_Some n cs : children n = Some cs -> Node.getChildren n = cs.
Proof. unfold Node.getChildren. by intros ->. Qed.

(** Two writes to the children array in a row. *)
Lemma modify_children_twice {K} s this n (g1 g2 : list loc -> list loc) (k : K) :
  heap s !! this = Some n ->
  bind (modify this (fun n => set_children (Some (g1 (Node.getChildren n))) n))
       (fun _ => bind (modify this (fun n => set_children (Some (g2 (Node.getChildren n))) n))
                      (fun _ => ret k)) s
  = Some (k, with_children s this n (g2 (g1 (Node.getChildren n)))).
Proof.
  intros H.
  rewrite (bind_run _ _ _ _ _ (modify_children s this n g1 H)).
  rewrite (bind_run _ _ _ _ _
             (modify_children _ this _ g2 (with_children_lookup s this n _ H))).
  rewrite getChildren_set, with_children_again. reflexivity.
Qed.

(** ** The searches by name *)

Lemma other_names_cons h nm c cs :
  other_names h nm (c :: cs) ->
  (exists cn, h !! c = Some cn /\ name cn <> nm) /\ other_names h nm cs.
Proof.
  intros H. split.
  - apply H. left.
  - intros c' Hc'. apply H. by right.
Qed.

Lemma eqb_name_false (a b : string) : a <> b -> String.eqb a b = false.
Proof. intros. by apply String.eqb_neq. Qed.

Lemma moveUpChild_loop_skip this nm s todo rest ix :
  other_names (heap s) nm todo ->
  Node.moveUpChild_loop this (todo ++ rest) nm ix s
  = Node.moveUpChild_loop this rest nm (ix + length todo) s.
Proof.
  revert ix. induction todo as [|c todo IH]; intros ix H; simpl.
  - by rewrite Nat.add_0_r.
  - apply other_names_cons in H as [(cn & Hc & Hne) H].
    rewrite (bind_run _ _ _ _ _ (get_run _ _ _ Hc)), (eqb_name_false _ _ Hne).
    rewrite IH by done. f_equal. lia.
Qed.

Lemma moveDownChild_loop_skip this nm last s todo rest ix :
  other_names (heap s) nm todo ->
  Node.moveDownChild_loop this (todo ++ rest) nm last ix s
  = Node.moveDownChild_loop this rest nm last (ix + length todo) s.
Proof.
  revert ix. induction todo as [|c todo IH]; intros ix H; simpl.
  - by rewrite Nat.add_0_r.
  - apply other_names_cons in H as [(cn & Hc & Hne) H].
    rewrite (bind_run _ _ _ _ _ (get_run _ _ _ Hc)), (eqb_name_false _ _ Hne).
    rewrite IH by done. f_equal. lia.
Qed.

Lemma found_by_name_split h pre l post :
  found_by_name h (pre ++ l :: post) (length pre) l ->
  exists n, h !! l = Some n /\ other_names h (name n) pre.
Proof.
  intros (_ & n & Hn & Hbefore). exists n. split; [done|].
  intros c Hc. apply list_elem_of_lookup in Hc as [j Hj].
  apply (Hbefore j c).
  - eapply lookup_lt_Some; eauto.
  - rewrite lookup_app_l; [done|]. eapply lookup_lt_Some; eauto.
Qed.

Lemma childAt_run s this n i c :
  heap s !! this = Some n -> Node.getChildren n !! i = Some c ->
  Node.childAt this i s = Some (c, s).
Proof.
  intros H Hi. unfold Node.childAt.
  rewrite (bind_run _ _ _ _ _ (get_run _ _ _ H)), Hi. reflexivity.
Qed.

Lemma nameOf_run s l n : heap s !! l = Some n -> Node.nameOf (Some l) s = Some (name n, s).
Proof.
  intros H. unfold Node.nameOf.
  rewrite (bind_run _ _ _ _ _ (get_run _ _ _ H)). reflexivity.
Qed.

(** [moveUpChild] on the child a search by name finds. *)
Lemma moveUpChild_found s this nd pre post l :
  heap s !! this = Some nd ->
  children nd = Some (pre ++ l :: post) ->
  root_child (heap s) l ->
  found_by_name (heap s) (pre ++ l :: post) (length pre) l ->
  Node.moveUpChild this (Some l) s
  = Some (true, with_children s this nd
                  (match reverse pre with
                   | [] => post ++ [l]
                   | prev :: erp => reverse erp ++ l :: prev :: post
                   end)).
Proof.
  intros Hthis Hcs Hrc Hfound.
  destruct (found_by_name_split _ _ _ _ Hfound) as (n & Hl & Hpre).
  pose proof (getChildren_Some _ _ Hcs) as Hget.
  unfold Node.moveUpChild.
  rewrite (bind_run _ _ _ _ _ (notRootChild_root_child _ _ Hrc)).
  rewrite (bind_run _ _ _ _ _ (nameOf_run _ _ _ Hl)).
  rewrite (bind_run _ _ _ _ _ (get_run _ _ _ Hthis)), Hget.
  rewrite moveUpChild_loop_skip by done. simpl.
  rewrite (bind_run _ _ _ _ _ (get_run _ _ _ Hl)), String.eqb_refl.
  destruct (reverse pre) as [|prev erp] eqn:Hrev.
  - apply (f_equal reverse) in Hrev. rewrite reverse_involutive in Hrev.
    subst pre. simpl in *.
    rewrite bind_assoc.
    rewrite (bind_run (Node.childAt this 0) _ _ _ _
               (childAt_run s this nd 0 l Hthis ltac:(by rewrite Hget))).
    rewrite bind_assoc.
    rewrite (modify_children_twice s this nd tail (fun cs => cs ++ [l]) true Hthis).
    by rewrite Hget.
  - apply (f_equal reverse) in Hrev. rewrite reverse_involutive, reverse_cons in Hrev.
    subst pre. rewrite length_app. simpl.
    replace (length (reverse erp) + 1) with (S (length (reverse erp))) by lia.
    simpl. rewrite Nat.sub_0_r.
    assert (Hprev : Node.getChildren nd !! length (reverse erp) = Some prev).
    { rewrite Hget, <- app_assoc. simpl. by apply list_lookup_middle. }
    rewrite bind_assoc.
    rewrite (bind_run _ _ _ _ _ (childAt_run s this nd _ prev Hthis Hprev)).
    rewrite bind_assoc. unfold Node.setChildAt.
    rewrite (modify_children_twice s this nd
               (fun cs => <[S (length (reverse erp)) := prev]> cs)
               (fun cs => <[length (reverse erp) := l]> cs) true Hthis).
    rewrite Hget, <- app_assoc. simpl.
    replace (S (length (reverse erp))) with (length (reverse erp) + 1) by lia.
    rewrite insert_app_r. simpl.
    rewrite <- (Nat.add_0_r (length (reverse erp))) at 1.
    rewrite insert_app_r. reflexivity.
Qed.

(** [moveDownChild] on the child a search by name finds. *)
Lemma moveDownChild_found s this nd pre post l :
  heap s !! this = Some nd ->
  children nd = Some (pre ++ l :: post) ->
  root_child (heap s) l ->
  found_by_name (heap s) (pre ++ l :: post) (length pre) l ->
  Node.moveDownChild this (Some l) s
  = Some (true, with_children s this nd
                  (match post with
                   | [] => l :: pre
                   | next :: post' => pre ++ next :: l :: post'
                   end)).
Proof.
  intros Hthis Hcs Hrc Hfound.
  destruct (found_by_name_split _ _ _ _ Hfound) as (n & Hl & Hpre).
  pose proof (getChildren_Some _ _ Hcs) as Hget.
  unfold Node.moveDownChild.
  rewrite (bind_run _ _ _ _ _ (notRootChild_root_child _ _ Hrc)).
  rewrite (bind_run _ _ _ _ _ (nameOf_run _ _ _ Hl)).
  rewrite (bind_run _ _ _ _ _ (get_run _ _ _ Hthis)), Hget, Hcs.
  rewrite moveDownChild_loop_skip by done. simpl.
  rewrite (bind_run _ _ _ _ _ (get_run _ _ _ Hl)), String.eqb_refl.
  rewrite length_app.
  destruct post as [|next post'].
  - match goal with
    | |- context [Z.eqb ?a ?b] => destruct (Z.eqb_spec a b) as [_|Hne]
    end; [|simpl in Hne; lia].
    simpl negb. cbv iota.
    rewrite bind_assoc.
    rewrite (bind_run _ _ _ _ _ (get_run _ _ _ Hthis)), Hget.
    rewrite map_app. simpl map. rewrite last_last.
    rewrite bind_assoc.
    rewrite (modify_children_twice s this nd (@removelast loc) (cons l) true Hthis).
    by rewrite Hget, removelast_last.
  - match goal with
    | |- context [Z.eqb ?a ?b] => destruct (Z.eqb_spec a b) as [He|_]
    end; [simpl in He; lia|].
    simpl negb. cbv iota.
    assert (Hnext : Node.getChildren nd !! (length pre + 1) = Some next).
    { rewrite Hget. rewrite lookup_app_r by lia.
      by replace (length pre + 1 - length pre) with 1 by lia. }
    rewrite bind_assoc.
    rewrite (bind_run _ _ _ _ _ (childAt_run s this nd _ next Hthis Hnext)).
    rewrite bind_assoc. unfold Node.setChildAt.
    rewrite (modify_children_twice s this nd
               (fun cs => <[length pre := next]> cs)
               (fun cs => <[length pre + 1 := l]> cs) true Hthis).
    rewrite Hget.
    rewrite <- (Nat.add_0_r (length pre)) at 2.
    rewrite !insert_app_r. reflexivity.
Qed.

(** ** Reordering the children of a root *)

(** Let [l] be a child of the root that a search by name finds in the
    children of [this]: no child before it carries its name.  Then
    [moveUpChild] and [moveDownChild] answer [true], change nothing but
    the children array of [this], and leave a permutation of it:
    [moveUpChild] exchanges [l] with the child before it, or moves it to
    the end when it is the first; [moveDownChild] exchanges [l] with the
    child after it, or moves it to the front when it is the last. *)
Lemma reordering_rotates_the_found_child
        (s : Store) (this : loc) (nd : LiveVariableNode)
        (pre post : list loc) (l : loc) :
  heap s !! this = Some nd ->
  children nd = Some (pre ++ l :: post) ->
  root_child (heap s) l ->
  found_by_name (heap s) (pre ++ l :: post) (length pre) l ->
  (exists cs',
      Node.moveUpChild this (Some l) s = Some (true, with_children s this nd cs') /\
      cs' ≡ₚ pre ++ l :: post /\
      (pre = [] -> cs' = post ++ [l]) /\
      (forall pre' prev, pre = pre' ++ [prev] -> cs' = pre' ++ l :: prev :: post))
  /\
  (exists cs',
      Node.moveDownChild this (Some l) s = Some (true, with_children s this nd cs') /\
      cs' ≡ₚ pre ++ l :: post /\
      (post = [] -> cs' = l :: pre) /\
      (forall next post', post = next :: post' -> cs' = pre ++ next :: l :: post')).
Proof.
  intros Hthis Hcs Hrc Hfound. split.
  - eexists. split; [exact (moveUpChild_found s this nd pre post l Hthis Hcs Hrc Hfound)|].
    destruct (reverse pre) as [|prev erp] eqn:Hrev;
      apply (f_equal reverse) in Hrev; rewrite reverse_involutive in Hrev; subst pre.
    + simpl. repeat split.
      * by rewrite Permutation_app_comm.
      * intros pre' prev Hnil. by destruct pre'.
    + rewrite reverse_cons. repeat split.
      * rewrite <- app_assoc. simpl. apply Permutation_app_head, perm_swap.
      * intros Hnil. by destruct (reverse erp).
      * intros pre' prev' Heq. apply app_inj_tail in Heq as [-> ->]. reflexivity.
  - eexists. split; [exact (moveDownChild_found s this nd pre post l Hthis Hcs Hrc Hfound)|].
    destruct post as [|next post'].
    + repeat split.
      * by rewrite Permutation_app_comm.
      * intros ? ? [=].
    + repeat split.
      * apply Permutation_app_head, perm_swap.
      * intros [=].
      * by intros ? ? [= <- <-].
Qed.

(** The search by name shows only in a tree that no operation builds,
    one in which two children of the root carry the same name.  In the
    tree restored from [Duplicate.saved], a state written by hand, the
    last child of the root is the object 3; [moveDownChild] on it answers
    [true] but exchanges the first two children. *)
Remark reordering_moves_the_first_of_that_name :
  Node.getChildren <$> heap Duplicate.store !! 0%nat = Some [1; 2; 3]%nat /\
  root_child (heap Duplicate.store) 3 /\
  exists s',
    Node.moveDownChild 0 (Some 3%nat) Duplicate.store = Some (true, s') /\
    Node.getChildren <$> heap s' !! 0%nat = Some [2; 1; 3]%nat /\
    Node.getChildren <$> heap s' !! 0%nat <> Some [3; 1; 2]%nat.
Proof.
  split; [reflexivity|]. split.
  - eexists _, 0%nat. split; [reflexivity|]. split; [reflexivity|].
    eexists. split; reflexivity.
  - eexists. split; [vm_compute; reflexivity|]. split; [reflexivity|discriminate].
Qed.

(** ** C10: watch expressions are unique at the top level *)

Lemma addNewExpr_loop_run s cs es e :
  child_exprs (heap s) cs es ->
  Node.addNewExpr_loop cs e s = Some (bool_decide (e ∈ es), s).
Proof.
  induction 1 as [|c e' cs es (cn & Hc & He) _ IH]; simpl.
  - reflexivity.
  - rewrite (bind_run _ _ _ _ _ (get_run _ _ _ Hc)), He.
    destruct (String.eqb_spec e e') as [->|Hne].
    + rewrite bool_decide_eq_true_2 by apply list_elem_of_here. reflexivity.
    + rewrite IH. repeat f_equal. apply bool_decide_ext.
      rewrite elem_of_cons. intuition congruence.
Qed.

(** Writing the children of one object and allocating after it keeps the
    expression of every object there was. *)
Lemma child_exprs_frame h (this : loc) n v tl cs es :
  h !! this = Some n ->
  child_exprs h cs es ->
  child_exprs (<[this := set_children v n]> h ++ tl) cs es.
Proof.
  intros Hthis. induction 1 as [|c e cs es (cn & Hc & He) _ IH]; constructor; [|done].
  destruct (decide (c = this)) as [Heq|Hne].
  - rewrite Heq in *. exists (set_children v n). split.
    + rewrite lookup_app_l by (rewrite length_insert; eapply lookup_lt_Some; eauto).
      apply list_lookup_insert_eq. eapply lookup_lt_Some; eauto.
    + assert (cn = n) as -> by congruence. done.
  - exists cn. split; [|done].
    rewrite lookup_app_l by (rewrite length_insert; eapply lookup_lt_Some; eauto).
    by rewrite list_lookup_insert_ne.
Qed.

(** [addChild(e, e)]: one object is allocated and appended to the
    children of [this]. *)
Lemma addChild_run s this n e :
  heap s !! this = Some n ->
  Node.addChild this e e "" "" 0 s
  = Some (length (heap s),
          mkStore (<[this := set_children (Some (Node.getChildren n ++ [length (heap s)])) n]>
                     (heap s) ++ [added s this e])
                  (S (idCounter s))).
Proof.
  intros Hthis. unfold Node.addChild.
  assert (Hlt : this < length (heap s)) by (eapply lookup_lt_Some; eauto).
  assert (Hor : JS.or_else e e = e) by (unfold JS.or_else; by destruct (JS.nonempty e)).
  rewrite (bind_run _ _ _ _ _ (get_run _ _ _ Hthis)).
  destruct (children n) as [cs|] eqn:Hcs.
  - unfold bind at 1. unfold ret at 1.
    unfold bind at 1. unfold Node.new at 1. rewrite Hor.
    unfold bind, modify, ret. simpl.
    rewrite lookup_app_l by done. rewrite Hthis.
    rewrite insert_app_l by done.
    unfold Node.getChildren. rewrite Hcs. reflexivity.
  - rewrite (bind_run _ _ _ _ _ (modify_run _ _ _ _ Hthis)).
    unfold bind at 1. unfold Node.new at 1. rewrite Hor.
    unfold bind, modify, ret. simpl.
    rewrite lookup_app_l by (by rewrite length_insert).
    rewrite list_lookup_insert_eq by done.
    rewrite insert_app_l by (by rewrite length_insert).
    rewrite list_insert_insert_eq, length_insert.
    unfold Node.getChildren. rewrite Hcs. reflexivity.
Qed.

Lemma addNewExpr_fresh s root es e :
  watches s root es -> e ∉ es ->
  exists n,
    heap s !! root = Some n /\
    let s' := mkStore
                (<[root := set_children (Some (Node.getChildren n ++ [length (heap s)])) n]>
                   (heap s) ++ [added s root e])
                (S (idCounter s)) in
    Node.addNewExpr root e s = Some (true, s') /\ watches s' root (es ++ [e]).
Proof.
  intros (n & Hroot & Hparent & Hexprs) Hnotin. exists n. split; [done|].
  assert (Hlt : root < length (heap s)) by (eapply lookup_lt_Some; eauto).
  split.
  - unfold Node.addNewExpr.
    rewrite (bind_run _ _ _ _ _ (get_run _ _ _ Hroot)), Hparent.
    rewrite (bind_run _ _ _ _ _ (addNewExpr_loop_run _ _ _ e Hexprs)).
    rewrite bool_decide_eq_false_2 by done.
    rewrite (bind_run _ _ _ _ _ (addChild_run _ _ _ e Hroot)). reflexivity.
  - exists (set_children (Some (Node.getChildren n ++ [length (heap s)])) n).
    simpl. split; [|split; [done|]].
    + rewrite lookup_app_l by (by rewrite length_insert).
      by apply list_lookup_insert_eq.
    + rewrite getChildren_set. apply Forall2_app.
      * by apply child_exprs_frame.
      * constructor; [|constructor]. exists (added s root e). split; [|done].
        apply list_lookup_middle. by rewrite length_insert.
Qed.

Lemma addNewExpr_taken s root es e :
  watches s root es -> e ∈ es -> Node.addNewExpr root e s = Some (false, s).
Proof.
  intros (n & Hroot & Hparent & Hexprs) Hin. unfold Node.addNewExpr.
  rewrite (bind_run _ _ _ _ _ (get_run _ _ _ Hroot)), Hparent.
  rewrite (bind_run _ _ _ _ _ (addNewExpr_loop_run _ _ _ e Hexprs)).
  by rewrite bool_decide_eq_true_2.
Qed.

Lemma addNewExprs_distinct s root es calls :
  watches s root es -> NoDup es ->
  exists answers s' es',
    addNewExprs root calls s = Some (answers, s') /\
    watches s' root es' /\ NoDup es'.
Proof.
  revert s es. induction calls as [|e calls IH]; intros s es Hw Hnd.
  - exists [], s, es. by repeat split.
  - unfold addNewExprs. simpl.
    destruct (decide (e ∈ es)) as [Hin|Hnotin].
    + rewrite (bind_run _ _ _ _ _ (addNewExpr_taken _ _ _ _ Hw Hin)).
      destruct (IH s es Hw Hnd) as (answers & s' & es' & Hrun & Hw' & Hnd').
      unfold addNewExprs in Hrun.
      rewrite (bind_run _ _ _ _ _ Hrun). by exists (false :: answers), s', es'.
    + destruct (addNewExpr_fresh _ _ _ _ Hw Hnotin) as (n & _ & Hrun1 & Hw1).
      rewrite (bind_run _ _ _ _ _ Hrun1).
      assert (Hnd1 : NoDup (es ++ [e])).
      { apply NoDup_app. repeat split; [done| |apply NoDup_singleton].
        intros x Hx ->%list_elem_of_singleton. done. }
      destruct (IH _ _ Hw1 Hnd1) as (answers & s' & es' & Hrun & Hw' & Hnd').
      unfold addNewExprs in Hrun.
      rewrite (bind_run _ _ _ _ _ Hrun). by exists (true :: answers), s', es'.
Qed.

(** C10.  [addNewExpr] answers [false] and changes nothing on a node that
    has a parent, and on a root one of whose children already has the
    given expression.  On a root none of whose children has it, it answers
    [true], allocates one node whose [name] and [expr] are the given
    string and appends it to the children.  Hence, from a root whose
    children have pairwise distinct expressions, and so from a newly
    constructed root, any sequence of calls leaves pairwise distinct
    expressions. *)
Theorem watch_expressions_are_unique (s : Store) (this : loc) (n : LiveVariableNode)
        (es : list string) (e : string) :
  heap s !! this = Some n ->
  child_exprs (heap s) (Node.getChildren n) es ->
  (parent n <> None -> Node.addNewExpr this e s = Some (false, s))
  /\ (parent n = None -> e ∈ es -> Node.addNewExpr this e s = Some (false, s))
  /\ (parent n = None -> e ∉ es ->
      let s' := mkStore
                  (<[this := set_children (Some (Node.getChildren n ++ [length (heap s)])) n]>
                     (heap s) ++ [added s this e])
                  (S (idCounter s)) in
      Node.addNewExpr this e s = Some (true, s') /\
      name (added s this e) = e /\ expr (added s this e) = e /\
      watches s' this (es ++ [e]))
  /\ (parent n = None -> NoDup es ->
      forall calls, exists answers s' es',
        addNewExprs this calls s = Some (answers, s') /\
        watches s' this es' /\ NoDup es')
  /\ (forall calls, exists answers s' es',
        (let* root := Node.new None "" "" "" "" 0 in addNewExprs root calls) s
        = Some (answers, s') /\
        watches s' (length (heap s)) es' /\ NoDup es').
Proof.
  intros Hthis Hexprs.
  assert (Hnew : forall calls, exists answers s' es',
            (let* root := Node.new None "" "" "" "" 0 in addNewExprs root calls) s
            = Some (answers, s') /\
            watches s' (length (heap s)) es' /\ NoDup es').
  { intros calls.
    assert (Hroot : Node.new None "" "" "" "" 0 s
                    = Some (length (heap s),
                            mkStore (heap s ++ [mkNode None None (Some "") (Some false)
                                                  (Some ("node_" +:+ JS.decimal (idCounter s)))
                                                  None "" "" "" "" 0])
                                    (S (idCounter s)))) by reflexivity.
    rewrite (bind_run _ _ _ _ _ Hroot).
    apply (addNewExprs_distinct _ _ []); [|apply NoDup_nil_2].
    eexists. split; [by apply list_lookup_middle|]. split; [done|constructor]. }
  split; [|split; [|split; [|split; [|exact Hnew]]]].
  - intros Hp. unfold Node.addNewExpr.
    rewrite (bind_run _ _ _ _ _ (get_run _ _ _ Hthis)).
    by destruct (parent n).
  - intros Hp Hin. apply (addNewExpr_taken s this es e); [|done]. by exists n.
  - intros Hp Hnotin.
    destruct (addNewExpr_fresh s this es e) as (n' & Hn' & Hrun & Hw); [by exists n|done|].
    assert (n' = n) as -> by congruence. by repeat split.
  - intros Hp Hnd calls. apply (addNewExprs_distinct s this es calls); [by exists n|done].
Qed.

Lemma watch_expressions_are_unique_witness :
  Node.addNewExpr 0 "b" Sample.store = Some (false, Sample.store) /\
  (exists s', Node.addNewExpr 0 "d" Sample.store = Some (true, s') /\
              watches s' 0 ["a"; "b"; "c"; "d"]) /\
  forall calls, exists answers s' es',
    addNewExprs 0 calls Sample.store = Some (answers, s') /\
    watches s' 0 es' /\ NoDup es'.
Proof.
  assert (Hexprs : child_exprs (heap Sample.store) (Node.getChildren Sample.root)
                               ["a"; "b"; "c"]).
  { repeat constructor; eexists; (split; [reflexivity|reflexivity]). }
  assert (Hnd : NoDup ["a"; "b"; "c"]).
  { apply NoDup_ListNoDup. repeat constructor; simpl; intuition discriminate. }
  destruct (watch_expressions_are_unique Sample.store 0 Sample.root
              ["a"; "b"; "c"] "b" eq_refl Hexprs) as (_ & Htaken & _ & Hseq & _).
  destruct (watch_expressions_are_unique Sample.store 0 Sample.root
              ["a"; "b"; "c"] "d" eq_refl Hexprs) as (_ & _ & Hfresh & _).
  split; [|split].
  - apply Htaken; [reflexivity|]. apply list_elem_of_In. simpl. auto.
  - destruct Hfresh as (Hrun & _ & _ & Hw); [reflexivity| |eauto].
    intros Hin%list_elem_of_In. simpl in Hin. intuition discriminate.
  - exact (Hseq eq_refl Hnd).
Defined.

(** ** C6: children are fetched lazily *)

Lemma saveStates_run s cs m :
  Forall (fun c => is_Some (heap s !! c)) cs ->
  exists m', Node.saveStates cs m s = Some (m', s).
Proof.
  intros H. revert m. induction H as [|c cs [cn Hc] _ IH]; intros m; simpl.
  - by exists m.
  - rewrite (bind_run _ _ _ _ _ (get_run _ _ _ Hc)). apply IH.
Qed.

(** C6, as the code has it.  [refreshChildren] issues the request
    [liveVariables], for the node's [variablesReference], exactly when a
    session is given, it is the session the node recorded, the node is
    expanded and its [variablesReference] is positive; otherwise it
    resolves at once.  Neither case changes the store.  When the request is
    answered without variables (no result, no [variables], or an empty
    list) the children become [undefined] and nothing else changes; when
    the request is rejected the store, and so the children list, is left
    as it was. *)
Theorem children_are_fetched_lazily
        (s : Store) (this : loc) (n : LiveVariableNode) (given : option SessionRef) :
  heap s !! this = Some n ->
  Forall (fun c => is_Some (heap s !! c)) (Node.getChildren n) ->
  (request_wanted n given ->
     exists oldStateMap,
       Node.refreshChildren this given s
       = Some (Node.LiveVariables (variablesReference n) oldStateMap, s))
  /\ (~ request_wanted n given ->
        Node.refreshChildren this given s = Some (Node.Resolved, s))
  /\ (forall oldStateMap result,
        result = None \/ result = Some None \/ result = Some (Some []) ->
        Node.refreshChildren_fulfilled this given oldStateMap result s
        = Some ([], mkStore (<[this := set_children None n]> (heap s)) (idCounter s)))
  /\ Node.refreshChildren_rejected this s = Some (tt, s).
Proof.
  intros Hthis Halive. repeat split.
  - intros (Hgiven & Hsession & Hexp & Hpos). unfold Node.refreshChildren.
    rewrite (bind_run _ _ _ _ _ (get_run _ _ _ Hthis)).
    rewrite (bool_decide_eq_true_2 _ Hgiven), (bool_decide_eq_true_2 _ Hsession).
    rewrite Hexp. simpl. rewrite (proj2 (Z.ltb_lt _ _) Hpos).
    destruct (saveStates_run s _ SaveVarStateMap.empty Halive) as [m Hm].
    exists m. by rewrite (bind_run _ _ _ _ _ Hm).
  - intros Hnot. unfold Node.refreshChildren.
    rewrite (bind_run _ _ _ _ _ (get_run _ _ _ Hthis)).
    destruct (bool_decide (is_Some given)) eqn:Hg; [|reflexivity].
    destruct (bool_decide (session n = given)) eqn:Hs; [|reflexivity].
    simpl.
    destruct (JS.truthy (expanded n)) eqn:He; [|reflexivity].
    destruct (0 <? variablesReference n)%Z eqn:Hv; [|reflexivity].
    exfalso. apply Hnot. repeat split.
    + by apply bool_decide_eq_true in Hg.
    + by apply bool_decide_eq_true in Hs.
    + by destruct (expanded n) as [[]|].
    + by apply Z.ltb_lt.
  - intros oldStateMap result Hresult.
    assert (Hlookup : heap (mkStore (<[this := set_children None n]> (heap s))
                                    (idCounter s)) !! this
                      = Some (set_children None n)).
    { simpl. apply list_lookup_insert_eq. eapply lookup_lt_Some; eauto. }
    unfold Node.refreshChildren_fulfilled.
    destruct Hresult as [->|[->| ->]];
      rewrite (bind_run _ _ _ _ _ (modify_run _ _ _ _ Hthis));
      rewrite (bind_run _ _ _ _ _ (get_run _ _ _ Hlookup)); reflexivity.
Qed.

Lemma children_are_fetched_lazily_witness :
  (exists oldStateMap,
      Node.refreshChildren 1 (Some 7%nat) Sample.store
      = Some (Node.LiveVariables 5 oldStateMap, Sample.store))
  /\ Node.refreshChildren 1 (Some 8%nat) Sample.store = Some (Node.Resolved, Sample.store)
  /\ Node.refreshChildren_fulfilled 1 (Some 7%nat) SaveVarStateMap.empty (Some (Some []))
                                    Sample.store
     = Some ([], mkStore (<[1%nat := set_children None Sample.a]> (heap Sample.store))
                         (idCounter Sample.store)).
Proof.
  assert (Halive : Forall (fun c => is_Some (heap Sample.store !! c))
                          (Node.getChildren Sample.a)).
  { repeat constructor. by eexists. }
  destruct (children_are_fetched_lazily Sample.store 1 Sample.a (Some 7%nat)
              eq_refl Halive) as (Hyes & _ & Hempty & _).
  destruct (children_are_fetched_lazily Sample.store 1 Sample.a (Some 8%nat)
              eq_refl Halive) as (_ & Hno & _ & _).
  split; [|split].
  - apply Hyes. repeat split; try reflexivity. by eexists.
  - apply Hno. intros (_ & Hs & _). discriminate Hs.
  - apply Hempty. auto.
Defined.

(** C6 as stated fails for a rejected request: the node [a] of the sample
    tree has the child 4; its request is issued and rejected, and the
    children are still [[4]], not [undefined]. *)
Lemma rejected_request_keeps_the_children :
  (exists oldStateMap,
      Node.refreshChildren 1 (Some 7%nat) Sample.store
      = Some (Node.LiveVariables 5 oldStateMap, Sample.store))
  /\ exists s',
      Node.refreshChildren_rejected 1 Sample.store = Some (tt, s') /\
      children <$> heap s' !! 1%nat = Some (Some [4%nat]) /\
      children <$> heap s' !! 1%nat <> Some None.
Proof.
  split.
  - eexists. vm_compute. reflexivity.
  - exists Sample.store. split; [reflexivity|]. split; [reflexivity|discriminate].
Qed.

(** ** C8: applying a value format *)






(** ** C7: the polling period is bounded *)

Lemma clamped_samples (x : Q) :
  (1 <= Qmax 1 (Qmin 20 x))%Q /\ (Qmax 1 (Qmin 20 x) <= 20)%Q.
Proof.
  split.
  - apply Q.le_max_l.
  - apply Q.max_lub; [discriminate|apply Q.le_min_l].
Qed.

Lemma period_of_clamped (c : Q) :
  (1 <= c)%Q -> (c <= 20)%Q -> (50 <= 1000 / c)%Q /\ (1000 / c <= 1000)%Q.
Proof.
  intros H1 H20.
  assert (Hpos : (0 < c)%Q) by (eapply Qlt_le_trans; [|exact H1]; reflexivity).
  split.
  - apply Qle_shift_div_l; [done|]. lra.
  - apply Qle_shift_div_r; [done|]. lra.
Qed.




(** ** C3: the structural diff of the webview *)

(** Induction on a webview tree: the property holds of a node when it
    holds of its children. *)
Lemma VariableNode_children_ind (P : VariableNode.t -> Prop) :
  (forall node, Forall P (View.childrenOf node) -> P node) ->
  forall node, P node.
Proof.
  intros step.
  fix IH 1. intros [i nm e v ty hc ex ch ir cs d]. apply step.
  destruct cs as [cs|]; [|constructor]. simpl.
  induction cs as [|c cs IHcs]; constructor; [apply IH|exact IHcs].
Qed.

(** The body of the loop, as the source has it: the test on the key
    properties, then [compareNodes] on the children. *)
Lemma compareNode_unfold oldNode newNode :
  View.compareNode oldNode newNode
  = View.keyDiffers oldNode newNode
    || View.compareNodes (View.childrenOf oldNode) (View.childrenOf newNode).
Proof.
  destruct oldNode as [i nm e v ty hc ex ch ir [cs|] d]; simpl.
  - reflexivity.
  - unfold View.compareNodes. simpl. by rewrite orb_false_r.
Qed.

Lemma keyDiffers_false oldNode newNode :
  View.keyDiffers oldNode newNode = false <->
  VariableNode.id oldNode = VariableNode.id newNode /\
  VariableNode.name oldNode = VariableNode.name newNode /\
  VariableNode.expr oldNode = VariableNode.expr newNode /\
  VariableNode.hasChildren oldNode = VariableNode.hasChildren newNode /\
  VariableNode.expanded oldNode = VariableNode.expanded newNode /\
  VariableNode.depth oldNode = VariableNode.depth newNode.
Proof.
  unfold View.keyDiffers.
  rewrite !orb_false_iff, !negb_false_iff, !String.eqb_eq, !Bool.eqb_true_iff, Z.eqb_eq.
  tauto.
Qed.

Lemma compareNodes_false (P : VariableNode.t -> VariableNode.t -> Prop) oldNodes :
  Forall (fun o => forall n, View.compareNode o n = false <-> P o n) oldNodes ->
  forall newNodes,
    View.compareNodes oldNodes newNodes = false <-> Forall2 P oldNodes newNodes.
Proof.
  unfold View.compareNodes.
  induction 1 as [|o os Ho _ IH]; intros [|n ns]; simpl.
  - split; [constructor|reflexivity].
  - split; [discriminate|inversion 1].
  - split; [discriminate|inversion 1].
  - specialize (IH ns). rewrite orb_false_iff, negb_false_iff, Nat.eqb_eq in IH.
    rewrite !orb_false_iff, negb_false_iff, Nat.eqb_eq, Ho. split.
    + intros (Hlen & Hc & Hrest). constructor; [done|].
      apply IH. split; [lia|done].
    + inversion 1 as [|? ? ? ? Hp Hps]; subst. apply IH in Hps as [Hlen Hrest].
      repeat split; [lia|done|done].
Qed.

Lemma compareNode_false oldNode :
  forall newNode,
    View.compareNode oldNode newNode = false <-> same_structure oldNode newNode.
Proof.
  induction oldNode as [oldNode IH] using VariableNode_children_ind. intros newNode.
  rewrite compareNode_unfold, orb_false_iff, keyDiffers_false.
  rewrite (compareNodes_false same_structure _ IH). split.
  - intros ((? & ? & ? & ? & ? & ?) & ?). by constructor.
  - inversion 1; subst. tauto.
Qed.

Lemma isStructureChanged_false oldVars newVars :
  View.isStructureChanged oldVars newVars = false <->
  Forall2 same_structure oldVars newVars.
Proof.
  unfold View.isStructureChanged.
  rewrite <- (compareNodes_false same_structure oldVars).
  - unfold View.compareNodes.
    destruct (negb (length oldVars =? length newVars)%nat); simpl; [|reflexivity].
    split; discriminate.
  - apply Forall_forall. intros o _. apply compareNode_false.
Qed.

(** C3.  [isStructureChanged] answers [false] exactly when the two lists
    of trees have the same structure; [value], [type], [changed] and
    [isRoot] play no part in it.  An [update] message that arrives while
    nothing is being edited is stored and then causes a full render when
    the structure differs from the trees held before, and an update of the
    values when it does not. *)
Theorem structural_diff_is_exact (v : View.t) (message : View.LiveWatchMessage)
        (oldVars newVars : list VariableNode.t) :
  (View.isStructureChanged oldVars newVars = false
   <-> Forall2 same_structure oldVars newVars)
  /\
  (View.type message = View.update -> View.notEditing v = true ->
   let received := default [] (View.msg_variables message) in
   let session := default false (View.msg_hasSession message) in
   let outcome := View.handleMessage v message in
   View.variables (fst outcome) = received /\
   (Forall2 same_structure (View.variables v) received ->
    snd outcome = [View.SetState received session; View.UpdateVariableValues received])
   /\
   (~ Forall2 same_structure (View.variables v) received ->
    snd outcome = [View.SetState received session; View.Render])).
Proof.
  split; [apply isStructureChanged_false|].
  intros Htype Hedit. cbv zeta. unfold View.handleMessage. rewrite Htype. simpl.
  unfold View.notEditing in *. simpl. rewrite Hedit.
  split; [reflexivity|]. split.
  - intros Hsame. apply isStructureChanged_false in Hsame. by rewrite Hsame.
  - intros Hdiff.
    destruct (View.isStructureChanged _ _) eqn:Hchanged; [reflexivity|].
    by apply isStructureChanged_false in Hchanged.
Qed.

Lemma structural_diff_is_exact_witness :
  View.isStructureChanged Trees.first Trees.second = false
  /\ snd (View.handleMessage (View.mk Trees.first true None)
            (View.mkMessage View.update (Some Trees.second) None (Some true)))
     = [View.SetState Trees.second true; View.UpdateVariableValues Trees.second]
  /\ snd (View.handleMessage (View.mk Trees.first true None)
            (View.mkMessage View.update (Some Trees.third) None (Some true)))
     = [View.SetState Trees.third true; View.Render].
Proof.
  assert (Hsame : Forall2 same_structure Trees.first Trees.second).
  { repeat (constructor; try reflexivity). }
  destruct (structural_diff_is_exact (View.mk Trees.first true None)
              (View.mkMessage View.update (Some Trees.second) None (Some true))
              Trees.first Trees.second) as [Hiff Hupdate].
  destruct (structural_diff_is_exact (View.mk Trees.first true None)
              (View.mkMessage View.update (Some Trees.third) None (Some true))
              Trees.first Trees.third) as [Hiff' Hupdate'].
  split; [|split].
  - by apply Hiff.
  - destruct (Hupdate eq_refl eq_refl) as (_ & Hpatch & _). by apply Hpatch.
  - destruct (Hupdate' eq_refl eq_refl) as (_ & _ & Hrender). apply Hrender.
    intros Hno%Hiff'. discriminate Hno.
Defined.

(** ** C5: change highlighting *)

Lemma set_prevValue_same n : set_prevValue (prevValue n) n = n.
Proof. by destruct n. Qed.


Lemma up_to_prevValue_trans h1 h2 h3 :
  up_to_prevValue h1 h2 -> up_to_prevValue h2 h3 -> up_to_prevValue h1 h3.
Proof.
  intros [Hlen12 H12] [Hlen23 H23]. split; [congruence|].
  intros l n Hn. destruct (H12 l n Hn) as [v Hv].
  destruct (H23 l _ Hv) as [v' Hv']. by exists v'.
Qed.


Lemma tree_within_up_to_prevValue fuel h h' l :
  up_to_prevValue h h' -> tree_within fuel h l -> tree_within fuel h' l.
Proof.
  intros [Hlen Hsame]. revert l.
  induction fuel as [|fuel IH]; intros l; simpl; [done|].
  intros (n & Hn & Hparent & Hkids). destruct (Hsame l n Hn) as [v Hv].
  exists (set_prevValue v n). split; [done|]. split.
  - intros p Hp. apply lookup_lt_is_Some. rewrite <- Hlen.
    apply lookup_lt_is_Some. by apply Hparent.
  - eapply Forall_impl; [exact Hkids|]. intros c. apply IH.
Qed.


Section Projection.

Variable getPathRelative : string -> string -> string.



End Projection.

(** ** C4: the persistent part of the tree round-trips *)

(** Induction on a saved state: the property holds of a state when it
    holds of its children. *)
Lemma NodeState_children_ind (P : NodeState.t -> Prop) :
  (forall state, Forall P (NodeState.children state) -> P state) ->
  forall state, P state.
Proof.
  intros step.
  fix IH 1. intros [nm e ex cs]. apply step. simpl.
  induction cs as [|c cs IHcs]; constructor; [apply IH|exact IHcs].
Qed.

Lemma Forall2_with_Forall {A B} (P Q : A -> B -> Prop) (R : B -> Prop) l k :
  Forall R k -> Forall2 P l k ->
  (forall x y, R y -> P x y -> Q x y) -> Forall2 Q l k.
Proof.
  intros HR HP Himp. induction HP as [|x y l k Hxy _ IH]; constructor.
  - apply Himp; [|done]. by apply Forall_cons in HR as [? _].
  - apply IH. by apply Forall_cons in HR as [_ ?].
Qed.

Lemma restored_frame h h' lo lo' state :
  forall l,
    restored h lo l state ->
    lo' <= lo ->
    (forall k x, lo <= k -> h !! k = Some x -> h' !! k = Some x) ->
    restored h' lo' l state.
Proof.
  induction state as [state IH] using NodeState_children_ind.
  intros l Hres Hlo Hframe.
  inversion Hres as [? n ? Hle Hl Hname Hexpr Hexp Hpar Hval Hty Hvr Hkids]; subst.
  econstructor; eauto; [lia|].
  eapply Forall2_with_Forall; [exact IH|exact Hkids|].
  intros c cst Hc Hrc. by apply Hc.
Qed.

Lemma mapM_run {A B} (f : A -> M B) s (l : list A) (k : list B) :
  Forall2 (fun a b => f a s = Some (b, s)) l k ->
  Node.mapM f l s = Some (k, s).
Proof.
  induction 1 as [|a b l k Hab _ IH]; simpl; [done|].
  by rewrite (bind_run _ _ _ _ _ Hab), (bind_run _ _ _ _ _ IH).
Qed.

Lemma height_children state child :
  child ∈ NodeState.children state -> height child < height state.
Proof.
  destruct state as [nm e ex cs]. simpl.
  induction cs as [|c cs IH]; intros Hin; [by apply elem_of_nil in Hin|].
  apply elem_of_cons in Hin as [->|Hin]; [lia|].
  specialize (IH Hin). lia.
Qed.

(** A restored node serializes to the state it was restored from. *)
Lemma restored_serialize s lo state :
  forall l fuel,
    restored (heap s) lo l state ->
    height state <= fuel ->
    Node.pvtSerialize fuel l s = Some (state, s).
Proof.
  induction state as [state IH] using NodeState_children_ind.
  intros l fuel Hres Hfuel.
  inversion Hres as [? n ? Hle Hl Hname Hexpr Hexp [p Hpar] Hval Hty Hvr Hkids]; subst.
  destruct fuel as [|fuel]; [destruct state; simpl in Hfuel; lia|].
  simpl. rewrite (bind_run _ _ _ _ _ (get_run _ _ _ Hl)).
  assert (Hitems : Node.mapM (Node.pvtSerialize fuel) (Node.getChildren n) s
                   = Some (NodeState.children state, s)).
  { apply mapM_run.
    assert (Hsmall : Forall (fun cst => height cst <= fuel) (NodeState.children state)).
    { apply Forall_forall. intros cst Hin%height_children. lia. }
    eapply Forall2_with_Forall;
      [exact (proj2 (Forall_and _ _) (conj IH Hsmall))|exact Hkids|].
    intros c cst [Hc Hh] Hrc. by apply Hc. }
  rewrite (bind_run _ _ _ _ _ Hitems).
  rewrite Hname, Hexpr, Hexp, Hpar. simpl. rewrite orb_false_r.
  clear. by destruct state as [? ? [] ?].
Qed.

Lemma deSerialize_unfold state this :
  Node.deSerialize state this = deSerialize_loop this (NodeState.children state).
Proof. by destruct state. Qed.

Lemma set_children_same n : set_children (children n) n = n.
Proof. by destruct n. Qed.

Lemma deSerialize_loop_builds rest :
  Forall (fun child => builds (Node.deSerialize child) (NodeState.children child)) rest ->
  builds (fun this => deSerialize_loop this rest) rest.
Proof.
  induction 1 as [|child rest' Hchild _ IH]; intros s this n Hn.
  { exists s, []. simpl. repeat split; try done. by rewrite set_children_same. }
  assert (Hlt : this < length (heap s)) by (eapply lookup_lt_Some; eauto).
  set (item := length (heap s)).
  set (n_a := set_children (Some (Node.getChildren n)) n).
  set (ni := mkNode None None (Some "") (Some false)
                    (Some ("node_" +:+ JS.decimal (idCounter s)))
                    (Some this) (NodeState.name child) (NodeState.expr child) "" "" 0).
  set (ni' := set_expanded (Some (NodeState.expanded child)) ni).
  set (n_d := set_children (Some (Node.getChildren n ++ [item])) n).
  set (s_a := mkStore (<[this := n_a]> (heap s)) (idCounter s)).
  set (s_b := mkStore (heap s_a ++ [ni]) (S (idCounter s))).
  set (s_c := mkStore (heap s_a ++ [ni']) (S (idCounter s))).
  set (s_d := mkStore (<[this := n_d]> (heap s) ++ [ni']) (S (idCounter s))).
  (* the array of children is there *)
  assert (Hstep1 : (match children n with
                    | None => modify this (set_children (Some []))
                    | Some _ => ret tt
                    end) s = Some (tt, s_a)).
  { subst s_a n_a. unfold Node.getChildren. destruct (children n) as [cs|] eqn:Hcs.
    - unfold ret. do 2 f_equal. destruct s as [h c]. simpl in *. f_equal.
      symmetry. apply list_insert_id. rewrite Hn. f_equal.
      rewrite <- Hcs. by rewrite set_children_same.
    - by rewrite (modify_run _ _ _ _ Hn). }
  (* the item is constructed *)
  assert (Hstep2 : Node.new (Some this) (NodeState.name child) (NodeState.expr child)
                            "" "" 0 s_a = Some (item, s_b)).
  { unfold Node.new. subst s_a s_b item. simpl. by rewrite length_insert. }
  (* item.expanded = child.expanded *)
  assert (Hstep3 : modify item (set_expanded (Some (NodeState.expanded child))) s_b
                   = Some (tt, s_c)).
  { unfold modify. subst s_b s_c. simpl.
    rewrite list_lookup_middle by (subst s_a item; simpl; by rewrite length_insert).
    do 3 f_equal.
    replace item with (length (heap s_a) + 0)
      by (subst s_a item; simpl; rewrite length_insert; lia).
    by rewrite insert_app_r. }
  (* this.children.push(item) *)
  assert (Hstep4 : modify this
                     (fun n => set_children (Some (Node.getChildren n ++ [item])) n) s_c
                   = Some (tt, s_d)).
  { unfold modify. subst s_c s_d s_a. simpl.
    rewrite lookup_app_l by (by rewrite length_insert).
    rewrite list_lookup_insert_eq by done.
    rewrite insert_app_l by (by rewrite length_insert).
    by rewrite list_insert_insert_eq. }
  (* item.deSerialize(child) *)
  assert (Hitem : heap s_d !! item = Some ni').
  { subst s_d item. simpl. apply list_lookup_middle. by rewrite length_insert. }
  destruct (Hchild s_d item ni' Hitem)
    as (s_e & cs_i & Hrun_e & Hlen_e & Hframe_e & Hitem_e & Hkids_e).
  assert (Hlen_d : length (heap s_d) = S (length (heap s))).
  { subst s_d. simpl. rewrite length_app, length_insert. simpl. lia. }
  assert (Hthis_d : heap s_d !! this = Some n_d).
  { subst s_d. simpl. rewrite lookup_app_l by (by rewrite length_insert).
    by apply list_lookup_insert_eq. }
  assert (Hthis_e : heap s_e !! this = Some n_d).
  { apply Hframe_e; [subst item; lia|done]. }
  (* the rest of the loop *)
  destruct (IH s_e this n_d Hthis_e)
    as (s_f & cs & Hrun_f & Hlen_f & Hframe_f & Hthis_f & Hkids_f).
  exists s_f, (item :: cs). split; [|split; [|split; [|split]]].
  - simpl. rewrite (bind_run _ _ _ _ _ (get_run _ _ _ Hn)).
    rewrite (bind_run _ _ _ _ _ Hstep1), (bind_run _ _ _ _ _ Hstep2).
    rewrite (bind_run _ _ _ _ _ Hstep3), (bind_run _ _ _ _ _ Hstep4).
    by rewrite (bind_run _ _ _ _ _ Hrun_e).
  - lia.
  - intros k x Hk Hx. apply Hframe_f; [done|].
    assert (Hklt : k < length (heap s)) by (eapply lookup_lt_Some; eauto).
    apply Hframe_e; [subst item; lia|].
    subst s_d. simpl. rewrite lookup_app_l by (by rewrite length_insert).
    by rewrite list_lookup_insert_ne.
  - rewrite Hthis_f. f_equal. subst n_d. destruct rest' as [|? ?].
    + inversion Hkids_f; subst. reflexivity.
    + rewrite getChildren_set, <- app_assoc. reflexivity.
  - constructor.
    + assert (Hitem_f : heap s_f !! item
                        = Some (set_children
                                  (match NodeState.children child with
                                   | [] => children ni'
                                   | _ => Some (Node.getChildren ni' ++ cs_i)
                                   end) ni')).
      { apply Hframe_f; [subst item; lia|done]. }
      econstructor; [reflexivity|exact Hitem_f|reflexivity|reflexivity|reflexivity
                     |by eexists|reflexivity|reflexivity|reflexivity|].
      assert (Hcs : Node.getChildren
                      (set_children
                         (match NodeState.children child with
                          | [] => children ni'
                          | _ => Some (Node.getChildren ni' ++ cs_i)
                          end) ni') = cs_i).
      { destruct (NodeState.children child); [by inversion Hkids_e|reflexivity]. }
      rewrite Hcs.
      eapply Forall2_impl; [exact Hkids_e|].
      intros c cst Hc. eapply restored_frame; [exact Hc|lia|].
      intros k x Hk Hx. apply Hframe_f; [lia|done].
    + eapply Forall2_impl; [exact Hkids_f|].
      intros c cst Hc. eapply restored_frame; [exact Hc|lia|done].
Qed.

Lemma deSerialize_builds state :
  builds (Node.deSerialize state) (NodeState.children state).
Proof.
  induction state as [state IH] using NodeState_children_ind.
  intros s this n Hn. rewrite deSerialize_unfold.
  by apply (deSerialize_loop_builds _ IH).
Qed.

(** Serializing a tree ends, changes nothing, and records the tree. *)
Lemma pvtSerialize_run fuel :
  forall s l,
    tree_within fuel (heap s) l ->
    exists state,
      Node.pvtSerialize fuel l s = Some (state, s) /\ recorded (heap s) l state.
Proof.
  induction fuel as [|fuel IH]; intros s l; simpl; [done|].
  intros (n & Hn & _ & Hkids).
  rewrite (bind_run _ _ _ _ _ (get_run _ _ _ Hn)).
  assert (Hitems : exists items,
            Node.mapM (Node.pvtSerialize fuel) (Node.getChildren n) s = Some (items, s)
            /\ Forall2 (recorded (heap s)) (Node.getChildren n) items).
  { induction Hkids as [|c cs Hc _ IHcs]; simpl; [by eexists|].
    destruct (IH s c Hc) as (cst & Hcst & Hrec).
    destruct IHcs as (items & Hitems & Hrecs).
    rewrite (bind_run _ _ _ _ _ Hcst), (bind_run _ _ _ _ _ Hitems).
    eexists. split; [reflexivity|]. by constructor. }
  destruct Hitems as (items & Hitems & Hrecs). rewrite (bind_run _ _ _ _ _ Hitems).
  eexists. split; [reflexivity|]. by econstructor.
Qed.

(** C4.  Serializing a watch tree ends; the saved state records the tree
    node by node and in order, with the root as expanded.  Restoring the
    saved state, in any store, on a new root with empty name and expression
    gives a tree that is restored from the saved children node by node, in
    order (same names and expressions, the saved expansion flags, no
    values, types or variable references), and that serializes to the
    saved state again, the name and expression of the root being the empty
    ones of the new root; the objects there were are untouched. *)
Theorem persistent_part_round_trips (fuel : nat) (s : Store) (root : loc)
        (n : LiveVariableNode) (s0 : Store) :
  heap s !! root = Some n ->
  parent n = None ->
  tree_within fuel (heap s) root ->
  exists state,
    Node.serialize fuel root s = Some (state, s) /\
    recorded (heap s) root state /\
    NodeState.expanded state = true /\
    exists s' rn,
      restore state s0 = Some (length (heap s0), s') /\
      heap s' !! length (heap s0) = Some rn /\
      parent rn = None /\ name rn = "" /\ expr rn = "" /\
      Forall2 (restored (heap s') (S (length (heap s0))))
              (Node.getChildren rn) (NodeState.children state) /\
      Node.serialize (height state) (length (heap s0)) s'
      = Some (NodeState.mk "" "" true (NodeState.children state), s') /\
      (name n = "" -> expr n = "" ->
       Node.serialize (height state) (length (heap s0)) s' = Some (state, s')) /\
      (forall k x, heap s0 !! k = Some x -> heap s' !! k = Some x).
Proof.
  intros Hn Hparent Htree.
  destruct (pvtSerialize_run fuel s root Htree) as (state & Hrun & Hrec).
  assert (Hfields : NodeState.name state = name n /\ NodeState.expr state = expr n
                    /\ NodeState.expanded state = true).
  { inversion Hrec as [? n' ? Hn' Hname Hexpr Hexp _]; subst.
    assert (n' = n) as -> by congruence.
    by rewrite Hparent, orb_true_r in Hexp. }
  destruct Hfields as (Hname & Hexpr & Hexp).
  exists state. split; [exact Hrun|]. split; [done|]. split; [done|].
  set (r := length (heap s0)).
  set (rn0 := mkNode None None (Some "") (Some false)
                     (Some ("node_" +:+ JS.decimal (idCounter s0)))
                     None "" "" "" "" 0).
  set (s1 := mkStore (heap s0 ++ [rn0]) (S (idCounter s0))).
  assert (Hr : heap s1 !! r = Some rn0) by (by apply list_lookup_middle).
  destruct (deSerialize_builds state s1 r rn0 Hr)
    as (s' & cs & Hbuild & Hlen & Hframe & Hroot & Hkids).
  set (rn := set_children (match NodeState.children state with
                           | [] => children rn0
                           | _ => Some (Node.getChildren rn0 ++ cs)
                           end) rn0) in *.
  assert (Hcs : Node.getChildren rn = cs).
  { subst rn. destruct (NodeState.children state); [by inversion Hkids|reflexivity]. }
  assert (Hlen1 : length (heap s1) = S r).
  { subst s1 r. simpl. rewrite length_app. simpl. lia. }
  rewrite Hlen1 in Hkids.
  assert (Hagain : Node.serialize (height state) r s'
                   = Some (NodeState.mk "" "" true (NodeState.children state), s')).
  { unfold Node.serialize. destruct (height state) as [|h] eqn:Hh;
      [destruct state; discriminate|].
    simpl. rewrite (bind_run _ _ _ _ _ (get_run _ _ _ Hroot)).
    assert (Hitems : Node.mapM (Node.pvtSerialize h) (Node.getChildren rn) s'
                     = Some (NodeState.children state, s')).
    { apply mapM_run. rewrite Hcs.
      assert (Hsmall : Forall (fun cst => height cst <= h) (NodeState.children state)).
      { apply Forall_forall. intros cst Hin%height_children. lia. }
      eapply Forall2_with_Forall; [exact Hsmall|exact Hkids|].
      intros c cst Hh' Hc. by eapply restored_serialize. }
    by rewrite (bind_run _ _ _ _ _ Hitems). }
  exists s', rn. split; [|split; [done|split; [done|split; [done|split; [done|]]]]].
  - unfold restore.
    assert (Hnew : Node.new None "" "" "" "" 0 s0 = Some (r, s1)) by reflexivity.
    by rewrite (bind_run _ _ _ _ _ Hnew), (bind_run _ _ _ _ _ Hbuild).
  - split; [by rewrite Hcs|]. split; [exact Hagain|]. split.
    + intros Hnm He. rewrite Hagain. do 2 f_equal.
      destruct state as [snm se sex scs]. simpl in *. congruence.
    + intros k x Hk. apply Hframe.
      * apply lookup_lt_Some in Hk. subst r. lia.
      * subst s1. simpl. rewrite lookup_app_l; [done|]. by eapply lookup_lt_Some.
Qed.

(** ** The sample tree is a tree *)

Ltac parent_is_alive :=
  let p := fresh "p" in
  let Hp := fresh "Hp" in
  intros p Hp; simpl in Hp;
  first [discriminate Hp | injection Hp as <-; by eexists].

Lemma sample_leaves (fuel : nat) :
  tree_within (S fuel) (heap Sample.store) 2 /\
  tree_within (S fuel) (heap Sample.store) 3 /\
  tree_within (S fuel) (heap Sample.store) 4.
Proof.
  repeat split; (eexists; split; [reflexivity|]; split; [parent_is_alive|constructor]).
Qed.

Lemma sample_is_a_tree :
  tree_within 2 (heap Sample.store) 1 /\ tree_within 3 (heap Sample.store) 0.
Proof.
  assert (Ha : tree_within 2 (heap Sample.store) 1).
  { exists Sample.a. split; [reflexivity|]. split; [parent_is_alive|].
    constructor; [apply (sample_leaves 0)|constructor]. }
  split; [exact Ha|].
  exists Sample.root. split; [reflexivity|]. split; [parent_is_alive|].
  destruct (sample_leaves 1) as (Hb & Hc & _). by repeat constructor.
Qed.

Lemma persistent_part_round_trips_witness :
  exists state,
    Node.serialize 3 0 Sample.store = Some (state, Sample.store) /\
    NodeState.expanded state = true /\
    exists s',
      restore state (mkStore [] 0) = Some (0%nat, s') /\
      Node.serialize (height state) 0 s' = Some (state, s').
Proof.
  destruct (persistent_part_round_trips 3 Sample.store 0 Sample.root (mkStore [] 0)
              eq_refl eq_refl (proj2 sample_is_a_tree))
    as (state & Hrun & _ & Hexp & s' & rn & Hrestore & _ & _ & _ & _ & _ & _
        & Hsame & _).
  exists state. split; [exact Hrun|]. split; [exact Hexp|].
  exists s'. split; [exact Hrestore|]. by apply Hsame.
Defined.


(** ** C2: the children rebuilt by [refreshChildren] *)

(** C2 at an answer that names a property of [Object.prototype].  The
    node [a] of the sample tree has one child, [x] (id [node_4], value
    [3]).  The adapter answers with [x], [constructor] and [y].  The new
    [x] takes over the id and, as previous value, the value of the old
    [x]; the new [y] keeps the id it was constructed with, the previous
    value [''] and [expanded = false].  No child was called
    [constructor], yet [oldStateMap['constructor']] is the function
    inherited from [Object.prototype], which is truthy: the new child
    [constructor] ends with [id], [prevValue] and [expanded] all
    [undefined]. *)
Theorem refresh_adopts_an_inherited_property :
  exists oldStateMap begun s',
    Node.refreshChildren 1 (Some 7%nat) Sample.store
    = Some (Node.LiveVariables 5 oldStateMap, Sample.store) /\
    Node.refreshChildren_fulfilled 1 (Some 7%nat) oldStateMap
                                   (Some (Some Answer.variables)) Sample.store
    = Some (begun, s') /\
    children <$> heap s' !! 1%nat = Some (Some [5; 6; 7]%nat) /\
    heap s' !! 5%nat
    = Some (mkNode (Some 7%nat) None (Some "3") (Some false) (Some "node_4")
                   (Some 1%nat) "x" "a.x" "4" "int" 0) /\
    heap s' !! 6%nat
    = Some (mkNode (Some 7%nat) None None None None
                   (Some 1%nat) "constructor" "a.constructor" "0x0"
                   "void (*)(void)" 0) /\
    heap s' !! 7%nat
    = Some (mkNode (Some 7%nat) None (Some "") (Some false) (Some "node_7")
                   (Some 1%nat) "y" "a.y" "9" "int" 0).
Proof.
  eexists _, _, _. split; [vm_compute; reflexivity|].
  split; [vm_compute; reflexivity|].
  repeat split.
Qed.


(** *** What the lookup by name finds, in general *)

Lemma saveStates_saved s cs cns m :
  Forall2 (fun c cn => heap s !! c = Some cn) cs cns ->
  Node.saveStates cs m s = Some (saved cns m, s).
Proof.
  intros H. revert m. induction H as [|c cn cs cns Hc _ IH]; intros m; simpl.
  - reflexivity.
  - rewrite (bind_run _ _ _ _ _ (get_run _ _ _ Hc)). apply IH.
Qed.

Lemma bound_lookup m key state :
  bound m key state -> SaveVarStateMap.lookup m key = SaveVarStateMap.State state.
Proof.
  unfold bound, SaveVarStateMap.lookup.
  destruct (String.eqb key "__proto__"); by intros ->.
Qed.

Lemma bound_assign m key state : bound (SaveVarStateMap.assign m key state) key state.
Proof.
  unfold bound, SaveVarStateMap.assign.
  destruct (String.eqb key "__proto__"); simpl; [done|]. apply lookup_insert_eq.
Qed.

Lemma bound_assign_other m k key state state' :
  k <> key -> bound m key state -> bound (SaveVarStateMap.assign m k state') key state.
Proof.
  unfold bound, SaveVarStateMap.assign. intros Hne.
  destruct (String.eqb_spec key "__proto__") as [->|Hkey];
    destruct (String.eqb_spec k "__proto__") as [->|Hk]; simpl; try done.
  intros H. by rewrite lookup_insert_ne.
Qed.

(** A name that some prior child carries is bound to the state of the
    last prior child carrying it. *)
Lemma saved_last pre c post m :
  Forall (fun c' => name c' <> name c) post ->
  bound (saved (pre ++ c :: post) m) (name c) (stateOf c).
Proof.
  intros Hpost. unfold saved. rewrite fold_left_app. simpl.
  generalize (bound_assign (fold_left
                              (fun m c => SaveVarStateMap.assign m (name c) (stateOf c))
                              pre m) (name c) (stateOf c)).
  generalize (SaveVarStateMap.assign
                (fold_left (fun m c => SaveVarStateMap.assign m (name c) (stateOf c)) pre m)
                (name c) (stateOf c)).
  induction Hpost as [|c' post Hc' _ IH]; intros m' Hm'; simpl; [done|].
  apply IH. by apply bound_assign_other.
Qed.

(** A name that no prior child carries, that is not a property of
    [Object.prototype], among prior children none of which is called
    [__proto__], is not found. *)
Lemma saved_fresh cs key :
  Forall (fun c => name c <> key /\ name c <> "__proto__") cs ->
  key ∉ SaveVarStateMap.objectPrototype ->
  SaveVarStateMap.lookup (saved cs SaveVarStateMap.empty) key = SaveVarStateMap.Falsy.
Proof.
  intros Hcs Hkey.
  assert (Hproto : key <> "__proto__").
  { intros ->. apply Hkey. apply list_elem_of_In. simpl. tauto. }
  assert (Hinv : SaveVarStateMap.own (saved cs SaveVarStateMap.empty) !! key = None
                 /\ SaveVarStateMap.proto (saved cs SaveVarStateMap.empty) = None).
  { unfold saved.
    assert (Hempty : SaveVarStateMap.own SaveVarStateMap.empty !! key = None
                     /\ SaveVarStateMap.proto SaveVarStateMap.empty = None).
    { split; [apply lookup_empty|done]. }
    revert Hempty. generalize SaveVarStateMap.empty.
    induction Hcs as [|c cs [Hc Hc'] _ IH]; intros m Hm; simpl; [done|].
    apply IH. unfold SaveVarStateMap.assign.
    destruct (String.eqb_spec (name c) "__proto__") as [?|_]; [done|]. simpl.
    destruct Hm as [Hown Hp]. split; [|done]. by rewrite lookup_insert_ne. }
  destruct Hinv as [Hown Hp]. unfold SaveVarStateMap.lookup.
  destruct (String.eqb_spec key "__proto__") as [?|_]; [done|].
  rewrite Hown, Hp. unfold SaveVarStateMap.inherited.
  by rewrite bool_decide_eq_false_2.
Qed.

Lemma modify_last h x c (f : LiveVariableNode -> LiveVariableNode) :
  modify (length h) f (mkStore (h ++ [x]) c) = Some (tt, mkStore (h ++ [f x]) c).
Proof.
  unfold modify. simpl. rewrite list_lookup_middle by done.
  do 3 f_equal. rewrite <- (Nat.add_0_r (length h)). by rewrite insert_app_r.
Qed.

(** One round of the loop over the answer: one object is allocated and
    appended to the children of [this]. *)
Lemma adopt_run s this n given m v :
  heap s !! this = Some n ->
  Node.adopt this given m v s
  = Some (tt, mkStore (<[this := set_children (Some (Node.getChildren n ++ [length (heap s)])) n]>
                         (heap s) ++ [adopted (idCounter s) this given m v])
                      (S (idCounter s))).
Proof.
  intros Hthis.
  assert (Hlt : this < length (heap s)) by (eapply lookup_lt_Some; eauto).
  unfold Node.adopt, Node.setId, adopted.
  unfold bind at 1. unfold Node.new at 1. cbv zeta.
  unfold bind at 1. unfold get at 1. simpl heap.
  rewrite list_lookup_middle by done. simpl name.
  destruct (SaveVarStateMap.lookup m (ProtocolVariable.name v)) as [old| |].
  - repeat (rewrite ?bind_assoc, (bind_run _ _ _ _ _ (modify_last _ _ _ _))).
    unfold modify. simpl. rewrite lookup_app_l by done. rewrite Hthis.
    by rewrite insert_app_l.
  - repeat (rewrite ?bind_assoc, (bind_run _ _ _ _ _ (modify_last _ _ _ _))).
    unfold modify. simpl. rewrite lookup_app_l by done. rewrite Hthis.
    by rewrite insert_app_l.
  - rewrite (bind_run (ret tt) _ _ tt _ eq_refl).
    rewrite (bind_run _ _ _ _ _ (modify_last _ _ _ _)).
    unfold modify. simpl. rewrite lookup_app_l by done. rewrite Hthis.
    by rewrite insert_app_l.
Qed.

(** What holds in general: a new child whose name a prior child
    carries takes over the id, the children and, as previous value, the
    value of the last prior child of that name, and its expansion flag when
    the new child refers to variables; a new child whose name is neither
    carried by a prior child nor found along the prototype chain keeps its
    own id, the previous value [''] and [expanded = false]. *)
Lemma refreshed_child_by_name counter this given pre c post v :
  let m := saved (pre ++ c :: post) SaveVarStateMap.empty in
  let reference := default 0%Z (ProtocolVariable.variablesReference v) in
  (ProtocolVariable.name v = name c ->
   Forall (fun c' => name c' <> name c) post ->
   id (adopted counter this given m v) = id c /\
   prevValue (adopted counter this given m v) = Some (value c) /\
   children (adopted counter this given m v) = children c /\
   expanded (adopted counter this given m v)
   = match expanded c with
     | Some true => Some (0 <? reference)%Z
     | falsy => falsy
     end)
  /\
  (Forall (fun c' => name c' <> ProtocolVariable.name v /\ name c' <> "__proto__")
          (pre ++ c :: post) ->
   ProtocolVariable.name v ∉ SaveVarStateMap.objectPrototype ->
   id (adopted counter this given m v) = Some ("node_" +:+ JS.decimal counter) /\
   prevValue (adopted counter this given m v) = Some "" /\
   expanded (adopted counter this given m v) = Some false).
Proof.
  cbv zeta. split.
  - intros Hname Hpost. unfold adopted.
    rewrite Hname, (bound_lookup _ _ _ (saved_last pre c post _ Hpost)). by repeat split.
  - intros Hcs Hkey. unfold adopted. rewrite (saved_fresh _ _ Hcs Hkey). by repeat split.
Qed.

(* ================================================================== *)
(** * Further properties of the tree model *)

(** ** Searching *)

Lemma findName_loop_skip s str todo rest :
  other_names (heap s) str todo ->
  Node.findName_loop (todo ++ rest) str s = Node.findName_loop rest str s.
Proof.
  induction todo as [|c todo IH]; intros H; simpl; [done|].
  apply other_names_cons in H as [(cn & Hc & Hne) H].
  rewrite (bind_run _ _ _ _ _ (get_run _ _ _ Hc)), (eqb_name_false _ _ Hne).
  by apply IH.
Qed.

(** X1.  [findName] answers the first child that carries the name, whatever
    comes after it, and [undefined] when no child carries it; it writes
    nothing. *)
Theorem findName_finds_the_first (s : Store) (this : loc) (n : LiveVariableNode)
        (str : string) :
  heap s !! this = Some n ->
  (forall pre c cn post,
      Node.getChildren n = pre ++ c :: post ->
      other_names (heap s) str pre ->
      heap s !! c = Some cn -> name cn = str ->
      Node.findName this str s = Some (Some c, s))
  /\ (other_names (heap s) str (Node.getChildren n) ->
      Node.findName this str s = Some (None, s)).
Proof.
  intros Hthis. split.
  - intros pre c cn post Hcs Hpre Hc Hname. unfold Node.findName.
    rewrite (bind_run _ _ _ _ _ (get_run _ _ _ Hthis)), Hcs.
    rewrite findName_loop_skip by done. simpl.
    rewrite (bind_run _ _ _ _ _ (get_run _ _ _ Hc)), Hname, String.eqb_refl.
    reflexivity.
  - intros Hall. unfold Node.findName.
    rewrite (bind_run _ _ _ _ _ (get_run _ _ _ Hthis)).
    rewrite <- (app_nil_r (Node.getChildren n)).
    by rewrite findName_loop_skip.
Qed.

Lemma findName_finds_the_first_witness :
  Node.findName 0 "b" Sample.store = Some (Some 2%nat, Sample.store)
  /\ Node.findName 0 "z" Sample.store = Some (None, Sample.store).
Proof.
  destruct (findName_finds_the_first Sample.store 0 Sample.root "b" eq_refl)
    as [Hfound _].
  destruct (findName_finds_the_first Sample.store 0 Sample.root "z" eq_refl)
    as [_ Hnone].
  split.
  - apply (Hfound [1%nat] 2%nat Sample.b [3%nat] eq_refl); [|reflexivity|reflexivity].
    intros c Hc. apply list_elem_of_singleton in Hc as ->.
    exists Sample.a. split; [reflexivity|discriminate].
  - apply Hnone. intros c Hc. simpl in Hc.
    apply elem_of_cons in Hc as [->|Hc]; [exists Sample.a; split; [reflexivity|discriminate]|].
    apply elem_of_cons in Hc as [->|Hc]; [exists Sample.b; split; [reflexivity|discriminate]|].
    apply list_elem_of_singleton in Hc as ->.
    exists Sample.c. split; [reflexivity|discriminate].
Defined.

Lemma reaches_inv h l k :
  reaches h l k ->
  k = l \/ exists n c, h !! l = Some n /\ c ∈ Node.getChildren n /\ reaches h c k.
Proof. destruct 1; [by left|right; eauto]. Qed.

(** The search by id, by induction on the fuel and then on the children
    still to be searched. *)
Lemma findById_in_tree (fuel : nat) (s : Store) (l : loc) (i : string) :
  tree_within fuel (heap s) l ->
  exists r,
    Node.findById fuel l i s = Some (r, s) /\
    (forall k, r = Some k ->
       reaches (heap s) l k /\ exists kn, heap s !! k = Some kn /\ id kn = Some i) /\
    (r = None ->
     forall k kn, reaches (heap s) l k -> heap s !! k = Some kn -> id kn <> Some i).
Proof.
  revert l. induction fuel as [|fuel IH]; intros l; simpl; [done|].
  intros (n & Hn & _ & Hkids).
  rewrite (bind_run _ _ _ _ _ (get_run _ _ _ Hn)).
  destruct (decide (id n = Some i)) as [Hid|Hid].
  - rewrite (bool_decide_eq_true_2 _ Hid). exists (Some l). split; [done|]. split.
    + intros k [= <-]. split; [constructor|eauto].
    + discriminate.
  - rewrite (bool_decide_eq_false_2 _ Hid).
    assert (Hloop : forall cs,
              Forall (tree_within fuel (heap s)) cs ->
              exists r,
                (fix loop (rest : list nat) : M (option nat) :=
                   match rest with
                   | [] => ret None
                   | child :: rest' =>
                       let* found := Node.findById fuel child i in
                       match found with
                       | Some f => ret (Some f)
                       | None => loop rest'
                       end
                   end) cs s = Some (r, s) /\
                (forall k, r = Some k ->
                   (exists c, c ∈ cs /\ reaches (heap s) c k) /\
                   exists kn, heap s !! k = Some kn /\ id kn = Some i) /\
                (r = None ->
                 forall c k kn, c ∈ cs -> reaches (heap s) c k ->
                                heap s !! k = Some kn -> id kn <> Some i)).
    { induction 1 as [|c cs Hc _ IHcs].
      - exists None. split; [done|]. split; [discriminate|].
        intros _ c k kn Hin. by apply elem_of_nil in Hin.
      - destruct (IH c Hc) as (r & Hr & Hsome & Hnone).
        rewrite (bind_run _ _ _ _ _ Hr). destruct r as [f|].
        + exists (Some f). split; [done|]. split; [|discriminate].
          intros k [= <-]. destruct (Hsome f eq_refl) as [Hreach Hid'].
          split; [|done]. exists c. split; [left|done].
        + destruct IHcs as (r & Hr' & Hsome' & Hnone').
          exists r. split; [done|]. split.
          * intros k Hk. destruct (Hsome' k Hk) as [(c' & Hin & Hreach) Hid'].
            split; [|done]. exists c'. split; [by right|done].
          * intros Hk c' k kn Hin Hreach Hkn.
            apply elem_of_cons in Hin as [->|Hin].
            -- by apply (Hnone eq_refl k kn).
            -- by apply (Hnone' Hk c' k kn). }
    destruct (Hloop _ Hkids) as (r & Hr & Hsome & Hnone).
    exists r. split; [done|]. split.
    + intros k Hk. destruct (Hsome k Hk) as [(c & Hin & Hreach) Hid'].
      split; [|done]. by eapply reaches_below.
    + intros Hk k kn Hreach Hkn.
      apply reaches_inv in Hreach as [->|(n' & c & Hn' & Hin & Hreach)].
      * assert (kn = n) as -> by congruence. done.
      * assert (n' = n) as -> by congruence. by apply (Hnone Hk c k kn).
Qed.

(** X2.  [findById] on a tree ends and writes nothing.  The object it answers
    is reached from the start and carries the id; it answers [undefined]
    only when no object reached from the start carries the id. *)
Theorem findById_is_sound_and_complete (fuel : nat) (s : Store) (l : loc) (i : string) :
  tree_within fuel (heap s) l ->
  exists r,
    Node.findById fuel l i s = Some (r, s) /\
    (forall k, r = Some k ->
       reaches (heap s) l k /\ exists kn, heap s !! k = Some kn /\ id kn = Some i) /\
    (r = None ->
     forall k kn, reaches (heap s) l k -> heap s !! k = Some kn -> id kn <> Some i).
Proof.
  intros Htree. destruct (findById_in_tree fuel s l i Htree) as (r & Hrun & Hsome & Hnone).
  exists r. split; [exact Hrun|]. split; [exact Hsome|exact Hnone].
Qed.

Lemma findById_is_sound_and_complete_witness :
  Node.findById 3 0 "node_4" Sample.store = Some (Some 4%nat, Sample.store)
  /\ exists r, Node.findById 3 0 "node_9" Sample.store = Some (r, Sample.store).
Proof.
  destruct (findById_is_sound_and_complete 3 Sample.store 0 "node_9"
              (proj2 sample_is_a_tree)) as (r & Hr & _).
  split; [reflexivity|]. by exists r.
Defined.

(** ** Removing and moving a child *)

Lemma removeChild_loop_skip this nm s todo rest ix :
  other_names (heap s) nm todo ->
  Node.removeChild_loop this (todo ++ rest) nm ix s
  = Node.removeChild_loop this rest nm (ix + length todo) s.
Proof.
  revert ix. induction todo as [|c todo IH]; intros ix H; simpl.
  - by rewrite Nat.add_0_r.
  - apply other_names_cons in H as [(cn & Hc & Hne) H].
    rewrite (bind_run _ _ _ _ _ (get_run _ _ _ Hc)), (eqb_name_false _ _ Hne).
    rewrite IH by done. f_equal. lia.
Qed.

Lemma removeChild_start s this nd l n :
  heap s !! this = Some nd -> heap s !! l = Some n -> root_child (heap s) l ->
  Node.removeChild this (Some l) s
  = Node.removeChild_loop this (Node.getChildren nd) (name n) 0 s.
Proof.
  intros Hthis Hl Hrc. unfold Node.removeChild.
  rewrite (bind_run _ _ _ _ _ (notRootChild_root_child _ _ Hrc)).
  rewrite (bind_run _ _ _ _ _ (nameOf_run _ _ _ Hl)).
  by rewrite (bind_run _ _ _ _ _ (get_run _ _ _ Hthis)).
Qed.

Lemma removeChild_found s this nd l n pre c cn post :
  heap s !! this = Some nd -> heap s !! l = Some n -> root_child (heap s) l ->
  Node.getChildren nd = pre ++ c :: post ->
  other_names (heap s) (name n) pre ->
  heap s !! c = Some cn -> name cn = name n ->
  Node.removeChild this (Some l) s = Some (true, with_children s this nd (pre ++ post)).
Proof.
  intros Hthis Hl Hrc Hcs Hpre Hc Hname.
  rewrite (removeChild_start s this nd l n Hthis Hl Hrc), Hcs.
  rewrite removeChild_loop_skip by done. simpl.
  rewrite (bind_run _ _ _ _ _ (get_run _ _ _ Hc)), Hname, String.eqb_refl.
  rewrite (bind_run _ _ _ _ _ (modify_children s this nd (delete (length pre)) Hthis)).
  by rewrite Hcs, delete_middle.
Qed.

(** X3.  [removeChild], called with a child of the root, removes the first
    child of [this] that carries the name of the given node, and that
    child only; when no child carries the name it answers [false] and
    changes nothing. *)
Theorem removeChild_removes_the_first_of_that_name
        (s : Store) (this : loc) (nd : LiveVariableNode) (l : loc) (n : LiveVariableNode) :
  heap s !! this = Some nd ->
  heap s !! l = Some n ->
  root_child (heap s) l ->
  (forall pre c cn post,
      Node.getChildren nd = pre ++ c :: post ->
      other_names (heap s) (name n) pre ->
      heap s !! c = Some cn -> name cn = name n ->
      Node.removeChild this (Some l) s
      = Some (true, with_children s this nd (pre ++ post)))
  /\ (other_names (heap s) (name n) (Node.getChildren nd) ->
      Node.removeChild this (Some l) s = Some (false, s)).
Proof.
  intros Hthis Hl Hrc. split.
  - intros pre c cn post Hcs Hpre Hc Hname. by eapply removeChild_found.
  - intros Hall. rewrite (removeChild_start s this nd l n Hthis Hl Hrc).
    rewrite <- (app_nil_r (Node.getChildren nd)).
    by rewrite removeChild_loop_skip.
Qed.

Lemma removeChild_removes_the_first_of_that_name_witness :
  Node.removeChild 0 (Some 2%nat) Sample.store
  = Some (true, with_children Sample.store 0 Sample.root [1; 3]%nat).
Proof.
  assert (Hrc : root_child (heap Sample.store) 2).
  { exists Sample.b, 0%nat. repeat split. exists Sample.root. split; reflexivity. }
  destruct (removeChild_removes_the_first_of_that_name
              Sample.store 0 Sample.root 2 Sample.b eq_refl eq_refl Hrc) as [Hfound _].
  apply (Hfound [1%nat] 2%nat Sample.b [3%nat] eq_refl); [|reflexivity|reflexivity].
  intros c Hc. apply list_elem_of_singleton in Hc as ->.
  exists Sample.a. split; [reflexivity|discriminate].
Defined.

(** Overwriting the children array of an object changes neither the name
    nor the parent of any object. *)
Lemma with_children_keeps s this nd cs c cn :
  heap s !! this = Some nd ->
  heap s !! c = Some cn ->
  exists cn', heap (with_children s this nd cs) !! c = Some cn' /\
              name cn' = name cn /\ expr cn' = expr cn /\ parent cn' = parent cn.
Proof.
  intros Hthis Hc. simpl. destruct (decide (this = c)) as [<-|Hne].
  - exists (set_children (Some cs) nd). split.
    + apply list_lookup_insert_eq. eapply lookup_lt_Some; eauto.
    + assert (cn = nd) as -> by congruence. done.
  - exists cn. by rewrite list_lookup_insert_ne.
Qed.

Lemma root_child_with_children s this nd cs l :
  heap s !! this = Some nd ->
  root_child (heap s) l -> root_child (heap (with_children s this nd cs)) l.
Proof.
  intros Hthis (n & p & Hn & Hp & pn & Hpn & Hpp).
  destruct (with_children_keeps s this nd cs l n Hthis Hn) as (n' & Hn' & _ & _ & Hpar).
  destruct (with_children_keeps s this nd cs p pn Hthis Hpn) as (pn' & Hpn' & _ & _ & Hpar').
  exists n', p. split; [done|]. split; [congruence|]. exists pn'. split; [done|congruence].
Qed.

Lemma other_names_with_children s this nd cs nm ls :
  heap s !! this = Some nd ->
  other_names (heap s) nm ls -> other_names (heap (with_children s this nd cs)) nm ls.
Proof.
  intros Hthis H c Hc. destruct (H c Hc) as (cn & Hcn & Hne).
  destruct (with_children_keeps s this nd cs c cn Hthis Hcn) as (cn' & Hcn' & Hname & _).
  exists cn'. split; [done|congruence].
Qed.

Lemma found_by_name_others h pre l post n :
  h !! l = Some n -> other_names h (name n) pre ->
  found_by_name h (pre ++ l :: post) (length pre) l.
Proof.
  intros Hl Hpre. split; [by apply list_lookup_middle|].
  exists n. split; [done|]. intros j c Hj Hc. apply Hpre.
  rewrite lookup_app_l in Hc by done. by eapply list_elem_of_lookup_2.
Qed.

Lemma with_children_same s this nd cs :
  heap s !! this = Some nd -> children nd = Some cs -> with_children s this nd cs = s.
Proof.
  intros Hthis Hcs. destruct s as [h c]. unfold with_children. simpl in *. f_equal.
  apply list_insert_id. rewrite Hthis. f_equal. rewrite <- Hcs.
  by destruct nd.
Qed.

(** X4.  Moving a child up and then down, or down and then up, gives the store
    there was, when no other child carries its name. *)
Theorem moving_back_restores_the_store
        (s : Store) (this : loc) (nd : LiveVariableNode)
        (pre post : list loc) (l : loc) (n : LiveVariableNode) :
  heap s !! this = Some nd ->
  children nd = Some (pre ++ l :: post) ->
  root_child (heap s) l ->
  heap s !! l = Some n ->
  other_names (heap s) (name n) (pre ++ post) ->
  (exists s', Node.moveUpChild this (Some l) s = Some (true, s') /\
              Node.moveDownChild this (Some l) s' = Some (true, s))
  /\
  (exists s', Node.moveDownChild this (Some l) s = Some (true, s') /\
              Node.moveUpChild this (Some l) s' = Some (true, s)).
Proof.
  intros Hthis Hcs Hrc Hl Hothers.
  assert (Hpre : other_names (heap s) (name n) pre).
  { intros c Hc. apply Hothers. apply elem_of_app. by left. }
  assert (Hpost : other_names (heap s) (name n) post).
  { intros c Hc. apply Hothers. apply elem_of_app. by right. }
  pose proof (found_by_name_others _ pre l post n Hl Hpre) as Hfound.
  (* what holds after the children of [this] have been overwritten *)
  assert (Hafter : forall cs' pre' post',
            cs' = pre' ++ l :: post' ->
            other_names (heap s) (name n) pre' ->
            let s' := with_children s this nd cs' in
            heap s' !! this = Some (set_children (Some cs') nd) /\
            children (set_children (Some cs') nd) = Some (pre' ++ l :: post') /\
            root_child (heap s') l /\
            found_by_name (heap s') (pre' ++ l :: post') (length pre') l).
  { intros cs' pre' post' -> Hpre'. cbv zeta.
    split; [by apply with_children_lookup|]. split; [done|].
    split; [by apply root_child_with_children|].
    destruct (with_children_keeps s this nd (pre' ++ l :: post') l n Hthis Hl)
      as (n' & Hn' & Hname & _).
    apply (found_by_name_others _ pre' l post' n' Hn'). rewrite Hname.
    by apply other_names_with_children. }
  split.
  - eexists. split; [exact (moveUpChild_found s this nd pre post l Hthis Hcs Hrc Hfound)|].
    destruct (reverse pre) as [|prev erp] eqn:Hrev;
      apply (f_equal reverse) in Hrev; rewrite reverse_involutive in Hrev; subst pre.
    + destruct (Hafter (post ++ [l]) post [] eq_refl Hpost) as (H1 & H2 & H3 & H4).
      rewrite (moveDownChild_found _ this _ post [] l H1 H2 H3 H4).
      rewrite with_children_again. f_equal. f_equal. by apply with_children_same.
    + rewrite reverse_cons in *.
      assert (Herp : other_names (heap s) (name n) (reverse erp)).
      { intros c Hc. apply Hpre. apply elem_of_app. by left. }
      destruct (Hafter (reverse erp ++ l :: prev :: post) (reverse erp) (prev :: post)
                       eq_refl Herp) as (H1 & H2 & H3 & H4).
      rewrite (moveDownChild_found _ this _ (reverse erp) (prev :: post) l H1 H2 H3 H4).
      rewrite with_children_again. f_equal. f_equal. apply with_children_same; [done|].
      by rewrite Hcs, <- app_assoc.
  - eexists. split; [exact (moveDownChild_found s this nd pre post l Hthis Hcs Hrc Hfound)|].
    destruct post as [|next post'].
    + destruct (Hafter (l :: pre) [] pre eq_refl) as (H1 & H2 & H3 & H4).
      { intros c Hc. by apply elem_of_nil in Hc. }
      rewrite (moveUpChild_found _ this _ [] pre l H1 H2 H3 H4). simpl.
      rewrite with_children_again. f_equal. f_equal. by apply with_children_same.
    + assert (Hnext : other_names (heap s) (name n) (pre ++ [next])).
      { intros c Hc. apply Hothers. apply elem_of_app in Hc as [Hc|Hc].
        - apply elem_of_app. by left.
        - apply list_elem_of_singleton in Hc as ->. apply elem_of_app. right. left. }
      destruct (Hafter (pre ++ next :: l :: post') (pre ++ [next]) post') as (H1 & H2 & H3 & H4).
      { by rewrite <- app_assoc. }
      { done. }
      rewrite <- app_assoc in H2, H4. simpl in H2, H4.
      assert (Hlen : length (pre ++ [next]) = length (pre ++ [next])) by done.
      pose proof (moveUpChild_found _ this _ (pre ++ [next]) post' l H1) as Hup.
      rewrite <- app_assoc in Hup. simpl in Hup.
      rewrite (Hup H2 H3 H4). rewrite reverse_app. simpl. rewrite reverse_involutive.
      rewrite with_children_again. f_equal. f_equal. by apply with_children_same.
Qed.

Lemma moving_back_restores_the_store_witness :
  (exists s', Node.moveUpChild 0 (Some 1%nat) Sample.store = Some (true, s') /\
              Node.moveDownChild 0 (Some 1%nat) s' = Some (true, Sample.store))
  /\
  (exists s', Node.moveDownChild 0 (Some 1%nat) Sample.store = Some (true, s') /\
              Node.moveUpChild 0 (Some 1%nat) s' = Some (true, Sample.store)).
Proof.
  assert (Hrc : root_child (heap Sample.store) 1).
  { exists Sample.a, 0%nat. repeat split. exists Sample.root. split; reflexivity. }
  apply (moving_back_restores_the_store Sample.store 0 Sample.root [] [2; 3]%nat 1
           Sample.a eq_refl eq_refl Hrc eq_refl).
  intros c Hc. simpl in Hc.
  apply elem_of_cons in Hc as [->|Hc]; [exists Sample.b; split; [reflexivity|discriminate]|].
  apply list_elem_of_singleton in Hc as ->.
  exists Sample.c. split; [reflexivity|discriminate].
Defined.

(** ** The watch list under the commands of the controller *)

Lemma watch_with_children s this nd cs root c nm :
  heap s !! this = Some nd ->
  watch (heap s) root c nm -> watch (heap (with_children s this nd cs)) root c nm.
Proof.
  intros Hthis (cn & Hc & Hpar & Hname & Hexpr).
  destruct (with_children_keeps s this nd cs c cn Hthis Hc) as (cn' & Hc' & ? & ? & ?).
  exists cn'. split; [done|]. repeat split; congruence.
Qed.

Lemma watch_list_root_child s root cs names c :
  watch_list s root cs names -> c ∈ cs -> root_child (heap s) c.
Proof.
  intros (n & Hroot & Hpar & _ & Hall & _) Hc.
  apply list_elem_of_lookup in Hc as [i Hi].
  destruct (Forall2_lookup_l _ _ _ _ _ Hall Hi) as (nm & _ & cn & Hcn & Hp & _).
  exists cn, root. split; [done|]. split; [done|]. by exists n.
Qed.

Lemma watch_list_watches s root cs names :
  watch_list s root cs names -> watches s root names.
Proof.
  intros (n & Hroot & Hpar & <- & Hall & _). exists n. split; [done|]. split; [done|].
  eapply Forall2_impl; [exact Hall|]. intros c nm (cn & ? & _ & _ & ?). by exists cn.
Qed.

(** In a watch list, the objects before and after one of the children
    carry other names than that child. *)
Lemma watch_list_split s root pre c post names :
  watch_list s root (pre ++ c :: post) names ->
  exists npre nm npost cn,
    names = npre ++ nm :: npost /\ length npre = length pre /\
    heap s !! c = Some cn /\ name cn = nm /\
    Forall2 (watch (heap s) root) pre npre /\
    Forall2 (watch (heap s) root) post npost /\
    (nm ∉ npre ++ npost) /\
    other_names (heap s) nm (pre ++ post).
Proof.
  intros (n & Hroot & Hpar & Hcs & Hall & Hnd).
  apply Forall2_app_inv_l in Hall as (npre & rest & Hpre & Hrest & ->).
  apply Forall2_cons_inv_l in Hrest as (nm & npost & (cn & Hc & Hp & Hname & Hexpr) & Hpost & ->).
  assert (Hnotin : nm ∉ (npre ++ npost)).
  { apply NoDup_app in Hnd as (_ & Hdisj & Hnd').
    apply NoDup_cons in Hnd' as [Hnot _]. intros Hin%elem_of_app.
    destruct Hin as [Hin|Hin]; [|done]. apply (Hdisj nm Hin). left. }
  exists npre, nm, npost, cn. repeat split; try done.
  - symmetry. by eapply Forall2_length.
  - intros c' Hc'.
    assert (Hboth : Forall2 (watch (heap s) root) (pre ++ post) (npre ++ npost))
      by (by apply Forall2_app).
    apply list_elem_of_lookup in Hc' as [j Hj].
    destruct (Forall2_lookup_l _ _ _ _ _ Hboth Hj) as (nm' & Hnm' & cn' & Hcn' & _ & Hname' & _).
    exists cn'. split; [done|]. intros Heq. apply Hnotin.
    rewrite <- Heq, Hname'. by eapply list_elem_of_lookup_2.
Qed.

Lemma watch_list_with_children s root n cs' names' :
  heap s !! root = Some n -> parent n = None ->
  Forall2 (watch (heap s) root) cs' names' -> NoDup names' ->
  watch_list (with_children s root n cs') root cs' names'.
Proof.
  intros Hroot Hpar Hall Hnd.
  exists (set_children (Some cs') n). split; [by apply with_children_lookup|].
  split; [done|]. split; [done|]. split; [|done].
  eapply Forall2_impl; [exact Hall|]. intros c nm. by apply watch_with_children.
Qed.

(** The sample store holds a watch list of three expressions. *)
Lemma sample_watch_list :
  watch_list Sample.store 0 [1; 2; 3]%nat ["a"; "b"; "c"]%string.
Proof.
  exists Sample.root. repeat split.
  - repeat constructor; [by exists Sample.a|by exists Sample.b|by exists Sample.c].
  - apply (bool_decide_unpack _). by vm_compute.
Qed.

(** ** C9: reordering is a cyclic permutation *)

(** C9.  On a watch list, that is on the children of the root as the
    program keeps them, for every child [c]: [moveUpChild] and
    [moveDownChild] answer [true], change nothing but the children array
    of the root, and leave a permutation of it.  [moveUpChild] exchanges
    [c] with the child before it, or moves it to the last position when
    it is the first; [moveDownChild] exchanges [c] with the child after
    it, or moves it to the first position when it is the last. *)
Theorem reordering_is_a_cyclic_permutation
        (s : Store) (root : loc) (pre post : list loc) (c : loc) (names : list string) :
  watch_list s root (pre ++ c :: post) names ->
  exists n,
    heap s !! root = Some n /\
    (exists cs',
        Node.moveUpChild root (Some c) s = Some (true, with_children s root n cs') /\
        cs' ≡ₚ pre ++ c :: post /\
        (pre = [] -> cs' = post ++ [c]) /\
        (forall pre' prev, pre = pre' ++ [prev] -> cs' = pre' ++ c :: prev :: post))
    /\
    (exists cs',
        Node.moveDownChild root (Some c) s = Some (true, with_children s root n cs') /\
        cs' ≡ₚ pre ++ c :: post /\
        (post = [] -> cs' = c :: pre) /\
        (forall next post', post = next :: post' -> cs' = pre ++ next :: c :: post')).
Proof.
  intros Hw.
  destruct (watch_list_split _ _ _ _ _ _ Hw)
    as (npre & nm & npost & cn & -> & Hlen & Hc & Hname & Hpre & Hpost & Hnotin & Hothers).
  assert (Hrc : root_child (heap s) c).
  { apply (watch_list_root_child _ _ _ _ c Hw). apply elem_of_app. right. left. }
  destruct Hw as (n & Hroot & Hpar & Hcs & Hall & Hnd). subst nm.
  exists n. split; [done|].
  assert (Hchildren : children n = Some (pre ++ c :: post)).
  { unfold Node.getChildren in Hcs.
    destruct (children n) as [l|]; simpl in Hcs; [by subst|by destruct pre]. }
  assert (Hfound : found_by_name (heap s) (pre ++ c :: post) (length pre) c).
  { apply (found_by_name_others _ pre c post cn Hc).
    intros c' Hc'. apply Hothers, elem_of_app. by left. }
  exact (reordering_rotates_the_found_child s root n pre post c Hroot Hchildren Hrc Hfound).
Qed.

Lemma reordering_is_a_cyclic_permutation_witness :
  Node.moveUpChild 0 (Some 1%nat) Sample.store
  = Some (true, with_children Sample.store 0 Sample.root [2; 3; 1]%nat)
  /\ Node.moveUpChild 0 (Some 2%nat) Sample.store
     = Some (true, with_children Sample.store 0 Sample.root [2; 1; 3]%nat)
  /\ Node.moveDownChild 0 (Some 2%nat) Sample.store
     = Some (true, with_children Sample.store 0 Sample.root [1; 3; 2]%nat)
  /\ Node.moveDownChild 0 (Some 3%nat) Sample.store
     = Some (true, with_children Sample.store 0 Sample.root [3; 1; 2]%nat).
Proof.
  destruct (reordering_is_a_cyclic_permutation
              Sample.store 0 [] [2; 3]%nat 1 _ sample_watch_list)
    as (n1 & Hn1 & (up1 & Hup1 & _ & Hfirst & _) & _).
  destruct (reordering_is_a_cyclic_permutation
              Sample.store 0 [1%nat] [3%nat] 2 _ sample_watch_list)
    as (n2 & Hn2 & (up2 & Hup2 & _ & _ & Hup2') & (down2 & Hdown2 & _ & _ & Hdown2')).
  destruct (reordering_is_a_cyclic_permutation
              Sample.store 0 [1; 2]%nat [] 3 _ sample_watch_list)
    as (n3 & Hn3 & _ & (down3 & Hdown3 & _ & Hlast & _)).
  injection Hn1 as <-. injection Hn2 as <-. injection Hn3 as <-.
  rewrite (Hfirst eq_refl) in Hup1.
  rewrite (Hup2' [] 1%nat eq_refl) in Hup2.
  rewrite (Hdown2' 3%nat [] eq_refl) in Hdown2.
  rewrite (Hlast eq_refl) in Hdown3.
  split; [exact Hup1|]. split; [exact Hup2|]. split; [exact Hdown2|exact Hdown3].
Defined.

(** [addNewExpr] of an expression that is not in the watch list appends
    a new object, and moves the id counter on. *)
Lemma addNewExpr_in_watch_list s root cs names e :
  watch_list s root cs names -> e ∉ names ->
  exists s',
    Node.addNewExpr root e s = Some (true, s') /\
    watch_list s' root (cs ++ [length (heap s)]) (names ++ [e]) /\
    idCounter s' = S (idCounter s) /\
    forall k, k <> root -> k < length (heap s) -> heap s' !! k = heap s !! k.
Proof.
  intros Hw Hnotin. pose proof (watch_list_watches _ _ _ _ Hw) as Hws.
  destruct (addNewExpr_fresh _ _ _ _ Hws Hnotin) as (n & Hroot & Hrun & _).
  eexists. split; [exact Hrun|].
  destruct Hw as (n' & Hroot' & Hpar & Hcs & Hall & Hnd).
  assert (n' = n) as -> by congruence.
  assert (Hlt : root < length (heap s)) by (by eapply lookup_lt_Some).
  split; [|split; [done|]].
  - exists (set_children (Some (Node.getChildren n ++ [length (heap s)])) n).
    simpl. split.
    { rewrite lookup_app_l by (by rewrite length_insert). by apply list_lookup_insert_eq. }
    split; [done|]. split; [by rewrite getChildren_set, Hcs|]. split.
    + apply Forall2_app.
      * eapply Forall2_impl; [exact Hall|]. intros c nm (cn & Hc & Hp & Hname & Hexpr).
        assert (Hclt : c < length (heap s)) by (by eapply lookup_lt_Some).
        assert (c <> root) by (intros ->; congruence).
        exists cn. split; [|done].
        rewrite lookup_app_l by (by rewrite length_insert).
        by rewrite list_lookup_insert_ne.
      * constructor; [|constructor]. exists (added s root e).
        split; [|done]. apply list_lookup_middle. by rewrite length_insert.
    + apply NoDup_app. split; [done|]. split; [|apply NoDup_singleton].
      intros x Hx ->%list_elem_of_singleton. done.
  - intros k Hk Hklt. simpl.
    rewrite lookup_app_l by (by rewrite length_insert).
    by rewrite list_lookup_insert_ne.
Qed.

Section Commands.

Variable trim : string -> string.

(** X5.  [addWatchExpr] keeps the watch list a watch list: an expression that
    is empty once trimmed, or that is watched already, changes nothing
    and asks for nothing; any other is appended, and the state is saved
    and refreshed. *)
Theorem addWatchExpr_keeps_the_watch_list
        (p : Provider.t) (s : Store) (cs : list loc) (names : list string) (raw : string) :
  watch_list s (Provider.variables p) cs names ->
  (JS.nonempty (trim raw) = false \/ trim raw ∈ names ->
   Controller.addWatchExpr trim p raw s = Some ([], s))
  /\
  (JS.nonempty (trim raw) = true -> trim raw ∉ names ->
   exists s',
     Controller.addWatchExpr trim p raw s
     = Some ([Provider.SaveState; Provider.Refresh], s') /\
     watch_list s' (Provider.variables p) (cs ++ [length (heap s)]) (names ++ [trim raw])).
Proof.
  intros Hw. pose proof (watch_list_watches _ _ _ _ Hw) as Hws.
  unfold Controller.addWatchExpr. split.
  - intros [Hempty|Hin]; [by rewrite Hempty|].
    destruct (JS.nonempty (trim raw)); [|done].
    by rewrite (bind_run _ _ _ _ _ (addNewExpr_taken _ _ _ _ Hws Hin)).
  - intros Hne Hnotin. rewrite Hne.
    destruct (addNewExpr_in_watch_list _ _ _ _ _ Hw Hnotin) as (s' & Hrun & Hw' & _).
    rewrite (bind_run _ _ _ _ _ Hrun). by exists s'.
Qed.

End Commands.

Lemma addWatchExpr_keeps_the_watch_list_witness :
  Controller.addWatchExpr (fun e => e) (Provider.initial 0) "b" Sample.store
  = Some ([], Sample.store)
  /\
  exists s',
    Controller.addWatchExpr (fun e => e) (Provider.initial 0) "d" Sample.store
    = Some ([Provider.SaveState; Provider.Refresh], s') /\
    watch_list s' 0 [1; 2; 3; 5]%nat ["a"; "b"; "c"; "d"]%string.
Proof.
  split.
  - apply (addWatchExpr_keeps_the_watch_list
             (fun e => e) (Provider.initial 0) Sample.store _ _ "b" sample_watch_list).
    right. apply elem_of_cons. right. apply elem_of_cons. by left.
  - apply (addWatchExpr_keeps_the_watch_list
             (fun e => e) (Provider.initial 0) Sample.store _ _ "d" sample_watch_list).
    + reflexivity.
    + apply (bool_decide_unpack _). by vm_compute.
Defined.

Lemma removeChild_in_watch_list s root pre c post names :
  watch_list s root (pre ++ c :: post) names ->
  exists s',
    Node.removeChild root (Some c) s = Some (true, s') /\
    watch_list s' root (pre ++ post) (delete (length pre) names) /\
    (forall k, k <> root -> heap s' !! k = heap s !! k) /\
    idCounter s' = idCounter s.
Proof.
  intros Hw.
  destruct (watch_list_split _ _ _ _ _ _ Hw)
    as (npre & nm & npost & cn & -> & Hlen & Hc & Hname & Hpre & Hpost & Hnotin & Hothers).
  pose proof (watch_list_root_child _ _ _ _ c Hw) as Hrc.
  destruct Hw as (n & Hroot & Hpar & Hcs & Hall & Hnd). subst nm.
  assert (Hrc' : root_child (heap s) c).
  { apply Hrc. apply elem_of_app. right. left. }
  assert (Hbefore : other_names (heap s) (name cn) pre).
  { intros c' Hc'. apply Hothers, elem_of_app. by left. }
  rewrite (removeChild_found s root n c cn pre c cn post Hroot Hc Hrc' Hcs Hbefore Hc eq_refl).
  eexists. split; [reflexivity|].
  split; [|split; [by intros k Hk; simpl; rewrite list_lookup_insert_ne|done]].
  rewrite <- Hlen, delete_middle.
  apply (watch_list_with_children s _ n); [done|done| |].
  - by apply Forall2_app.
  - apply NoDup_app in Hnd as (Hnd1 & Hdisj & Hnd2). apply NoDup_cons in Hnd2 as [_ Hnd2].
    apply NoDup_app. split; [done|]. split; [|done].
    intros x Hx Hx'. apply (Hdisj x Hx). by right.
Qed.

(** X6.  [removeWatchExpr], called with a watch expression, removes it from the
    watch list, changes no object but the root, and asks for the state to
    be saved and shown. *)
Theorem removeWatchExpr_removes_the_expression
        (p : Provider.t) (s : Store) (pre post : list loc) (c : loc)
        (names : list string) :
  watch_list s (Provider.variables p) (pre ++ c :: post) names ->
  exists s',
    Controller.removeWatchExpr p (Some c) s
    = Some ([Provider.SaveState; Provider.UpdateWebview], s') /\
    watch_list s' (Provider.variables p) (pre ++ post) (delete (length pre) names) /\
    forall k, k <> Provider.variables p -> heap s' !! k = heap s !! k.
Proof.
  intros Hw.
  destruct (removeChild_in_watch_list _ _ _ _ _ _ Hw) as (s' & Hrun & Hw' & Hframe & _).
  exists s'. split; [|done]. unfold Controller.removeWatchExpr, Controller.catching.
  by rewrite (bind_run _ _ _ _ _ Hrun).
Qed.

Lemma removeWatchExpr_removes_the_expression_witness :
  exists s',
    Controller.removeWatchExpr (Provider.initial 0) (Some 2%nat) Sample.store
    = Some ([Provider.SaveState; Provider.UpdateWebview], s') /\
    watch_list s' 0 [1; 3]%nat ["a"; "c"]%string /\
    forall k, k <> 0%nat -> heap s' !! k = heap Sample.store !! k.
Proof.
  exact (removeWatchExpr_removes_the_expression
           (Provider.initial 0) Sample.store [1%nat] [3%nat] 2 _ sample_watch_list).
Defined.

Lemma watch_list_middle s root pre c post names :
  watch_list s root (pre ++ c :: post) names ->
  exists cn, heap s !! c = Some cn /\ watch (heap s) root c (name cn).
Proof.
  intros (n & _ & _ & _ & Hall & _).
  apply Forall2_app_inv_l in Hall as (? & ? & _ & Hrest & _).
  apply Forall2_cons_inv_l in Hrest as (nm & ? & (cn & Hc & Hp & Hname & Hexpr) & _).
  exists cn. split; [done|]. exists cn. by rewrite Hname.
Qed.

Lemma parentOf_watch s root c nm :
  watch (heap s) root c nm -> Controller.parentOf (Some c) s = Some (Some root, s).
Proof.
  intros (cn & Hc & Hp & _). unfold Controller.parentOf.
  by rewrite (bind_run _ _ _ _ _ (get_run _ _ _ Hc)), Hp.
Qed.

Lemma NoDup_perm (l k : list string) : l ≡ₚ k -> NoDup l -> NoDup k.
Proof. intros Hp. by rewrite Hp. Qed.

(** Moving a watch expression: what [moveUpChild] and [moveDownChild] of
    the root leave is a watch list again. *)
Lemma moves_in_watch_list s root pre c post names :
  watch_list s root (pre ++ c :: post) names ->
  (exists s' cs' names',
      Node.moveUpChild root (Some c) s = Some (true, s') /\
      watch_list s' root cs' names' /\
      cs' ≡ₚ pre ++ c :: post /\ names' ≡ₚ names)
  /\
  (exists s' cs' names',
      Node.moveDownChild root (Some c) s = Some (true, s') /\
      watch_list s' root cs' names' /\
      cs' ≡ₚ pre ++ c :: post /\ names' ≡ₚ names).
Proof.
  intros Hw.
  destruct (watch_list_split _ _ _ _ _ _ Hw)
    as (npre & nm & npost & cn & -> & Hlen & Hc & Hname & Hpre & Hpost & Hnotin & Hothers).
  assert (Hrc : root_child (heap s) c).
  { apply (watch_list_root_child _ _ _ _ c Hw). apply elem_of_app. right. left. }
  destruct Hw as (n & Hroot & Hpar & Hcs & Hall & Hnd). subst nm.
  assert (Hwc : watch (heap s) root c (name cn)).
  { destruct (watch_list_middle s root pre c post (npre ++ name cn :: npost))
      as (cn' & Hc' & Hwc); [by exists n|]. congruence. }
  assert (Hchildren : children n = Some (pre ++ c :: post)).
  { unfold Node.getChildren in Hcs.
    destruct (children n) as [l|]; simpl in Hcs; [by subst|by destruct pre]. }
  assert (Hfound : found_by_name (heap s) (pre ++ c :: post) (length pre) c).
  { apply (found_by_name_others _ pre c post cn Hc).
    intros c' Hc'. apply Hothers, elem_of_app. by left. }
  split.
  - rewrite (moveUpChild_found s root n pre post c Hroot Hchildren Hrc Hfound).
    destruct pre as [|prev' pre' _] using rev_ind.
    + destruct npre; [|done]. simpl.
      exists (with_children s root n (post ++ [c])), (post ++ [c]), (npost ++ [name cn]).
      split; [done|].
      split; [|split; [apply (Permutation_app_comm post [c])
                      |apply (Permutation_app_comm npost [name cn])]].
      apply watch_list_with_children; [done|done| |].
      * apply Forall2_app; [done|]. by constructor.
      * eapply NoDup_perm; [|exact Hnd]. apply (Permutation_app_comm [name cn] npost).
    + apply Forall2_app_inv_l in Hpre as (npre' & nprev & Hpre' & Hprev & ->).
      apply Forall2_cons_inv_l in Hprev as (nprev' & ? & Hwprev & Hnil & ->).
      apply Forall2_nil_inv_l in Hnil as ->.
      rewrite reverse_app. simpl. rewrite reverse_involutive.
      exists (with_children s root n (pre' ++ c :: prev' :: post)),
        (pre' ++ c :: prev' :: post), (npre' ++ name cn :: nprev' :: npost).
      split; [done|].
      assert (Hperm : npre' ++ name cn :: nprev' :: npost
                      ≡ₚ (npre' ++ [nprev']) ++ name cn :: npost).
      { rewrite <- app_assoc. simpl. apply Permutation_app_head, perm_swap. }
      split; [|split; [|done]].
      * apply watch_list_with_children; [done|done| |].
        -- apply Forall2_app; [done|]. by repeat constructor.
        -- eapply NoDup_perm; [|exact Hnd]. by symmetry.
      * rewrite <- app_assoc. simpl. apply Permutation_app_head, perm_swap.
  - rewrite (moveDownChild_found s root n pre post c Hroot Hchildren Hrc Hfound).
    destruct post as [|next post'].
    + apply Forall2_nil_inv_l in Hpost as ->.
      exists (with_children s root n (c :: pre)), (c :: pre), (name cn :: npre).
      split; [done|].
      split; [|split; [apply (Permutation_app_comm [c] pre)
                      |apply (Permutation_app_comm [name cn] npre)]].
      apply watch_list_with_children; [done|done| |].
      * by constructor.
      * eapply NoDup_perm; [|exact Hnd]. apply (Permutation_app_comm npre [name cn]).
    + apply Forall2_cons_inv_l in Hpost as (nnext & npost' & Hwnext & Hpost' & ->).
      exists (with_children s root n (pre ++ next :: c :: post')),
        (pre ++ next :: c :: post'), (npre ++ nnext :: name cn :: npost').
      split; [done|]. split; [|split; apply Permutation_app_head, perm_swap].
      apply watch_list_with_children; [done|done| |].
      * apply Forall2_app; [done|]. by repeat constructor.
      * eapply NoDup_perm; [|exact Hnd]. apply Permutation_app_head, perm_swap.
Qed.

(** X7.  [moveUpNode] and [moveDownNode], called with a watch expression, move
    it within the children of its parent, the root: what is left is a
    watch list of the same expressions, and the state is saved and shown. *)
Theorem moving_keeps_the_watch_list
        (p : Provider.t) (s : Store) (pre post : list loc) (c : loc)
        (names : list string) :
  watch_list s (Provider.variables p) (pre ++ c :: post) names ->
  (exists s' cs' names',
      Controller.moveUpNode p (Some c) s
      = Some ([Provider.SaveState; Provider.UpdateWebview], s') /\
      watch_list s' (Provider.variables p) cs' names' /\
      cs' ≡ₚ pre ++ c :: post /\ names' ≡ₚ names)
  /\
  (exists s' cs' names',
      Controller.moveDownNode p (Some c) s
      = Some ([Provider.SaveState; Provider.UpdateWebview], s') /\
      watch_list s' (Provider.variables p) cs' names' /\
      cs' ≡ₚ pre ++ c :: post /\ names' ≡ₚ names).
Proof.
  intros Hw.
  assert (Hparent : Controller.parentOf (Some c) s = Some (Some (Provider.variables p), s)).
  { destruct (watch_list_middle _ _ _ _ _ _ Hw) as (cn & _ & Hwc).
    by apply (parentOf_watch _ _ _ (name cn)). }
  destruct (moves_in_watch_list _ _ _ _ _ _ Hw)
    as [(s1 & cs1 & names1 & Hup & Hw1 & Hp1 & Hq1) (s2 & cs2 & names2 & Hdown & Hw2 & Hp2 & Hq2)].
  split.
  - exists s1, cs1, names1. split; [|done]. unfold Controller.moveUpNode.
    by rewrite (bind_run _ _ _ _ _ Hparent), (bind_run _ _ _ _ _ Hup).
  - exists s2, cs2, names2. split; [|done]. unfold Controller.moveDownNode.
    by rewrite (bind_run _ _ _ _ _ Hparent), (bind_run _ _ _ _ _ Hdown).
Qed.

Lemma moving_keeps_the_watch_list_witness :
  (exists s' cs' names',
      Controller.moveUpNode (Provider.initial 0) (Some 1%nat) Sample.store
      = Some ([Provider.SaveState; Provider.UpdateWebview], s') /\
      watch_list s' 0 cs' names' /\
      cs' ≡ₚ [1; 2; 3]%nat /\ names' ≡ₚ ["a"; "b"; "c"]%string)
  /\
  (exists s' cs' names',
      Controller.moveDownNode (Provider.initial 0) (Some 1%nat) Sample.store
      = Some ([Provider.SaveState; Provider.UpdateWebview], s') /\
      watch_list s' 0 cs' names' /\
      cs' ≡ₚ [1; 2; 3]%nat /\ names' ≡ₚ ["a"; "b"; "c"]%string).
Proof.
  exact (moving_keeps_the_watch_list
           (Provider.initial 0) Sample.store [] [2; 3]%nat 1 _ sample_watch_list).
Defined.

Lemma removeEach_empties root cs :
  forall s names,
    watch_list s root cs names ->
    exists s', Controller.removeEach root cs s = Some (tt, s') /\
               watch_list s' root [] [] /\
               forall k, k <> root -> heap s' !! k = heap s !! k.
Proof.
  induction cs as [|c cs IH]; intros s names Hw; simpl.
  - exists s. split; [done|]. split; [|done].
    destruct Hw as (n & Hroot & Hpar & Hcs & Hall & Hnd).
    apply Forall2_nil_inv_l in Hall as ->. by exists n.
  - destruct (removeChild_in_watch_list s root [] c cs names Hw)
      as (s1 & Hrun & Hw1 & Hframe1 & _).
    rewrite (bind_run _ _ _ _ _ Hrun).
    destruct (IH s1 _ Hw1) as (s' & Hrest & Hw' & Hframe).
    exists s'. split; [done|]. split; [done|].
    intros k Hk. by rewrite Hframe, Hframe1.
Qed.

(** X8.  [removeAllExpr] leaves a watch list without expressions, touches no
    object but the root, and asks for the state to be saved and shown
    exactly when there was an expression to remove. *)
Theorem removeAllExpr_empties_the_watch_list
        (p : Provider.t) (s : Store) (cs : list loc) (names : list string) :
  watch_list s (Provider.variables p) cs names ->
  exists s',
    Controller.removeAllExpr p s
    = Some (match cs with
            | [] => []
            | _ => [Provider.SaveState; Provider.UpdateWebview]
            end, s') /\
    watch_list s' (Provider.variables p) [] [] /\
    forall k, k <> Provider.variables p -> heap s' !! k = heap s !! k.
Proof.
  intros Hw. unfold Controller.removeAllExpr.
  destruct (Hw) as (n & Hroot & Hpar & Hcs & Hall & Hnd).
  rewrite (bind_run _ _ _ _ _ (get_run _ _ _ Hroot)), Hcs.
  destruct cs as [|c cs].
  - exists s. simpl. split; [done|]. split; [|done].
    apply Forall2_nil_inv_l in Hall as ->. by exists n.
  - destruct (removeEach_empties _ _ _ _ Hw) as (s' & Hrun & Hw' & Hframe).
    exists s'. change (0 <? length (c :: cs))%nat with true. cbv iota.
    by rewrite (bind_run _ _ _ _ _ Hrun).
Qed.

Lemma removeAllExpr_empties_the_watch_list_witness :
  exists s',
    Controller.removeAllExpr (Provider.initial 0) Sample.store
    = Some ([Provider.SaveState; Provider.UpdateWebview], s') /\
    watch_list s' 0 [] [] /\
    forall k, k <> 0%nat -> heap s' !! k = heap Sample.store !! k.
Proof.
  exact (removeAllExpr_empties_the_watch_list
           (Provider.initial 0) Sample.store _ _ sample_watch_list).
Defined.

(** ** Renaming a watch expression *)

(** [findName] on the root of a watch list finds a child exactly when
    the name is in the list. *)
Lemma findName_in_watch_list s root cs names e :
  watch_list s root cs names ->
  exists r, Node.findName root e s = Some (r, s) /\ (is_Some r <-> e ∈ names).
Proof.
  intros (n & Hroot & _ & Hcs & Hall & _). unfold Node.findName.
  rewrite (bind_run _ _ _ _ _ (get_run _ _ _ Hroot)), Hcs. clear Hcs.
  induction Hall as [|c nm cs names (cn & Hc & _ & Hname & _) _ IH]; simpl.
  - exists None. split; [done|]. split; [by intros []|by intros ?%elem_of_nil].
  - rewrite (bind_run _ _ _ _ _ (get_run _ _ _ Hc)), Hname.
    destruct (String.eqb_spec nm e) as [->|Hne].
    + exists (Some c). split; [done|]. split; [left|eauto].
    + destruct IH as (r & Hrun & Hr). exists r. split; [done|].
      rewrite Hr. split; [by right|]. intros [?|?]%elem_of_cons; congruence.
Qed.

Lemma NoDup_insert_fresh (names : list string) (i : nat) (e : string) :
  NoDup names -> e ∉ names -> NoDup (<[i := e]> names).
Proof.
  intros Hnd Hfresh. apply NoDup_alt. intros j1 j2 x H1 H2.
  destruct (decide (j1 = i)) as [->|Hj1], (decide (j2 = i)) as [->|Hj2]; [done| | |].
  - rewrite list_lookup_insert_ne in H2 by done.
    apply list_lookup_insert_Some in H1 as [(_ & <- & _)|[? _]]; [|done].
    destruct Hfresh. by eapply list_elem_of_lookup_2.
  - rewrite list_lookup_insert_ne in H1 by done.
    apply list_lookup_insert_Some in H2 as [(_ & <- & _)|[? _]]; [|done].
    destruct Hfresh. by eapply list_elem_of_lookup_2.
  - rewrite list_lookup_insert_ne in H1, H2 by done.
    by eapply (proj1 (NoDup_alt names) Hnd).
Qed.

(** [rename] of the watch expression at index [i] to a name that is not
    in the list. *)
Lemma rename_in_watch_list s root cs names i k kn e :
  watch_list s root cs names ->
  cs !! i = Some k -> heap s !! k = Some kn -> names !! i = Some (name kn) ->
  e ∉ names ->
  Node.rename k e s
  = Some (tt, mkStore (<[k := set_name_expr e kn]> (heap s)) (idCounter s))
  /\ watch_list (mkStore (<[k := set_name_expr e kn]> (heap s)) (idCounter s))
                root cs (<[i := e]> names).
Proof.
  intros Hw Hi Hkn Hnm Hfresh.
  assert (Hrc : root_child (heap s) k).
  { apply (watch_list_root_child _ _ _ _ _ Hw). by eapply list_elem_of_lookup_2. }
  destruct Hw as (n & Hroot & Hpar & Hcs & Hall & Hnd).
  assert (Hklt : k < length (heap s)) by (by eapply lookup_lt_Some).
  assert (Hkpar : parent kn = Some root).
  { destruct (Forall2_lookup_l _ _ _ _ _ Hall Hi) as (? & _ & kn' & Hkn' & Hp & _).
    congruence. }
  assert (Hne : k <> root) by (intros ->; congruence).
  split.
  - unfold Node.rename.
    rewrite (bind_run _ _ _ _ _ (isRootChild_root_child _ _ Hrc)). simpl.
    by rewrite (modify_run _ _ _ _ Hkn).
  - exists n. simpl. split; [by rewrite list_lookup_insert_ne|].
    split; [done|]. split; [done|]. split; [|by apply NoDup_insert_fresh].
    apply Forall2_same_length_lookup_2.
    { rewrite length_insert. by eapply Forall2_length. }
    intros j x y Hx Hy. destruct (decide (j = i)) as [->|Hj].
    + assert (x = k) as -> by congruence.
      apply list_lookup_insert_Some in Hy as [(_ & <- & _)|[? _]]; [|done].
      exists (set_name_expr e kn). split; [by apply list_lookup_insert_eq|done].
    + rewrite list_lookup_insert_ne in Hy by done.
      destruct (Forall2_lookup_lr _ _ _ _ _ _ Hall Hx Hy) as (xn & Hxn & Hxp & Hxname & Hxexpr).
      assert (x <> k).
      { intros ->. assert (xn = kn) as -> by congruence.
        apply Hj. eapply (proj1 (NoDup_alt names) Hnd); [exact Hy|]. by rewrite Hnm, Hxname. }
      exists xn. split; [by rewrite list_lookup_insert_ne|done].
Qed.

(** [rename] of a root child that is not in the watch list. *)
Lemma rename_outside_watch_list s root cs names k kn e :
  watch_list s root cs names ->
  root_child (heap s) k -> heap s !! k = Some kn -> k ∉ cs ->
  watch_list (renamed s k kn e) root cs names.
Proof.
  intros (n & Hroot & Hpar & Hcs & Hall & Hnd) (kn' & q & Hkn' & Hq & _) Hkn Hnotin.
  assert (Hne : k <> root) by (intros ->; congruence).
  exists n. simpl. split; [by rewrite list_lookup_insert_ne|].
  split; [done|]. split; [done|]. split; [|done].
  apply Forall2_same_length_lookup_2; [by eapply Forall2_length|].
  intros j x y Hx Hy.
  destruct (Forall2_lookup_lr _ _ _ _ _ _ Hall Hx Hy) as (xn & Hxn & Hrest).
  assert (x <> k) by (intros ->; apply Hnotin; by eapply list_elem_of_lookup_2).
  exists xn. split; [by rewrite list_lookup_insert_ne|done].
Qed.

(** The part the three renaming commands share: the search for the new
    name among the watch expressions, then [rename]. *)
Lemma rename_when_free s root cs names k kn e :
  watch_list s root cs names ->
  root_child (heap s) k -> heap s !! k = Some kn ->
  let run :=
    (let* taken := Node.findName root e in
     match taken with
     | Some _ => ret (already_watched e)
     | None => Node.rename k e ;; ret [Provider.SaveState; Provider.Refresh]
     end) s in
  (e ∈ names -> run = Some (already_watched e, s))
  /\ (e ∉ names ->
      run = Some ([Provider.SaveState; Provider.Refresh], renamed s k kn e) /\
      (forall i, cs !! i = Some k ->
                 watch_list (renamed s k kn e) root cs (<[i := e]> names)) /\
      (k ∉ cs -> watch_list (renamed s k kn e) root cs names)).
Proof.
  intros Hw Hrc Hkn. cbv zeta.
  destruct (findName_in_watch_list _ _ _ _ e Hw) as (taken & Htaken & Hiff).
  rewrite (bind_run _ _ _ _ _ Htaken). split.
  - intros Hin. apply Hiff in Hin as [t ->]. done.
  - intros Hfresh. destruct taken as [t|]; [destruct Hfresh; apply Hiff; by eexists|].
    assert (Hrename : Node.rename k e s = Some (tt, renamed s k kn e)).
    { unfold Node.rename.
      rewrite (bind_run _ _ _ _ _ (isRootChild_root_child _ _ Hrc)). simpl.
      by rewrite (modify_run _ _ _ _ Hkn). }
    rewrite (bind_run _ _ _ _ _ Hrename). split; [done|]. split.
    + intros i Hi.
      assert (Hnm : names !! i = Some (name kn)).
      { destruct Hw as (n & _ & _ & _ & Hall & _).
        destruct (Forall2_lookup_l _ _ _ _ _ Hall Hi) as (nm & Hnm & kn' & Hkn' & _ & Hname & _).
        congruence. }
      by destruct (rename_in_watch_list _ _ _ _ _ _ _ _ Hw Hi Hkn Hnm Hfresh).
    + intros Hnotin. by apply rename_outside_watch_list.
Qed.

(** An object reached in a tree is alive, and so is its parent. *)
Lemma reached_in_tree h l k :
  reaches h l k ->
  forall fuel, tree_within fuel h l ->
  exists n, h !! k = Some n /\ forall p, parent n = Some p -> is_Some (h !! p).
Proof.
  induction 1 as [l|l c k n Hl Hc _ IH]; intros [|fuel]; simpl; try done.
  - intros (n & Hn & Hparent & _). by exists n.
  - intros (n' & Hn' & _ & Hkids). assert (n' = n) as -> by congruence.
    apply (IH fuel). by apply (proj1 (Forall_forall _ _) Hkids).
Qed.

(** [isRootChild] answers true for the root children, and something
    falsy for every other object. *)
Lemma isRootChild_cases s k kn :
  heap s !! k = Some kn ->
  (forall p, parent kn = Some p -> is_Some (heap s !! p)) ->
  (root_child (heap s) k /\ Node.isRootChild k s = Some (Some true, s))
  \/ (~ root_child (heap s) k /\
      exists r, Node.isRootChild k s = Some (r, s) /\ JS.truthy r = false).
Proof.
  intros Hkn Hparent. unfold Node.isRootChild.
  rewrite (bind_run _ _ _ _ _ (get_run _ _ _ Hkn)).
  destruct (parent kn) as [q|] eqn:Hq.
  - destruct (Hparent q eq_refl) as [qn Hqn].
    rewrite (bind_run _ _ _ _ _ (get_run _ _ _ Hqn)).
    destruct (parent qn) as [g|] eqn:Hg.
    + right. split; [|by eexists].
      intros (kn' & q' & Hkn' & Hq' & qn' & Hqn' & Hg'). congruence.
    + left. split; [|done]. exists kn, q. split; [done|]. split; [done|]. by exists qn.
  - right. split; [|by eexists].
    intros (kn' & q' & Hkn' & Hq' & _). congruence.
Qed.

Lemma sample_root_child (k : loc) :
  k ∈ [1; 2; 3]%nat -> root_child (heap Sample.store) k.
Proof.
  intros Hk. apply (watch_list_root_child _ _ _ _ k sample_watch_list Hk).
Qed.

Section Rename.

Variable trim : string -> string.

(** X9.  [handleInlineRename] on a watch list.  An id that no node
    carries, and a node that is not a root child, change nothing and ask
    for nothing.  For a root child, with the new name trimmed: an empty
    name and the name the node has change nothing and ask for nothing; a
    name that is in the list changes nothing and shows the message; any
    other name is given to the node, nothing else changes, a save and a
    refresh are asked for, and the watch list is a watch list again. *)
Theorem handleInlineRename_keeps_the_watch_list
        (fuel : nat) (p : Provider.t) (s : Store) (cs : list loc)
        (names : list string) (nodeId newName : string) :
  watch_list s (Provider.variables p) cs names ->
  tree_within fuel (heap s) (Provider.variables p) ->
  exists found,
    Node.findById fuel (Provider.variables p) nodeId s = Some (found, s) /\
    match found with
    | None => Controller.handleInlineRename trim fuel p nodeId newName s = Some ([], s)
    | Some k =>
        exists kn,
          heap s !! k = Some kn /\
          (~ root_child (heap s) k ->
           Controller.handleInlineRename trim fuel p nodeId newName s = Some ([], s)) /\
          (root_child (heap s) k ->
           rename_outcome s (Provider.variables p) cs names k kn (trim newName)
             (JS.nonempty (trim newName) = false \/ trim newName = name kn)
             (Controller.handleInlineRename trim fuel p nodeId newName s))
    end.
Proof.
  intros Hw Htree.
  destruct (findById_in_tree fuel s _ nodeId Htree) as (found & Hfind & Hsome & _).
  exists found. split; [done|]. unfold Controller.handleInlineRename.
  rewrite (bind_run _ _ _ _ _ Hfind).
  destruct found as [k|]; [|done].
  destruct (Hsome k eq_refl) as [Hreach _].
  destruct (reached_in_tree _ _ _ Hreach fuel Htree) as (kn & Hkn & Hparent).
  exists kn. split; [done|].
  destruct (isRootChild_cases s k kn Hkn Hparent) as [[Hrc Hr]|[Hnot (r & Hr & Hfalse)]].
  - rewrite (bind_run _ _ _ _ _ Hr). simpl.
    rewrite (bind_run _ _ _ _ _ (get_run _ _ _ Hkn)).
    split; [done|]. intros _.
    destruct (rename_when_free _ _ _ _ _ _ (trim newName) Hw Hrc Hkn) as [Htaken Hfree].
    destruct (JS.nonempty (trim newName)) eqn:Hne; simpl.
    + destruct (String.eqb_spec (trim newName) (name kn)) as [Heq|Hdiff].
      * split; [done|]. split; intros Hkept; destruct Hkept; by right.
      * split; [by intros [?|?]|]. split; [by intros _|by intros _].
    + split; [done|]. split; intros Hkept; destruct Hkept; by left.
  - rewrite (bind_run _ _ _ _ _ Hr), Hfalse. simpl. split; [done|].
    intros Hrc. by destruct Hnot.
Qed.

(** X10.  [editNode] shows its input box for a root child, and for no
    other node.  For a root child of a watch list, with what was typed
    trimmed: a box that was dismissed, an empty text and the name the
    node has change nothing and ask for nothing; a name that is in the
    list changes nothing and shows the message; any other name is given
    to the node, nothing else changes, a save and a refresh are asked
    for, and the watch list is a watch list again. *)
Theorem editNode_keeps_the_watch_list
        (p : Provider.t) (s : Store) (cs : list loc) (names : list string)
        (k : loc) (kn : LiveVariableNode) (result : option string) :
  watch_list s (Provider.variables p) cs names ->
  heap s !! k = Some kn ->
  (forall q, parent kn = Some q -> is_Some (heap s !! q)) ->
  (~ root_child (heap s) k -> Controller.editNode k s = Some (false, s))
  /\ (root_child (heap s) k ->
      Controller.editNode k s = Some (true, s) /\
      match result with
      | None => Controller.editNode_answered trim p k None s = Some ([], s)
      | Some r =>
          let e := if JS.nonempty r then trim r else r in
          rename_outcome s (Provider.variables p) cs names k kn e
            (JS.nonempty e = false \/ e = name kn)
            (Controller.editNode_answered trim p k (Some r) s)
      end).
Proof.
  intros Hw Hkn Hparent. unfold Controller.editNode.
  destruct (isRootChild_cases s k kn Hkn Hparent) as [[Hrc Hr]|[Hnot (r' & Hr & Hfalse)]].
  - rewrite (bind_run _ _ _ _ _ Hr). split; [done|]. intros _. split; [done|].
    destruct result as [r|]; [|done]. cbv zeta.
    unfold Controller.editNode_answered.
    set (e := if JS.nonempty r then trim r else r).
    replace (if JS.nonempty r then Some (trim r) else Some r) with (Some e)
      by (subst e; by destruct (JS.nonempty r)).
    rewrite (bind_run _ _ _ _ _ (get_run _ _ _ Hkn)).
    destruct (rename_when_free _ _ _ _ _ _ e Hw Hrc Hkn) as [Htaken Hfree].
    destruct (JS.nonempty e) eqn:Hne; simpl.
    + destruct (String.eqb_spec e (name kn)) as [Heq|Hdiff]; simpl.
      * split; [done|]. split; intros Hkept; destruct Hkept; by right.
      * split; [by intros [?|?]|]. split; [by intros _|by intros _].
    + split; [done|]. split; intros Hkept; destruct Hkept; by left.
  - rewrite (bind_run _ _ _ _ _ Hr), Hfalse. split; [done|].
    intros Hrc. by destruct Hnot.
Qed.

End Rename.

Lemma handleInlineRename_keeps_the_watch_list_witness :
  Controller.handleInlineRename (fun e => e) 3 (Provider.initial 0) "node_2" "d"
                                Sample.store
  = Some ([Provider.SaveState; Provider.Refresh], renamed Sample.store 2 Sample.b "d")
  /\ watch_list (renamed Sample.store 2 Sample.b "d") 0 [1; 2; 3]%nat ["a"; "d"; "c"]
  /\ Controller.handleInlineRename (fun e => e) 3 (Provider.initial 0) "node_2" "c"
                                   Sample.store
     = Some (already_watched "c", Sample.store).
Proof.
  destruct (handleInlineRename_keeps_the_watch_list
              (fun e => e) 3 (Provider.initial 0) Sample.store _ _ "node_2" "d"
              sample_watch_list (proj2 sample_is_a_tree))
    as (found & Hfind & Hd).
  destruct (handleInlineRename_keeps_the_watch_list
              (fun e => e) 3 (Provider.initial 0) Sample.store _ _ "node_2" "c"
              sample_watch_list (proj2 sample_is_a_tree))
    as (found' & Hfind' & Hc).
  assert (found = Some 2%nat) as -> by (vm_compute in Hfind; congruence).
  assert (found' = Some 2%nat) as -> by (vm_compute in Hfind'; congruence).
  assert (Hrc : root_child (heap Sample.store) 2)
    by (apply sample_root_child; right; left).
  destruct Hd as (kn & Hkn & _ & Hd). injection Hkn as <-.
  destruct Hc as (kn & Hkn & _ & Hc). injection Hkn as <-.
  destruct (Hd Hrc) as (_ & _ & Hfree). destruct (Hc Hrc) as (_ & Htaken & _).
  destruct Hfree as (Hrun & Hlist & _).
  { by intros [?|?]. }
  { apply (bool_decide_unpack _). by vm_compute. }
  split; [exact Hrun|]. split; [exact (Hlist 1%nat eq_refl)|].
  apply Htaken; [by intros [?|?]|]. right. right. left.
Defined.

Lemma editNode_keeps_the_watch_list_witness :
  Controller.editNode 2 Sample.store = Some (true, Sample.store)
  /\ Controller.editNode_answered (fun e => e) (Provider.initial 0) 2 (Some "d") Sample.store
     = Some ([Provider.SaveState; Provider.Refresh], renamed Sample.store 2 Sample.b "d")
  /\ watch_list (renamed Sample.store 2 Sample.b "d") 0 [1; 2; 3]%nat ["a"; "d"; "c"]
  /\ Controller.editNode_answered (fun e => e) (Provider.initial 0) 2 (Some "c") Sample.store
     = Some (already_watched "c", Sample.store)
  /\ Controller.editNode 4 Sample.store = Some (false, Sample.store).
Proof.
  assert (Hrc : root_child (heap Sample.store) 2)
    by (apply sample_root_child; right; left).
  assert (Halive : forall q, parent Sample.b = Some q -> is_Some (heap Sample.store !! q))
    by (intros q [= <-]; by eexists).
  destruct (editNode_keeps_the_watch_list
              (fun e => e) (Provider.initial 0) Sample.store _ _ 2 Sample.b (Some "d")
              sample_watch_list eq_refl Halive) as [_ Hd].
  destruct (editNode_keeps_the_watch_list
              (fun e => e) (Provider.initial 0) Sample.store _ _ 2 Sample.b (Some "c")
              sample_watch_list eq_refl Halive) as [_ Hc].
  destruct (editNode_keeps_the_watch_list
              (fun e => e) (Provider.initial 0) Sample.store _ _ 4 Sample.x None
              sample_watch_list eq_refl) as [Hx _].
  { intros q [= <-]. by eexists. }
  destruct (Hd Hrc) as (Hbox & _ & _ & Hfree). destruct (Hc Hrc) as (_ & _ & Htaken & _).
  destruct Hfree as (Hrun & Hlist & _).
  { by intros [?|?]. }
  { apply (bool_decide_unpack _). by vm_compute. }
  split; [exact Hbox|]. split; [exact Hrun|]. split; [exact (Hlist 1%nat eq_refl)|].
  split.
  - apply Htaken; [by intros [?|?]|]. right. right. left.
  - apply Hx. intros (xn & q & Hxn & Hq & qn & Hqn & Hroot).
    injection Hxn as <-. injection Hq as <-. injection Hqn as <-. discriminate.
Defined.

(** X11.  [handleUpdateFormat] on a watch list.  An id that no node
    carries, and a node that is not a root child, change nothing and ask
    for nothing.  For a root child, with the expression of the node
    stripped of its format and followed by the new one: the expression
    the node has changes nothing and asks for nothing; an expression
    that is in the list changes nothing and shows the message; any other
    is given to the node as its name and expression, nothing else
    changes, a save and a refresh are asked for, and the watch list is a
    watch list again. *)
Theorem handleUpdateFormat_keeps_the_watch_list
        (fuel : nat) (p : Provider.t) (s : Store) (cs : list loc)
        (names : list string) (nodeId format : string) :
  watch_list s (Provider.variables p) cs names ->
  tree_within fuel (heap s) (Provider.variables p) ->
  exists found,
    Node.findById fuel (Provider.variables p) nodeId s = Some (found, s) /\
    match found with
    | None => Provider.handleUpdateFormat fuel p nodeId format s = Some ([], s)
    | Some k =>
        exists kn,
          heap s !! k = Some kn /\
          (~ root_child (heap s) k ->
           Provider.handleUpdateFormat fuel p nodeId format s = Some ([], s)) /\
          (root_child (heap s) k ->
           rename_outcome s (Provider.variables p) cs names k kn
             (Provider.formatted (expr kn) format)
             (Provider.formatted (expr kn) format = expr kn)
             (Provider.handleUpdateFormat fuel p nodeId format s))
    end.
Proof.
  intros Hw Htree.
  destruct (findById_in_tree fuel s _ nodeId Htree) as (found & Hfind & Hsome & _).
  exists found. split; [done|]. unfold Provider.handleUpdateFormat.
  rewrite (bind_run _ _ _ _ _ Hfind).
  destruct found as [k|]; [|done].
  destruct (Hsome k eq_refl) as [Hreach _].
  destruct (reached_in_tree _ _ _ Hreach fuel Htree) as (kn & Hkn & Hparent).
  exists kn. split; [done|].
  destruct (isRootChild_cases s k kn Hkn Hparent) as [[Hrc Hr]|[Hnot (r & Hr & Hfalse)]].
  - rewrite (bind_run _ _ _ _ _ Hr). simpl.
    rewrite (bind_run _ _ _ _ _ (get_run _ _ _ Hkn)).
    split; [done|]. intros _.
    destruct (rename_when_free _ _ _ _ _ _ (Provider.formatted (expr kn) format) Hw Hrc Hkn)
      as [Htaken Hfree].
    destruct (String.eqb_spec (Provider.formatted (expr kn) format) (expr kn)) as [Heq|Hdiff].
    + split; [done|]. split; intros Hkept; by destruct Hkept.
    + split; [done|]. split; [by intros _|by intros _].
  - rewrite (bind_run _ _ _ _ _ Hr), Hfalse. simpl. split; [done|].
    intros Hrc. by destruct Hnot.
Qed.

Lemma handleUpdateFormat_keeps_the_watch_list_witness :
  Provider.handleUpdateFormat 3 (Provider.initial 0) "node_2" "x" Sample.store
  = Some ([Provider.SaveState; Provider.Refresh], renamed Sample.store 2 Sample.b "b,x")
  /\ watch_list (renamed Sample.store 2 Sample.b "b,x") 0 [1; 2; 3]%nat ["a"; "b,x"; "c"]
  /\ Provider.handleUpdateFormat 3 (Provider.initial 0) "node_2" "" Sample.store
     = Some ([], Sample.store).
Proof.
  destruct (handleUpdateFormat_keeps_the_watch_list
              3 (Provider.initial 0) Sample.store _ _ "node_2" "x"
              sample_watch_list (proj2 sample_is_a_tree))
    as (found & Hfind & Hx).
  destruct (handleUpdateFormat_keeps_the_watch_list
              3 (Provider.initial 0) Sample.store _ _ "node_2" ""
              sample_watch_list (proj2 sample_is_a_tree))
    as (found' & Hfind' & Hnone).
  assert (found = Some 2%nat) as -> by (vm_compute in Hfind; congruence).
  assert (found' = Some 2%nat) as -> by (vm_compute in Hfind'; congruence).
  assert (Hrc : root_child (heap Sample.store) 2)
    by (apply sample_root_child; right; left).
  destruct Hx as (kn & Hkn & _ & Hx). injection Hkn as <-.
  destruct Hnone as (kn & Hkn & _ & Hnone). injection Hkn as <-.
  destruct (Hx Hrc) as (_ & _ & Hfree). destruct (Hnone Hrc) as (Hkept & _).
  destruct Hfree as (Hrun & Hlist & _).
  { discriminate. }
  { apply (bool_decide_unpack _). by vm_compute. }
  split; [exact Hrun|]. split; [exact (Hlist 1%nat eq_refl)|].
  by apply Hkept.
Defined.

(** ** Collapsing the watch expressions *)

Lemma collapsed_lookup cs h k :
  collapsed cs h !! k
  = (fun x => if bool_decide (k ∈ cs) && JS.truthy (expanded x)
              then set_expanded (Some false) x else x) <$> h !! k.
Proof. unfold collapsed. by rewrite list_lookup_imap. Qed.

Lemma collapsed_step cs h c x :
  h !! c = Some x ->
  collapsed cs (<[c := if JS.truthy (expanded x) then set_expanded (Some false) x else x]> h)
  = collapsed (c :: cs) h.
Proof.
  intros Hc. apply list_eq. intros k. rewrite !collapsed_lookup.
  destruct (decide (k = c)) as [->|Hk].
  - rewrite list_lookup_insert_eq by (by eapply lookup_lt_Some). rewrite Hc. simpl.
    f_equal. assert (Hin : c ∈ c :: cs) by left.
    rewrite (bool_decide_eq_true_2 _ Hin).
    destruct (JS.truthy (expanded x)) eqn:Hx; simpl; by rewrite ?Hx, ?andb_false_r.
  - rewrite list_lookup_insert_ne by done.
    destruct (h !! k) as [y|]; [|done]. simpl. f_equal.
    do 2 case_bool_decide; try done.
    + destruct H0. by right.
    + apply elem_of_cons in H0 as [?|?]; done.
Qed.

(** The loop of [collapseAll], from any value of its flag. *)
Lemma collapseEach_run rest :
  forall changed s,
    Forall (fun c => is_Some (heap s !! c)) rest ->
    Controller.collapseEach rest changed s
    = Some (changed || some_expanded (heap s) rest,
            mkStore (collapsed rest (heap s)) (idCounter s)).
Proof.
  induction rest as [|c rest IH]; intros changed s Halive; simpl.
  - rewrite orb_false_r. unfold ret. f_equal. f_equal. destruct s as [h i]. simpl. f_equal.
    apply list_eq. intros k. rewrite collapsed_lookup.
    destruct (h !! k); [|done]. simpl.
    first [done|case_bool_decide as Hin; [by apply elem_of_nil in Hin|done]].
  - apply Forall_cons in Halive as [[x Hx] Halive].
    rewrite (bind_run _ _ _ _ _ (get_run _ _ _ Hx)), Hx.
    rewrite <- (collapsed_step rest (heap s) c x Hx).
    destruct (JS.truthy (expanded x)) eqn:Hexp.
    + rewrite (bind_run _ _ _ _ _ (modify_run _ _ _ _ Hx)).
      rewrite IH.
      * simpl. by rewrite orb_true_r.
      * simpl. eapply Forall_impl; [exact Halive|]. intros k [y Hy].
        apply lookup_lt_is_Some. rewrite length_insert. by eapply lookup_lt_Some.
    + rewrite IH by done. simpl.
      by rewrite list_insert_id.
Qed.

Lemma collapsed_again cs h : collapsed cs (collapsed cs h) = collapsed cs h.
Proof.
  apply list_eq. intros k. rewrite !collapsed_lookup.
  destruct (h !! k) as [x|]; [|done]. simpl. f_equal.
  case_bool_decide; [|done]. simpl.
  by destruct (JS.truthy (expanded x)) eqn:Hx; simpl; [|rewrite Hx].
Qed.

Lemma collapsed_none_expanded cs h : forall ks,
  ks ⊆ cs -> some_expanded (collapsed cs h) ks = false.
Proof.
  induction ks as [|c ks IH]; intros Hsub; [done|]. simpl.
  rewrite IH by (intros y Hy; apply Hsub; by right).
  rewrite collapsed_lookup. destruct (h !! c) as [x|]; [|done]. simpl.
  case_bool_decide as Hin; [|destruct Hin; apply Hsub; left]. simpl.
  by destruct (JS.truthy (expanded x)) eqn:Hx; simpl; [|rewrite Hx].
Qed.

(** X12.  [collapseAll] collapses every expanded watch expression and changes
    nothing else.  It asks for the state to be saved and shown exactly
    when one of them was expanded, so that a second call in a row changes
    nothing and asks for nothing. *)
Theorem collapseAll_collapses_once
        (p : Provider.t) (s : Store) (n : LiveVariableNode) :
  heap s !! Provider.variables p = Some n ->
  Forall (fun c => is_Some (heap s !! c)) (Node.getChildren n) ->
  let s' := mkStore (collapsed (Node.getChildren n) (heap s)) (idCounter s) in
  Controller.collapseAll p s
  = Some (if some_expanded (heap s) (Node.getChildren n)
          then [Provider.SaveState; Provider.UpdateWebview] else [], s')
  /\ (forall c x, c ∈ Node.getChildren n -> heap s' !! c = Some x ->
                  JS.truthy (expanded x) = false)
  /\ Controller.collapseAll p s' = Some ([], s').
Proof.
  intros Hroot Halive s'. split; [|split].
  - unfold Controller.collapseAll.
    rewrite (bind_run _ _ _ _ _ (get_run _ _ _ Hroot)).
    rewrite (bind_run _ _ _ _ _ (collapseEach_run _ false s Halive)). simpl.
    by destruct (some_expanded (heap s) (Node.getChildren n)).
  - intros c x Hc Hx. subst s'. simpl in Hx. rewrite collapsed_lookup in Hx.
    destruct (heap s !! c) as [y|]; [|done]. simpl in Hx.
    case_bool_decide; [|done]. simpl in Hx.
    destruct (JS.truthy (expanded y)) eqn:Hy; by injection Hx as <-.
  - unfold Controller.collapseAll.
    assert (Hroot' : exists n', heap s' !! Provider.variables p = Some n'
                                /\ Node.getChildren n' = Node.getChildren n).
    { subst s'. simpl. rewrite collapsed_lookup, Hroot. simpl.
      eexists. split; [done|].
      by case_bool_decide; destruct (JS.truthy (expanded n)). }
    destruct Hroot' as (n' & Hroot' & Hcs).
    rewrite (bind_run _ _ _ _ _ (get_run _ _ _ Hroot')), Hcs.
    assert (Halive' : Forall (fun c => is_Some (heap s' !! c)) (Node.getChildren n)).
    { subst s'. simpl. eapply Forall_impl; [exact Halive|]. intros k [y Hy].
      rewrite collapsed_lookup, Hy. by eexists. }
    rewrite (bind_run _ _ _ _ _ (collapseEach_run _ false s' Halive')).
    simpl. rewrite collapsed_again.
    by rewrite collapsed_none_expanded.
Qed.

Lemma collapseAll_collapses_once_witness :
  let s' := mkStore (collapsed [1; 2; 3]%nat (heap Sample.store)) 5 in
  Controller.collapseAll (Provider.initial 0) Sample.store
  = Some ([Provider.SaveState; Provider.UpdateWebview], s')
  /\ (forall c x, c ∈ [1; 2; 3]%nat -> heap s' !! c = Some x ->
                  JS.truthy (expanded x) = false)
  /\ Controller.collapseAll (Provider.initial 0) s' = Some ([], s').
Proof.
  apply (collapseAll_collapses_once (Provider.initial 0) Sample.store Sample.root eq_refl).
  repeat constructor; by eexists.
Defined.

(** ** Resetting the tree *)

Lemma reset_in_lookup ks v h k :
  reset_in ks v h !! k
  = (fun x => if bool_decide (k ∈ ks) then reset_node v x else x) <$> h !! k.
Proof. unfold reset_in. by rewrite list_lookup_imap. Qed.

Lemma reset_node_again v x : reset_node v (reset_node v x) = reset_node v x.
Proof. by destruct v. Qed.

Lemma getChildren_reset_node v x : Node.getChildren (reset_node v x) = Node.getChildren x.
Proof. by destruct v. Qed.

Lemma parent_reset_node v x : parent (reset_node v x) = parent x.
Proof. by destruct v. Qed.

Lemma reset_in_app ks1 ks2 v h :
  reset_in ks2 v (reset_in ks1 v h) = reset_in (ks1 ++ ks2) v h.
Proof.
  apply list_eq. intros k. rewrite !reset_in_lookup.
  destruct (h !! k) as [x|]; [|done]. simpl. f_equal.
  destruct (decide (k ∈ ks1)) as [H1|H1], (decide (k ∈ ks2)) as [H2|H2];
    rewrite ?(bool_decide_eq_true_2 _ H1), ?(bool_decide_eq_false_2 _ H1),
            ?(bool_decide_eq_true_2 _ H2), ?(bool_decide_eq_false_2 _ H2).
  - rewrite bool_decide_eq_true_2 by (apply elem_of_app; by left).
    apply reset_node_again.
  - by rewrite bool_decide_eq_true_2 by (apply elem_of_app; by left).
  - by rewrite bool_decide_eq_true_2 by (apply elem_of_app; by right).
  - by rewrite bool_decide_eq_false_2 by (by intros [?|?]%elem_of_app).
Qed.

Lemma reset_in_one l v h n :
  h !! l = Some n -> <[l := reset_node v n]> h = reset_in [l] v h.
Proof.
  intros Hl. apply list_eq. intros k. rewrite reset_in_lookup.
  destruct (decide (k = l)) as [->|Hk].
  - rewrite list_lookup_insert_eq by (by eapply lookup_lt_Some). rewrite Hl. simpl.
    by rewrite bool_decide_eq_true_2 by left.
  - rewrite list_lookup_insert_ne by done.
    destruct (h !! k); [|done]. simpl.
    by rewrite bool_decide_eq_false_2 by (by intros ?%list_elem_of_singleton).
Qed.

Lemma below_reset_in ks v h fuel :
  forall l, below fuel (reset_in ks v h) l = below fuel h l.
Proof.
  induction fuel as [|fuel IH]; intros l; simpl; [done|].
  rewrite reset_in_lookup. destruct (h !! l) as [n|]; [|done]. simpl.
  f_equal.
  replace (Node.getChildren (if bool_decide (l ∈ ks) then reset_node v n else n))
    with (Node.getChildren n)
    by (by destruct (bool_decide (l ∈ ks)); rewrite ?getChildren_reset_node).
  apply flat_map_ext. intros c. apply IH.
Qed.

Lemma tree_within_reset_in ks v h fuel :
  forall l, tree_within fuel h l -> tree_within fuel (reset_in ks v h) l.
Proof.
  induction fuel as [|fuel IH]; intros l; simpl; [done|].
  intros (n & Hn & Hpar & Hkids).
  exists (if bool_decide (l ∈ ks) then reset_node v n else n).
  split; [by rewrite reset_in_lookup, Hn|]. split.
  - intros p Hp. rewrite reset_in_lookup.
    destruct (Hpar p) as [pn Hpn].
    + by destruct (bool_decide (l ∈ ks)); rewrite ?parent_reset_node in Hp.
    + rewrite Hpn. by eexists.
  - replace (Node.getChildren (if bool_decide (l ∈ ks) then reset_node v n else n))
      with (Node.getChildren n)
      by (by destruct (bool_decide (l ∈ ks)); rewrite ?getChildren_reset_node).
    eapply Forall_impl; [exact Hkids|]. intros c. apply IH.
Qed.

(** The traversal visits exactly the objects reached through
    [children]. *)
Lemma below_reaches h fuel l k :
  tree_within fuel h l -> k ∈ below fuel h l <-> reaches h l k.
Proof.
  intros Htree. split.
  - revert l Htree. induction fuel as [|fuel IH]; intros l; simpl; [done|].
    intros (n & Hn & _ & Hkids). rewrite Hn.
    intros [->|Hin]%elem_of_cons; [constructor|].
    apply list_elem_of_In, in_flat_map in Hin as (c & Hc & Hk).
    apply list_elem_of_In in Hc, Hk.
    apply (reaches_below h l c k n Hn Hc). apply IH; [|done].
    by apply (proj1 (Forall_forall _ _) Hkids).
  - intros Hreach. revert fuel Htree.
    induction Hreach as [l|l c k n Hl Hc _ IH]; intros [|fuel]; simpl; try done.
    + intros (n & Hn & _). rewrite Hn. left.
    + intros (n' & Hn' & _ & Hkids). rewrite Hn'. right.
      assert (n' = n) as -> by congruence.
      apply list_elem_of_In, in_flat_map. exists c.
      split; apply list_elem_of_In; [done|].
      apply IH. by apply (proj1 (Forall_forall _ _) Hkids).
Qed.

(** [reset], as a function of the store it starts from. *)
Lemma reset_run v fuel :
  forall l s,
    tree_within fuel (heap s) l ->
    LiveNode.reset fuel l v s
    = Some (tt, mkStore (reset_in (below fuel (heap s) l) v (heap s)) (idCounter s)).
Proof.
  induction fuel as [|fuel IH]; intros l s; simpl; [done|].
  intros (n & Hn & _ & Hkids). rewrite Hn.
  rewrite (bind_run _ _ _ _ _ (modify_run _ _ _ _ Hn)).
  set (h := heap s) in *.
  assert (Hfirst : exists s1,
             (if v
              then modify l LiveNode.clear_values
              else ret tt)
               (mkStore (<[l := set_session None n]> h) (idCounter s))
             = Some (tt, s1)
             /\ heap s1 = reset_in [l] v h /\ idCounter s1 = idCounter s).
  { assert (Hl : (<[l := set_session None n]> h) !! l = Some (set_session None n))
      by (apply list_lookup_insert_eq; by eapply lookup_lt_Some).
    destruct v.
    - eexists. split; [by apply modify_run|]. simpl. split; [|done].
      rewrite list_insert_insert_eq. by apply (reset_in_one l true h n).
    - eexists. split; [done|]. simpl. split; [|done].
      by apply (reset_in_one l false h n). }
  destruct Hfirst as (s1 & Hrun1 & Hheap1 & Hid1).
  rewrite (bind_run _ _ _ _ _ Hrun1).
  assert (Hl1 : heap s1 !! l = Some (reset_node v n)).
  { rewrite Hheap1, reset_in_lookup. fold h in Hn. rewrite Hn. simpl.
    by rewrite bool_decide_eq_true_2 by left. }
  rewrite (bind_run _ _ _ _ _ (get_run _ _ _ Hl1)), getChildren_reset_node.
  rewrite <- Hid1.
  assert (Hloop : forall rest acc s0,
             heap s0 = reset_in acc v h ->
             Forall (tree_within fuel h) rest ->
             (fix loop (rest : list nat) : M unit :=
                match rest with
                | [] => ret tt
                | child :: rest' => LiveNode.reset fuel child v ;; loop rest'
                end) rest s0
             = Some (tt, mkStore (reset_in (acc ++ flat_map (below fuel h) rest) v h)
                                 (idCounter s0))).
  { induction rest as [|c rest IHrest]; intros acc s0 Hs0 Hrest.
    - simpl. rewrite app_nil_r, <- Hs0. by destruct s0.
    - apply Forall_cons in Hrest as [Hc Hrest].
      rewrite (bind_run _ _ _ _ _ (IH c s0 ltac:(rewrite Hs0; by apply tree_within_reset_in))).
      rewrite (IHrest (acc ++ below fuel h c)); [|simpl|done].
      + simpl. by rewrite app_assoc.
      + by rewrite Hs0, below_reset_in, reset_in_app. }
  apply (Hloop _ [l] s1 Hheap1 Hkids).
Qed.



(** X14.  After [reset], no object of the tree asks the debugger for its
    children: [refreshChildren] resolves at once, whatever the session,
    and [expandChildren] after [reset(true)] marks the object expanded
    without a request. *)
Theorem reset_silences_the_tree
        (fuel : nat) (s : Store) (l : loc) (valuesToo : bool) :
  tree_within fuel (heap s) l ->
  exists s',
    LiveNode.reset fuel l valuesToo s = Some (tt, s') /\
    forall k session,
      reaches (heap s) l k ->
      Node.refreshChildren k session s' = Some (Node.Resolved, s') /\
      (valuesToo = true ->
       exists s'', LiveNode.expandChildren k session s' = Some (Node.Resolved, s'') /\
                   exists x, heap s'' !! k = Some x /\ expanded x = Some true).
Proof.
  intros Htree. eexists. split; [by apply reset_run|].
  intros k session Hreach.
  set (s' := mkStore _ _).
  assert (Hk : exists x, heap s !! k = Some x /\ heap s' !! k = Some (reset_node valuesToo x)).
  { assert (Hin : k ∈ below fuel (heap s) l) by (by apply below_reaches).
    assert (Hx : is_Some (heap s !! k)).
    { clear -Htree Hin. revert l Htree Hin.
      induction fuel as [|fuel IH]; intros l; simpl; [done|].
      intros (n & Hn & _ & Hkids). rewrite Hn.
      intros [->|Hin]%elem_of_cons; [by eexists|].
      apply list_elem_of_In, in_flat_map in Hin as (c & Hc & Hk).
      apply list_elem_of_In in Hc, Hk.
      apply (IH c); [|done]. by apply (proj1 (Forall_forall _ _) Hkids). }
    destruct Hx as [x Hx]. exists x. split; [done|].
    subst s'. simpl. rewrite reset_in_lookup, Hx. simpl.
    by rewrite bool_decide_eq_true_2. }
  destruct Hk as (x & Hx & Hx'). split.
  - unfold Node.refreshChildren.
    rewrite (bind_run _ _ _ _ _ (get_run _ _ _ Hx')).
    destruct session as [σ|]; [|done].
    rewrite (bool_decide_eq_true_2 (is_Some (Some σ))) by (by eexists).
    rewrite bool_decide_eq_false_2; [done|]. by destruct valuesToo.
  - intros ->. unfold LiveNode.expandChildren.
    rewrite (bind_run _ _ _ _ _ (modify_run _ _ _ _ Hx')). simpl.
    assert (Hklt : k < length (heap s')) by (by eapply lookup_lt_Some).
    erewrite bind_run; [|apply modify_run; simpl; by apply list_lookup_insert_eq].
    simpl. rewrite list_insert_insert_eq.
    unfold Node.refreshChildren.
    erewrite bind_run; [|apply get_run; simpl; by apply list_lookup_insert_eq].
    simpl. rewrite ?andb_false_r.
    destruct (negb _ || negb _); eexists; (split; [done|]); simpl;
      eexists; (split; [by apply list_lookup_insert_eq|done]).
Qed.

Lemma reset_silences_the_tree_witness :
  exists s',
    LiveNode.reset 3 0 true Sample.store = Some (tt, s') /\
    forall k session,
      reaches (heap Sample.store) 0 k ->
      Node.refreshChildren k session s' = Some (Node.Resolved, s') /\
      (true = true ->
       exists s'', LiveNode.expandChildren k session s' = Some (Node.Resolved, s'') /\
                   exists x, heap s'' !! k = Some x /\ expanded x = Some true).
Proof.
  exact (reset_silences_the_tree 3 Sample.store 0 true (proj2 sample_is_a_tree)).
Defined.

(** ** The polling timer *)

Lemma lt_false (a b : Q) : Lifecycle.lt a b = false -> (b <= a)%Q.
Proof.
  unfold Lifecycle.lt. intros H. apply negb_false_iff in H. by apply Qle_bool_iff.
Qed.

Lemma startTimer_sane (p : Provider.t) (subtract : Q) :
  is_Some (Provider.session p) ->
  (0 <= subtract)%Q -> (subtract <= Provider.timeoutMs p)%Q ->
  timer_sane (Provider.startTimer p subtract).
Proof.
  intros Hs H0 H1. unfold timer_sane. simpl. split; [done|]. split; lra.
Qed.

Lemma restart_sane (p : Provider.t) (restartTimer : bool) (elapsed : Q) :
  period_bounded p -> timer_sane p ->
  period_bounded (Lifecycle.restart p restartTimer elapsed)
  /\ timer_sane (Lifecycle.restart p restartTimer elapsed).
Proof.
  intros [Hlo Hhi] Hsane. unfold Lifecycle.restart.
  destruct (negb (Provider.isStopped p) && restartTimer) ; simpl; [|done].
  case_bool_decide as Hs; simpl; [|done].
  split; [done|]. apply startTimer_sane; [done| |].
  - destruct (Lifecycle.lt elapsed 0) eqn:H0; simpl; [done|].
    destruct (Lifecycle.lt (Provider.timeoutMs p) elapsed); [done|].
    by apply lt_false.
  - destruct (Lifecycle.lt elapsed 0) eqn:H0; simpl; [lra|].
    destruct (Lifecycle.lt (Provider.timeoutMs p) elapsed) eqn:H1; [lra|].
    by apply lt_false.
Qed.

Lemma refresh_sane (p : Provider.t) (s : option DebugSession.t) (restartTimer : bool)
      (st : Store) (n : LiveVariableNode) :
  heap st !! Provider.variables p = Some n ->
  period_bounded p -> timer_sane p ->
  exists p' effects,
    Lifecycle.refresh p s restartTimer st = Some ((p', effects), st) /\
    Provider.variables p' = Provider.variables p /\
    period_bounded p' /\ timer_sane p'.
Proof.
  intros Hroot Hp Hsane. unfold Lifecycle.refresh.
  destruct s as [s'|]; [|by exists p, [Lifecycle.Now Provider.UpdateWebview]].
  destruct (Lifecycle.isSameSession p (Some s'));
    [|by exists p, [Lifecycle.Now Provider.UpdateWebview]].
  rewrite (bind_run _ _ _ _ _ (get_run _ _ _ Hroot)).
  destruct (length (Node.getChildren n) =? 0)%nat; [|by eexists _, _].
  eexists _, _. split; [done|]. split.
  - unfold Lifecycle.restart. by destruct (_ && _).
  - by apply restart_sane.
Qed.

Lemma isSameSession_session (p : Provider.t) (s : option DebugSession.t) :
  Lifecycle.isSameSession p s = true -> is_Some (Provider.session p).
Proof. unfold Lifecycle.isSameSession. destruct s, (Provider.session p); by eauto. Qed.

Lemma step_sane (p : Provider.t) (e : Lifecycle.Event) (st : Store) (n : LiveVariableNode) :
  heap st !! Provider.variables p = Some n ->
  period_bounded p -> timer_sane p ->
  exists p' effects,
    Lifecycle.step p e st = Some ((p', effects), st) /\
    Provider.variables p' = Provider.variables p /\
    period_bounded p' /\ timer_sane p'.
Proof.
  intros Hroot Hp Hsane. destruct e as [s|s|s|s| | |restartTimer elapsed|configured]; simpl.
  - unfold Provider.debugSessionStarted.
    destruct (negb _); [by eexists _, _|].
    destruct (Provider.session p); [by eexists _, _|].
    eexists _, _. split; [done|]. split; [done|].
    assert (Hperiod : (50 <= 1000 / Qmax 1 (Qmin 20 (default 4
                          match DebugSession.liveWatch s with
                          | Some liveWatch => LiveWatchConfig.samplesPerSecond liveWatch
                          | None => None
                          end)))%Q
                      /\ (1000 / Qmax 1 (Qmin 20 (default 4
                          match DebugSession.liveWatch s with
                          | Some liveWatch => LiveWatchConfig.samplesPerSecond liveWatch
                          | None => None
                          end)) <= 1000)%Q)
      by (apply period_of_clamped; apply clamped_samples).
    split; [exact Hperiod|].
    apply startTimer_sane; simpl; [by eexists|done|]. destruct Hperiod. lra.
  - unfold Lifecycle.debugSessionTerminated.
    destruct (Lifecycle.isSameSession p (Some s)); by eexists _, _.
  - unfold Lifecycle.debugStopped.
    destruct (Lifecycle.isSameSession p (Some s)); by eexists _, _.
  - unfold Lifecycle.debugContinued.
    destruct (Lifecycle.isSameSession p (Some s)) eqn:Hsame; [|by eexists _, _].
    eexists _, _. split; [done|]. split; [done|]. split; [done|].
    destruct Hp. apply startTimer_sane; simpl; [|done|lra].
    by eapply isSameSession_session.
  - destruct (Provider.timeout p) eqn:Ht; [|by eexists _, _].
    unfold Lifecycle.timerFired.
    destruct (Provider.session (Lifecycle.killTimer p)) as [s|] eqn:Hs;
      [|by eexists _, _].
    by apply (refresh_sane (Lifecycle.killTimer p) (Some s) true st n).
  - unfold Lifecycle.refreshIfIdle.
    destruct (Provider.timeout p) eqn:Ht; [by eexists _, _|].
    by apply (refresh_sane p _ false st n).
  - eexists _, _. split; [done|]. split.
    + unfold Lifecycle.restart. by destruct (_ && _).
    + by apply restart_sane.
  - by eexists _, _.
Qed.

(** X15.  The polling timer stays sane, whatever happens to the controller and
    whatever the watch list holds when it happens: at first, and after
    every event that starts from such a state, the polling period is
    between 50 ms and 1000 ms, and a pending polling timer belongs to a
    session and has a delay between zero and the period. *)
Theorem the_polling_timer_stays_sane
        (p : Provider.t) (e : Lifecycle.Event) (st : Store) (n : LiveVariableNode) :
  (forall root, period_bounded (Provider.initial root) /\ timer_sane (Provider.initial root))
  /\ (heap st !! Provider.variables p = Some n ->
      period_bounded p -> timer_sane p ->
      exists p' effects,
        Lifecycle.step p e st = Some ((p', effects), st) /\
        Provider.variables p' = Provider.variables p /\
        period_bounded p' /\ timer_sane p').
Proof.
  split.
  - intros root. split; [|done]. split; discriminate.
  - intros Hroot Hp Hsane.
    destruct (step_sane p e st n Hroot Hp Hsane) as (p' & effects & Hstep & Hrest).
    by exists p', effects.
Qed.

Lemma the_polling_timer_stays_sane_witness :
  let p := fst (Provider.debugSessionStarted (Provider.initial 0) Sessions.second) in
  exists p' effects,
    Lifecycle.step p (Lifecycle.Refreshed true 30) Sample.store
    = Some ((p', effects), Sample.store) /\
    Provider.variables p' = 0%nat /\
    period_bounded p' /\ timer_sane p'.
Proof.
  apply (the_polling_timer_stays_sane
           (fst (Provider.debugSessionStarted (Provider.initial 0) Sessions.second))
           (Lifecycle.Refreshed true 30) Sample.store Sample.root).
  - reflexivity.
  - split; [|discriminate]. vm_compute. discriminate.
  - split; [by eexists|]. split; vm_compute; discriminate.
Defined.

Ltac not_among :=
  let Hin := fresh "Hin" in
  intros ? Hin;
  repeat (apply elem_of_cons in Hin as [Hin|Hin]; [discriminate|]);
  by apply elem_of_nil in Hin.

Lemma quiet_step (p : Provider.t) (e : Lifecycle.Event) (st : Store) (n : LiveVariableNode) :
  heap st !! Provider.variables p = Some n ->
  quiet e = true ->
  Provider.timeout p = None -> Provider.isStopped p = true ->
  exists p' effects,
    Lifecycle.step p e st = Some ((p', effects), st) /\
    Provider.variables p' = Provider.variables p /\
    Provider.timeout p' = None /\ Provider.isStopped p' = true /\
    forall session, Lifecycle.LiveCacheRefresh session true ∉ effects.
Proof.
  intros Hroot Hquiet Ht Hstopped.
  destruct e as [s|s|s|s| | |restartTimer elapsed|configured]; simpl; try done.
  - unfold Lifecycle.debugSessionTerminated.
    destruct (Lifecycle.isSameSession p (Some s));
      eexists _, _; (split; [done|]); repeat (split; [done|]); not_among.
  - unfold Lifecycle.debugStopped.
    destruct (Lifecycle.isSameSession p (Some s));
      eexists _, _; (split; [done|]); repeat (split; [done|]); not_among.
  - rewrite Ht. eexists _, _. split; [done|]. repeat (split; [done|]). not_among.
  - unfold Lifecycle.refreshIfIdle, Lifecycle.refresh. rewrite Ht.
    destruct (Provider.session p) as [s|];
      [|eexists _, _; (split; [done|]); repeat (split; [done|]); not_among].
    destruct (Lifecycle.isSameSession p (Some s));
      [|eexists _, _; (split; [done|]); repeat (split; [done|]); not_among].
    rewrite (bind_run _ _ _ _ _ (get_run _ _ _ Hroot)).
    destruct (length (Node.getChildren n) =? 0)%nat;
      [|eexists _, _; (split; [done|]); repeat (split; [done|]); not_among].
    eexists _, _. split; [done|]. unfold Lifecycle.restart.
    rewrite andb_false_r. simpl. repeat (split; [done|]). not_among.
  - eexists _, _. split; [done|]. unfold Lifecycle.restart. rewrite Hstopped. simpl.
    repeat (split; [done|]). not_among.
  - eexists _, _. split; [done|]. repeat (split; [done|]). not_among.
Qed.

(** X16.  Once the watched session has stopped, the target is not polled:
    [debugStopped] clears the polling timer and asks for one refresh,
    250 ms later; and from a state in which the target is stopped and no
    timer is pending, every event but the start of a session and the
    resumption of the target leaves it so, and asks for no refresh that
    restarts the timer. *)
Theorem a_stopped_target_is_not_polled
        (p : Provider.t) (s : DebugSession.t) :
  Lifecycle.isSameSession p (Some s) = true ->
  snd (Lifecycle.debugStopped p s) = [Lifecycle.After 250 Lifecycle.RefreshIfIdle]
  /\ Provider.timeout (fst (Lifecycle.debugStopped p s)) = None
  /\ Provider.isStopped (fst (Lifecycle.debugStopped p s)) = true
  /\ forall (q : Provider.t) (e : Lifecycle.Event) (st : Store) (n : LiveVariableNode),
       quiet e = true ->
       heap st !! Provider.variables q = Some n ->
       Provider.timeout q = None -> Provider.isStopped q = true ->
       exists q' effects,
         Lifecycle.step q e st = Some ((q', effects), st) /\
         Provider.timeout q' = None /\ Provider.isStopped q' = true /\
         forall session, Lifecycle.LiveCacheRefresh session true ∉ effects.
Proof.
  intros Hsame. unfold Lifecycle.debugStopped. rewrite Hsame.
  split; [done|]. split; [done|]. split; [done|].
  intros q e st n Hquiet Hroot Ht Hstopped.
  destruct (quiet_step q e st n Hroot Hquiet Ht Hstopped)
    as (q' & effects & Hstep & _ & Ht' & Hstopped' & Hno).
  by exists q', effects.
Qed.

Lemma a_stopped_target_is_not_polled_witness :
  let p := Provider.startTimer
             (Provider.mk 0 (Some Sessions.first) None 250 false 300) 0 in
  snd (Lifecycle.debugStopped p Sessions.first)
  = [Lifecycle.After 250 Lifecycle.RefreshIfIdle]
  /\ Provider.timeout (fst (Lifecycle.debugStopped p Sessions.first)) = None
  /\ Provider.isStopped (fst (Lifecycle.debugStopped p Sessions.first)) = true.
Proof.
  destruct (a_stopped_target_is_not_polled
              (Provider.startTimer (Provider.mk 0 (Some Sessions.first) None 250 false 300) 0)
              Sessions.first eq_refl) as (Heffects & Htimer & Hstopped & _).
  split; [exact Heffects|]. split; [exact Htimer|exact Hstopped].
Defined.

(** ** Expanding and collapsing a node *)

(** An object reached in a tree is alive, and so are its children. *)
Lemma reached_is_alive h l k :
  reaches h l k ->
  forall fuel, tree_within fuel h l ->
  exists n, h !! k = Some n /\ Forall (fun c => is_Some (h !! c)) (Node.getChildren n).
Proof.
  induction 1 as [l|l c k n Hl Hc _ IH]; intros [|fuel]; simpl; try done.
  - intros (n & Hn & _ & Hkids). exists n. split; [done|].
    eapply Forall_impl; [exact Hkids|]. intros c Hc.
    destruct fuel; [done|]. destruct Hc as (cn & Hcn & _). by eexists.
  - intros (n' & Hn' & _ & Hkids). assert (n' = n) as -> by congruence.
    apply (IH fuel). by apply (proj1 (Forall_forall _ _) Hkids).
Qed.

(** X17.  [toggleNode] flips the node that [findById] answers, from expanded to
    collapsed or back, and touches no other object.  It asks the debugger
    for the children only when it expands a node with a positive
    reference while a session is attached; in every other case the state
    is saved and shown at once. *)
Theorem toggleNode_flips_the_node
        (fuel : nat) (p : Provider.t) (s : Store) (nodeId : string) :
  tree_within fuel (heap s) (Provider.variables p) ->
  exists found r s',
    Node.findById fuel (Provider.variables p) nodeId s = Some (found, s) /\
    Controller.toggleNode fuel p nodeId s = Some (r, s') /\
    match found with
    | None => r = Controller.NotFound /\ s' = s
    | Some k =>
        exists x x',
          heap s !! k = Some x /\ heap s' !! k = Some x' /\
          JS.truthy (expanded x') = negb (JS.truthy (expanded x)) /\
          (forall j, j <> k -> heap s' !! j = heap s !! j) /\
          if negb (JS.truthy (expanded x))
             && bool_decide (is_Some (Provider.session p))
             && (0 <? variablesReference x)%Z
          then exists oldStateMap,
                 r = Controller.Requested (variablesReference x) oldStateMap
          else r = Controller.Toggled [Provider.SaveState; Provider.UpdateWebview]
    end.
Proof.
  intros Htree.
  destruct (findById_in_tree fuel s _ nodeId Htree) as (found & Hfind & Hsome & _).
  exists found. unfold Controller.toggleNode. rewrite (bind_run _ _ _ _ _ Hfind).
  destruct found as [k|]; [|by exists Controller.NotFound, s].
  destruct (Hsome k eq_refl) as [Hreach _].
  destruct (reached_is_alive _ _ _ Hreach fuel Htree) as (x & Hx & Hkids).
  assert (Hklt : k < length (heap s)) by (by eapply lookup_lt_Some).
  rewrite (bind_run _ _ _ _ _ (get_run _ _ _ Hx)).
  destruct (JS.truthy (expanded x)) eqn:Hexp; simpl.
  - rewrite (bind_run _ _ _ _ _ (modify_run _ _ _ _ Hx)).
    eexists _, _. split; [done|]. split; [done|].
    exists x, (set_expanded (Some false) x). rewrite Hexp. simpl.
    split; [done|]. split; [by apply list_lookup_insert_eq|]. split; [done|].
    split; [|done]. intros j Hj. by apply list_lookup_insert_ne.
  - destruct (Provider.session p) as [active|] eqn:Hsession.
    + unfold LiveNode.expandChildren.
      rewrite bind_assoc, (bind_run _ _ _ _ _ (modify_run _ _ _ _ Hx)). simpl.
      rewrite bind_assoc.
      erewrite bind_run; [|apply modify_run; simpl; by apply list_lookup_insert_eq].
      simpl. rewrite list_insert_insert_eq.
      unfold Node.refreshChildren. rewrite bind_assoc.
      erewrite bind_run; [|apply get_run; simpl; by apply list_lookup_insert_eq].
      simpl.
      rewrite (bool_decide_eq_true_2
                 (Some (DebugSession.ref active) = Some (DebugSession.ref active))) by done.
      simpl.
      set (x' := set_session (Some (DebugSession.ref active)) (set_expanded (Some true) x)).
      set (s1 := mkStore (<[k := x']> (heap s)) (idCounter s)).
      destruct (0 <? variablesReference x)%Z eqn:Href.
      * destruct (saveStates_run s1 (Node.getChildren x) SaveVarStateMap.empty)
          as (m & Hm).
        { eapply Forall_impl; [exact Hkids|]. intros c [cn Hc]. simpl.
          apply lookup_lt_is_Some. rewrite length_insert. by eapply lookup_lt_Some. }
        change (Node.getChildren x') with (Node.getChildren x).
        rewrite bind_assoc, (bind_run _ _ _ _ _ Hm). simpl.
        eexists _, _. split; [done|]. split; [done|].
        exists x, x'. rewrite Hexp, Href. simpl.
        split; [done|]. split; [by apply list_lookup_insert_eq|].
        split; [done|]. split; [|by exists m].
        intros j Hj. by apply list_lookup_insert_ne.
      * simpl. eexists _, _. split; [done|]. split; [done|].
        exists x, x'. rewrite Hexp, Href. simpl.
        split; [done|]. split; [by apply list_lookup_insert_eq|].
        split; [done|]. split; [|done].
        intros j Hj. by apply list_lookup_insert_ne.
    + rewrite (bind_run _ _ _ _ _ (modify_run _ _ _ _ Hx)).
      eexists _, _. split; [done|]. split; [done|].
      exists x, (set_expanded (Some true) x). rewrite Hexp. simpl.
      split; [done|]. split; [by apply list_lookup_insert_eq|]. split; [done|].
      split; [|done]. intros j Hj. by apply list_lookup_insert_ne.
Qed.

Lemma toggleNode_flips_the_node_witness :
  exists found r s',
    Node.findById 3 0 "node_1" Sample.store = Some (found, Sample.store) /\
    Controller.toggleNode 3 (Provider.initial 0) "node_1" Sample.store = Some (r, s') /\
    match found with
    | None => r = Controller.NotFound /\ s' = Sample.store
    | Some k =>
        exists x x',
          heap Sample.store !! k = Some x /\ heap s' !! k = Some x' /\
          JS.truthy (expanded x') = negb (JS.truthy (expanded x)) /\
          (forall j, j <> k -> heap s' !! j = heap Sample.store !! j) /\
          if negb (JS.truthy (expanded x))
             && bool_decide (is_Some (Provider.session (Provider.initial 0)))
             && (0 <? variablesReference x)%Z
          then exists oldStateMap,
                 r = Controller.Requested (variablesReference x) oldStateMap
          else r = Controller.Toggled [Provider.SaveState; Provider.UpdateWebview]
    end.
Proof.
  exact (toggleNode_flips_the_node 3 (Provider.initial 0) Sample.store "node_1"
           (proj2 sample_is_a_tree)).
Defined.

(** ** The webview: formats and searches *)

Lemma currentFormat_appended (e : string) (c : ascii) :
  Provider.isFormatLetter c = true ->
  Page.currentFormat (e +:+ "," +:+ String c "") = String c "".
Proof.
  intros Hc. induction e as [|a e IH].
  - simpl. by rewrite Hc.
  - change (String a e +:+ "," +:+ String c "")
      with (String a (e +:+ "," +:+ String c "")).
    simpl. rewrite IH. by destruct e as [|b [|b' e']].
Qed.

(** X18.  The context menu and [handleUpdateFormat] agree on what the format of
    a name is.  A name is the expression [handleUpdateFormat] strips it
    to, followed by the format the menu reads off it; and the menu reads,
    off the name that [handleUpdateFormat] computes for a format letter,
    that letter. *)
Theorem the_menu_reads_the_format_back (name : string) (c : ascii) :
  name = Provider.stripFormat name +:+ format_suffix (Page.currentFormat name)
  /\ (Provider.isFormatLetter c = true ->
      Page.currentFormat (Provider.formatted name (String c "")) = String c "").
Proof.
  split.
  - induction name as [|a rest IH]; [done|].
    destruct rest as [|b [|b' rest']].
    + done.
    + simpl. destruct (Ascii.eqb_spec a ","%char) as [->|Hne]; simpl.
      * by destruct (Provider.isFormatLetter b).
      * done.
    + change (Provider.stripFormat (String a (String b (String b' rest'))))
        with (String a (Provider.stripFormat (String b (String b' rest')))).
      change (Page.currentFormat (String a (String b (String b' rest'))))
        with (Page.currentFormat (String b (String b' rest'))).
      match goal with
      | |- _ = String ?a ?x +:+ ?y =>
          change (String a x +:+ y) with (String a (x +:+ y))
      end.
      by rewrite <- IH.
  - intros Hc. unfold Provider.formatted. simpl JS.nonempty. cbv iota.
    by apply currentFormat_appended.
Qed.

Lemma the_menu_reads_the_format_back_witness :
  "buf,x" = Provider.stripFormat "buf,x" +:+ format_suffix (Page.currentFormat "buf,x")
  /\ Page.currentFormat (Provider.formatted "buf,x" "h") = "h".
Proof.
  destruct (the_menu_reads_the_format_back "buf,x" "h") as [Hname Hformat].
  split; [exact Hname|]. by apply Hformat.
Defined.

Lemma find_app {A} (f : A -> bool) (l k : list A) :
  find f (l ++ k) = match find f l with Some x => Some x | None => find f k end.
Proof. induction l as [|a l IH]; simpl; [done|]. by destruct (f a). Qed.

Lemma findNode_preorder (id : string) (node : VariableNode.t) :
  Page.findNode node id
  = find (carries id) (preorder node).
Proof.
  induction node as [node IH] using VariableNode_children_ind.
  destruct node as [i nm e v ty hc ex ch ir cs d]. simpl. unfold carries at 1. simpl.
  destruct (String.eqb i id); [done|].
  destruct cs as [cs|]; [|done]. unfold View.childrenOf in IH. simpl in IH.
  induction IH as [|c cs Hc _ IHcs]; simpl; [done|].
  rewrite find_app, <- Hc. by destruct (Page.findNode c id).
Qed.

(** X19.  [findNodeById] answers the first node that carries the id, parents
    before children and in the order of the arrays, and [undefined] when
    no node of the message carries it. *)
Theorem findNodeById_finds_the_first (nodes : list VariableNode.t) (id : string) :
  Page.findNodeById nodes id
  = find (carries id) (flat_map preorder nodes).
Proof.
  induction nodes as [|n nodes IH]; simpl; [done|].
  rewrite find_app, <- findNode_preorder, IH. by destruct (Page.findNode n id).
Qed.

Lemma set_all_app l k m : set_all (l ++ k) m = set_all k (set_all l m).
Proof. unfold set_all. by rewrite fold_left_app. Qed.

Lemma setValue_preorder (node : VariableNode.t) :
  forall m, Page.setValue node m = set_all (preorder node) m.
Proof.
  induction node as [node IH] using VariableNode_children_ind.
  destruct node as [i nm e v ty hc ex ch ir cs d]. intros m. simpl.
  destruct cs as [cs|]; [|done]. unfold View.childrenOf in IH. simpl in IH.
  assert (Hloop : forall m',
             (fix loop (vars : list VariableNode.t) (m : gmap string VariableNode.t) :=
                match vars with
                | [] => m
                | v :: rest => loop rest (Page.setValue v m)
                end) cs m'
             = set_all (flat_map preorder cs) m').
  { induction IH as [|c cs Hc _ IHcs]; intros m'; [done|].
    simpl flat_map. by rewrite set_all_app, <- Hc, <- IHcs. }
  destruct cs as [|c cs]; [done|].
  change (0 <? length (c :: cs))%nat with true. cbv iota.
  apply Hloop.
Qed.

Lemma buildValueMap_preorder (vars : list VariableNode.t) :
  forall m, Page.buildValueMap vars m = set_all (flat_map preorder vars) m.
Proof.
  induction vars as [|v vars IH]; intros m; simpl; [done|].
  by rewrite set_all_app, IH, setValue_preorder.
Qed.

Lemma set_all_lookup (id : string) (l : list VariableNode.t) :
  forall m,
    set_all l m !! id
    = match find (carries id) (rev l) with
      | Some n => Some n
      | None => m !! id
      end.
Proof.
  induction l as [|n l IH]; intros m; [done|].
  change (set_all (n :: l) m) with (set_all l (<[VariableNode.id n := n]> m)).
  rewrite IH. simpl rev. rewrite find_app.
  destruct (find (carries id) (rev l)); [done|]. simpl. unfold carries at 1.
  destruct (String.eqb_spec (VariableNode.id n) id) as [->|Hne].
  - by rewrite lookup_insert_eq.
  - by rewrite lookup_insert_ne.
Qed.

Lemma find_carries_none (id : string) (l : list VariableNode.t) :
  id ∉ map VariableNode.id l -> find (carries id) l = None.
Proof.
  induction l as [|n l IH]; intros Hnotin; simpl; [done|]. unfold carries at 1.
  destruct (String.eqb_spec (VariableNode.id n) id) as [<-|Hne].
  - destruct Hnotin. left.
  - apply IH. intros Hin. apply Hnotin. by right.
Qed.

Lemma find_first_is_last (id : string) (l : list VariableNode.t) :
  NoDup (map VariableNode.id l) ->
  find (carries id) (rev l) = find (carries id) l.
Proof.
  induction l as [|n l IH]; intros Hnd; [done|].
  apply NoDup_cons in Hnd as [Hnotin Hnd].
  simpl rev. rewrite find_app, (IH Hnd). simpl. unfold carries at 2 3.
  destruct (String.eqb_spec (VariableNode.id n) id) as [<-|Hne].
  - by rewrite find_carries_none.
  - by destruct (find (carries id) l).
Qed.

(** X20.  The map that [updateVariableValues] builds holds, for an id, the last
    node of the message that carries it, where [findNodeById] answers the
    first: the two lookups agree on a message in which no id occurs
    twice. *)
Theorem the_value_map_agrees_with_the_search (vars : list VariableNode.t) (id : string) :
  Page.buildValueMap vars ∅ !! id = find (carries id) (rev (flat_map preorder vars))
  /\ (NoDup (map VariableNode.id (flat_map preorder vars)) ->
      Page.buildValueMap vars ∅ !! id = Page.findNodeById vars id).
Proof.
  assert (Hlast : Page.buildValueMap vars ∅ !! id
                  = find (carries id) (rev (flat_map preorder vars))).
  { rewrite buildValueMap_preorder, set_all_lookup.
    by destruct (find (carries id) (rev (flat_map preorder vars))). }
  split; [exact Hlast|].
  intros Hnd. rewrite Hlast, (find_first_is_last _ _ Hnd).
  symmetry. clear. induction vars as [|n vars IH]; simpl; [done|].
  rewrite find_app, <- findNode_preorder, IH. by destruct (Page.findNode n id).
Qed.

Lemma the_value_map_agrees_with_the_search_witness :
  Page.buildValueMap Trees.first ∅ !! "node_4"
  = find (carries "node_4") (rev (flat_map preorder Trees.first))
  /\ Page.buildValueMap Trees.first ∅ !! "node_4" = Page.findNodeById Trees.first "node_4".
Proof.
  destruct (the_value_map_agrees_with_the_search Trees.first "node_4") as [Hlast Hsame].
  split; [exact Hlast|]. apply Hsame.
  apply (bool_decide_unpack _). by vm_compute.
Defined.

(** ** Adding and removing *)

Section AddRemove.

Variable trim : string -> string.

(** X21.  Removing the expression that [addWatchExpr] has just added gives the
    watch list back, object for object and name for name; the object
    that was added stays in the store without a place in the tree, and
    its id is not given again. *)
Theorem removing_what_was_added_restores_the_watch_list
        (p : Provider.t) (s : Store) (cs : list loc) (names : list string) (raw : string) :
  watch_list s (Provider.variables p) cs names ->
  JS.nonempty (trim raw) = true -> trim raw ∉ names ->
  exists s1 s2,
    Controller.addWatchExpr trim p raw s
    = Some ([Provider.SaveState; Provider.Refresh], s1) /\
    Controller.removeWatchExpr p (Some (length (heap s))) s1
    = Some ([Provider.SaveState; Provider.UpdateWebview], s2) /\
    watch_list s2 (Provider.variables p) cs names /\
    idCounter s2 = S (idCounter s) /\
    forall k, k <> Provider.variables p -> k < length (heap s) ->
              heap s2 !! k = heap s !! k.
Proof.
  intros Hw Hne Hnotin.
  destruct (addNewExpr_in_watch_list _ _ _ _ _ Hw Hnotin)
    as (s1 & Hadd & Hw1 & Hid1 & Hframe1).
  destruct (removeChild_in_watch_list s1 (Provider.variables p) cs (length (heap s)) []
              (names ++ [trim raw]) Hw1)
    as (s2 & Hremove & Hw2 & Hframe2 & Hid2).
  exists s1, s2. split; [|split; [|split; [|split]]].
  - unfold Controller.addWatchExpr. rewrite Hne.
    by rewrite (bind_run _ _ _ _ _ Hadd).
  - unfold Controller.removeWatchExpr, Controller.catching.
    by rewrite (bind_run _ _ _ _ _ Hremove).
  - rewrite app_nil_r in Hw2.
    assert (Hlen : length cs = length names).
    { destruct Hw as (? & _ & _ & _ & Hall & _). by eapply Forall2_length. }
    rewrite Hlen in Hw2.
    replace (delete (length names) (names ++ [trim raw])) with names in Hw2; [done|].
    clear. induction names as [|x names IH]; [done|]. simpl. by rewrite <- IH.
  - congruence.
  - intros k Hk Hklt. rewrite Hframe2 by done. by apply Hframe1.
Qed.

End AddRemove.

Lemma removing_what_was_added_restores_the_watch_list_witness :
  exists s1 s2,
    Controller.addWatchExpr (fun e => e) (Provider.initial 0) "d" Sample.store
    = Some ([Provider.SaveState; Provider.Refresh], s1) /\
    Controller.removeWatchExpr (Provider.initial 0) (Some 5%nat) s1
    = Some ([Provider.SaveState; Provider.UpdateWebview], s2) /\
    watch_list s2 0 [1; 2; 3]%nat ["a"; "b"; "c"] /\
    idCounter s2 = 6%nat /\
    forall k, k <> 0%nat -> k < 5 -> heap s2 !! k = heap Sample.store !! k.
Proof.
  apply (removing_what_was_added_restores_the_watch_list
           (fun e => e) (Provider.initial 0) Sample.store _ _ "d" sample_watch_list).
  - reflexivity.
  - apply (bool_decide_unpack _). by vm_compute.
Defined.

(** ** Ids *)

Lemma decimal_inj (a b : nat) : JS.decimal a = JS.decimal b -> a = b.
Proof.
  unfold JS.decimal. intros Heq. apply Unsigned.to_uint_inj.
  assert (Hnonnil : forall n, Nat.to_uint n <> Decimal.Nil).
  { intros n. rewrite <- (Unsigned.of_to n), Unsigned.to_of. apply unorm_nonnil. }
  pose proof (NilZero.usu _ (Hnonnil a)) as Ha.
  pose proof (NilZero.usu _ (Hnonnil b)) as Hb.
  rewrite Heq in Ha. congruence.
Qed.

Lemma addChild_general s this n nm e v ty ref :
  heap s !! this = Some n ->
  Node.addChild this nm e v ty ref s
  = Some (length (heap s),
          mkStore (<[this := set_children (Some (Node.getChildren n ++ [length (heap s)])) n]>
                     (heap s)
                   ++ [mkNode None None (Some "") (Some false)
                              (Some ("node_" +:+ JS.decimal (idCounter s)))
                              (Some this) nm (JS.or_else e nm) v ty ref])
                  (S (idCounter s))).
Proof.
  intros Hthis. unfold Node.addChild.
  assert (Hlt : this < length (heap s)) by (eapply lookup_lt_Some; eauto).
  rewrite (bind_run _ _ _ _ _ (get_run _ _ _ Hthis)).
  destruct (children n) as [cs|] eqn:Hcs.
  - unfold bind at 1. unfold ret at 1.
    unfold bind at 1. unfold Node.new at 1.
    unfold bind, modify, ret. simpl.
    rewrite lookup_app_l by done. rewrite Hthis.
    rewrite insert_app_l by done.
    unfold Node.getChildren. rewrite Hcs. reflexivity.
  - rewrite (bind_run _ _ _ _ _ (modify_run _ _ _ _ Hthis)).
    unfold bind at 1. unfold Node.new at 1.
    unfold bind, modify, ret. simpl.
    rewrite lookup_app_l by (by rewrite length_insert).
    rewrite list_lookup_insert_eq by done.
    rewrite insert_app_l by (by rewrite length_insert).
    rewrite list_insert_insert_eq, length_insert.
    unfold Node.getChildren. rewrite Hcs. reflexivity.
Qed.

(** X22.  In a store whose ids were all drawn from the counter, [addChild]
    gives the object it constructs an id that no other object carries,
    and the ids of the store it leaves are again all drawn from the
    counter. *)
Theorem addChild_gives_a_fresh_id
        (s : Store) (this : loc) (n : LiveVariableNode)
        (nm e v ty : string) (ref : Z) :
  ids_below s -> heap s !! this = Some n ->
  exists s' cn,
    Node.addChild this nm e v ty ref s = Some (length (heap s), s') /\
    heap s' !! length (heap s) = Some cn /\
    id cn = Some ("node_" +:+ JS.decimal (idCounter s)) /\
    (forall k kn, k <> length (heap s) -> heap s' !! k = Some kn -> id kn <> id cn) /\
    ids_below s'.
Proof.
  intros Hbelow Hthis.
  assert (Hlt : this < length (heap s)) by (by eapply lookup_lt_Some).
  eexists _, _. split; [by apply addChild_general|]. simpl.
  split; [apply list_lookup_middle; by rewrite length_insert|]. split; [done|].
  assert (Hold : forall k kn,
             (<[this := set_children (Some (Node.getChildren n ++ [length (heap s)])) n]>
                (heap s)) !! k = Some kn ->
             exists kn', heap s !! k = Some kn' /\ id kn = id kn').
  { intros k kn Hk. destruct (decide (k = this)) as [->|Hne].
    - rewrite list_lookup_insert_eq in Hk by done. injection Hk as <-. by exists n.
    - rewrite list_lookup_insert_ne in Hk by done. by exists kn. }
  split.
  - intros k kn Hk Hkn. simpl.
    apply lookup_app_Some in Hkn as [Hkn|[Hge Hkn]].
    + destruct (Hold k kn Hkn) as (kn' & Hkn' & Hid). rewrite Hid.
      destruct (id kn') as [i|] eqn:Hi; [|done].
      destruct (Hbelow k kn' i Hkn' Hi) as (j & Hj & ->).
      intros [= Heq]. apply decimal_inj in Heq. lia.
    + rewrite length_insert in Hge, Hkn.
      destruct (k - length (heap s)) as [|d] eqn:Hd; [lia|]. by destruct d.
  - intros k kn i Hkn Hi. simpl in *.
    apply lookup_app_Some in Hkn as [Hkn|[Hge Hkn]].
    + destruct (Hold k kn Hkn) as (kn' & Hkn' & Hid). rewrite Hid in Hi.
      destruct (Hbelow k kn' i Hkn' Hi) as (j & Hj & ->). exists j. split; [lia|done].
    + destruct (k - _) as [|d]; [|by destruct d]. injection Hkn as <-.
      simpl in Hi. injection Hi as <-. exists (idCounter s). split; [lia|done].
Qed.

Lemma sample_ids_below : ids_below Sample.store.
Proof.
  intros k n i Hk Hi.
  do 5 (destruct k as [|k];
        [injection Hk as <-; injection Hi as <-;
         first [exists 0; split; [simpl; lia|reflexivity]
               |exists 1; split; [simpl; lia|reflexivity]
               |exists 2; split; [simpl; lia|reflexivity]
               |exists 3; split; [simpl; lia|reflexivity]
               |exists 4; split; [simpl; lia|reflexivity]]|]).
  discriminate.
Qed.

Lemma addChild_gives_a_fresh_id_witness :
  exists s' cn,
    Node.addChild 0 "d" "" "" "" 0 Sample.store = Some (5%nat, s') /\
    heap s' !! 5%nat = Some cn /\
    id cn = Some "node_5" /\
    (forall k kn, k <> 5%nat -> heap s' !! k = Some kn -> id kn <> id cn) /\
    ids_below s'.
Proof.
  exact (addChild_gives_a_fresh_id Sample.store 0 Sample.root "d" "" "" "" 0
           sample_ids_below eq_refl).
Defined.

(** ** Two updates of the webview in a row *)

Lemma settling_refl h : settling h h.
Proof. split; [done|]. intros k n Hk. by left. Qed.

Lemma settling_trans h1 h2 h3 : settling h1 h2 -> settling h2 h3 -> settling h1 h3.
Proof.
  intros [Hlen12 H12] [Hlen23 H23]. split; [congruence|].
  intros k n Hk. destruct (H12 k n Hk) as [Hk2|Hk2].
  - by apply H23.
  - right. by destruct (H23 k _ Hk2) as [Hk3|Hk3].
Qed.

Lemma settling_write h l n :
  h !! l = Some n -> settling h (<[l := set_prevValue (Some (value n)) n]> h).
Proof.
  intros Hl. split; [by rewrite length_insert|].
  intros k m Hk. destruct (decide (l = k)) as [<-|Hne].
  - right. assert (m = n) as -> by congruence.
    apply list_lookup_insert_eq. by eapply lookup_lt_Some.
  - left. by rewrite list_lookup_insert_ne.
Qed.

Lemma settling_up_to h h' : settling h h' -> up_to_prevValue h h'.
Proof.
  intros [Hlen H]. split; [done|]. intros l n Hl.
  destruct (H l n Hl) as [Hl'|Hl']; [|by eexists].
  exists (prevValue n). by rewrite set_prevValue_same.
Qed.

Lemma settled_settling h h' ks : settling h h' -> settled h ks -> settled h' ks.
Proof.
  intros [_ H] Hs k Hk. destruct (Hs k Hk) as (n & Hn & Hp).
  destruct (H k n Hn) as [Hk'|Hk']; [by exists n|].
  eexists. split; [exact Hk'|done].
Qed.

Lemma up_to_prevValue_sym h h' : up_to_prevValue h h' -> up_to_prevValue h' h.
Proof.
  intros [Hlen H]. split; [done|]. intros l n' Hl'.
  assert (Hlt : l < length h) by (rewrite Hlen; by eapply lookup_lt_Some).
  destruct (lookup_lt_is_Some_2 _ _ Hlt) as [n Hn].
  destruct (H l n Hn) as [v Hv]. exists (prevValue n).
  rewrite Hn. f_equal. assert (n' = set_prevValue v n) as -> by congruence.
  by destruct n.
Qed.

Lemma shown_up_to h h' fuel :
  up_to_prevValue h h' -> forall l, shown fuel h' l = shown fuel h l.
Proof.
  intros Hsame. induction fuel as [|fuel IH]; intros l; simpl; [done|].
  destruct (h !! l) as [n|] eqn:Hn.
  - destruct (proj2 Hsame l n Hn) as [v ->]. simpl. f_equal.
    destruct (JS.truthy (expanded n)); [|done].
    apply flat_map_ext. intros c. apply IH.
  - destruct (h' !! l) as [n'|] eqn:Hn'; [|done].
    destruct (proj2 (up_to_prevValue_sym _ _ Hsame) l n' Hn') as [v Hv]. congruence.
Qed.

(** [isRootChild] reads parents only. *)
Lemma isRootChild_stable s l n :
  heap s !! l = Some n ->
  (forall p, parent n = Some p -> is_Some (heap s !! p)) ->
  exists r,
    Node.isRootChild l s = Some (r, s) /\
    forall s2, up_to_prevValue (heap s) (heap s2) -> Node.isRootChild l s2 = Some (r, s2).
Proof.
  intros Hn Hparent. unfold Node.isRootChild.
  rewrite (bind_run _ _ _ _ _ (get_run _ _ _ Hn)).
  destruct (parent n) as [p|] eqn:Hp.
  - destruct (Hparent p eq_refl) as [pn Hpn].
    rewrite (bind_run _ _ _ _ _ (get_run _ _ _ Hpn)).
    eexists. split; [done|]. intros s2 Hsame.
    destruct (proj2 Hsame l n Hn) as [v Hv]. destruct (proj2 Hsame p pn Hpn) as [v' Hv'].
    rewrite (bind_run _ _ _ _ _ (get_run _ _ _ Hv)). simpl. rewrite Hp.
    by rewrite (bind_run _ _ _ _ _ (get_run _ _ _ Hv')).
  - exists None. split; [done|]. intros s2 Hsame.
    destruct (proj2 Hsame l n Hn) as [v Hv].
    rewrite (bind_run _ _ _ _ _ (get_run _ _ _ Hv)). simpl. by rewrite Hp.
Qed.

Lemma settled_app h ks1 ks2 : settled h ks1 -> settled h ks2 -> settled h (ks1 ++ ks2).
Proof. intros H1 H2 k [?|?]%elem_of_app; auto. Qed.

Lemma settled_app_inv h ks1 ks2 : settled h (ks1 ++ ks2) -> settled h ks1 /\ settled h ks2.
Proof. intros H. split; intros k Hk; apply H, elem_of_app; auto. Qed.

Section TwoUpdates.

Variable getPathRelative : string -> string -> string.

Lemma mapM_projects fuel depth cwd :
  (forall s l, tree_within fuel (heap s) l -> exists w s', projects getPathRelative fuel s l depth cwd w s') ->
  forall cs s,
    Forall (tree_within fuel (heap s)) cs ->
    exists ws s',
      Node.mapM (fun c => Node.toWebViewNode getPathRelative fuel c depth cwd) cs s
      = Some (ws, s') /\
      settling (heap s) (heap s') /\
      settled (heap s') (flat_map (shown fuel (heap s)) cs) /\
      forall s2,
        up_to_prevValue (heap s) (heap s2) ->
        settled (heap s2) (flat_map (shown fuel (heap s)) cs) ->
        Node.mapM (fun c => Node.toWebViewNode getPathRelative fuel c depth cwd) cs s2
        = Some (map unchanged ws, s2).
Proof.
  intros IH. induction cs as [|c cs IHcs]; intros s Hcs; simpl.
  - exists [], s. split; [done|]. split; [apply settling_refl|].
    split; [by intros k ?%elem_of_nil|done].
  - apply Forall_cons in Hcs as [Hc Hcs].
    destruct (IH s c Hc) as (w & s1 & Hw & Hset1 & Hsettled1 & Hsecond1).
    pose proof (settling_up_to _ _ Hset1) as Hsame1.
    rewrite (bind_run _ _ _ _ _ Hw).
    destruct (IHcs s1) as (ws & s' & Hws & Hset & Hsettled & Hsecond).
    { eapply Forall_impl; [exact Hcs|]. intros c'.
      by apply tree_within_up_to_prevValue. }
    rewrite (bind_run _ _ _ _ _ Hws).
    assert (Hshown : flat_map (shown fuel (heap s1)) cs = flat_map (shown fuel (heap s)) cs).
    { apply flat_map_ext. intros c'. by apply shown_up_to. }
    rewrite Hshown in Hsettled, Hsecond.
    exists (w :: ws), s'. split; [done|]. split; [by eapply settling_trans|]. split.
    + apply settled_app; [|done]. by eapply settled_settling.
    + intros s2 Hsame2 Hsettled2. apply settled_app_inv in Hsettled2 as [Hs2c Hs2cs].
      rewrite (bind_run _ _ _ _ _ (Hsecond1 s2 Hsame2 Hs2c)).
      rewrite (bind_run _ _ _ _ _ (Hsecond s2 ltac:(eapply up_to_prevValue_trans;
                 [apply up_to_prevValue_sym; exact Hsame1|exact Hsame2]) Hs2cs)).
      done.
Qed.

Lemma toWebViewNode_projects fuel :
  forall depth cwd s l,
    tree_within fuel (heap s) l -> exists w s', projects getPathRelative fuel s l depth cwd w s'.
Proof.
  induction fuel as [|fuel IH]; intros depth cwd s l; [done|].
  intros (n & Hn & Hparent & Hkids). unfold projects. simpl. rewrite Hn.
  rewrite (bind_run _ _ _ _ _ (get_run _ _ _ Hn)).
  destruct (isRootChild_stable s l n Hn Hparent) as (r & Hr & Hr2).
  rewrite (bind_run _ _ _ _ _ Hr).
  set (visited := if JS.truthy (expanded n)
                  then flat_map (shown fuel (heap s)) (Node.getChildren n) else []).
  assert (Hk : exists kids s1,
            (if JS.truthy (expanded n)
             then match children n with
                  | Some cs =>
                      let* ws := Node.mapM
                                   (fun c => Node.toWebViewNode getPathRelative fuel c
                                                                (depth + 1)%Z cwd) cs in
                      ret (Some ws)
                  | None => ret None
                  end
             else ret None) s = Some (kids, s1)
            /\ settling (heap s) (heap s1)
            /\ settled (heap s1) visited
            /\ forall s2,
                up_to_prevValue (heap s) (heap s2) -> settled (heap s2) visited ->
                (if JS.truthy (expanded n)
                 then match children n with
                      | Some cs =>
                          let* ws := Node.mapM
                                       (fun c => Node.toWebViewNode getPathRelative fuel c
                                                                    (depth + 1)%Z cwd) cs in
                          ret (Some ws)
                      | None => ret None
                      end
                 else ret None) s2
                = Some (match kids with
                        | Some ws => Some (map unchanged ws)
                        | None => None
                        end, s2)).
  { subst visited. destruct (JS.truthy (expanded n)).
    - unfold Node.getChildren in *. destruct (children n) as [cs|].
      + destruct (mapM_projects fuel (depth + 1)%Z cwd (IH (depth + 1)%Z cwd) cs s Hkids)
          as (ws & s1 & Hws & Hset & Hsettled & Hsecond).
        exists (Some ws), s1. rewrite (bind_run _ _ _ _ _ Hws).
        split; [done|]. split; [done|]. split; [done|].
        intros s2 Hsame2 Hsettled2.
        by rewrite (bind_run _ _ _ _ _ (Hsecond s2 Hsame2 Hsettled2)).
      + exists None, s. split; [done|]. split; [apply settling_refl|].
        split; [by intros k ?%elem_of_nil|done].
    - exists None, s. split; [done|]. split; [apply settling_refl|].
      split; [by intros k ?%elem_of_nil|done]. }
  destruct Hk as (kids & s1 & Hrun & Hset1 & Hsettled1 & Hsecond1).
  rewrite (bind_run _ _ _ _ _ Hrun).
  assert (Hn1 : exists n1, heap s1 !! l = Some n1 /\
                           set_prevValue (Some (value n1)) n1
                           = set_prevValue (Some (value n)) n).
  { destruct (proj2 Hset1 l n Hn) as [H1|H1]; eexists; (split; [exact H1|done]). }
  destruct Hn1 as (n1 & Hn1 & Hwrite).
  rewrite (bind_run _ _ _ _ _ (modify_run _ _ _ _ Hn1)).
  eexists _, _. split; [reflexivity|]. simpl heap. split; [|split].
  - eapply settling_trans; [exact Hset1|]. by apply settling_write.
  - intros k [->|Hk]%elem_of_cons.
    + eexists. split; [apply list_lookup_insert_eq; by eapply lookup_lt_Some|].
      by rewrite Hwrite.
    + by apply (settled_settling _ _ _ (settling_write _ _ _ Hn1) Hsettled1).
  - intros s2 Hsame2 Hsettled2.
    destruct (Hsettled2 l ltac:(left)) as (n2 & Hn2 & Hp2).
    destruct (proj2 Hsame2 l n Hn) as [v Hv].
    assert (n2 = set_prevValue v n) as Heq by congruence.
    rewrite (bind_run _ _ _ _ _ (get_run _ _ _ Hn2)).
    rewrite (bind_run _ _ _ _ _ (Hr2 s2 Hsame2)).
    assert (Hfields : id n2 = id n /\ name n2 = name n /\ expr n2 = expr n /\
                      value n2 = value n /\ type n2 = type n /\
                      expanded n2 = expanded n /\ children n2 = children n /\
                      Node.hasChildrenNodes n2 = Node.hasChildrenNodes n)
      by (by rewrite Heq).
    destruct Hfields as (Hid & Hname & Hexpr & Hvalue & Htype & Hexp & Hchildren & Hhas).
    rewrite Hid, Hname, Hexpr, Hvalue, Htype, Hexp, Hchildren, Hhas.
    erewrite bind_run;
      [|apply Hsecond1; [done|intros k Hk; apply Hsettled2; by right]].
    rewrite (bind_run _ _ _ _ _ (modify_run _ _ _ _ Hn2)).
    assert (Hsame : set_prevValue (Some (value n2)) n2 = n2)
      by (rewrite <- Hp2; apply set_prevValue_same).
    rewrite Hsame, list_insert_id by done.
    assert (Hquiet : Node.isValueChanged n2 = false).
    { unfold Node.isValueChanged. rewrite (bool_decide_eq_true_2 _ Hp2).
      apply andb_false_r. }
    rewrite Hquiet. by destruct s2.
Qed.

(** X23.  Two calls of [updateWebview] in a row: the second posts the trees
    the first has posted, with no [changed] flag left anywhere in them,
    and writes nothing to the store. *)
Theorem a_second_update_reports_no_change
        (fuel : nat) (p : Provider.t) (s : Store) (n : LiveVariableNode)
        (cwd : option string) :
  heap s !! Provider.variables p = Some n ->
  Forall (tree_within fuel (heap s)) (Node.getChildren n) ->
  exists ws s',
    Controller.updateWebview getPathRelative fuel p true cwd s
    = Some (Some (Controller.mkUpdate ws (bool_decide (is_Some (Provider.session p)))), s') /\
    Controller.updateWebview getPathRelative fuel p true cwd s'
    = Some (Some (Controller.mkUpdate (map unchanged ws)
                    (bool_decide (is_Some (Provider.session p)))), s').
Proof.
  intros Hroot Hkids. unfold Controller.updateWebview. simpl.
  rewrite (bind_run _ _ _ _ _ (get_run _ _ _ Hroot)).
  destruct (mapM_projects fuel 0%Z cwd (toWebViewNode_projects fuel 0%Z cwd) _ s Hkids)
    as (ws & s' & Hws & Hset & Hsettled & Hsecond).
  rewrite (bind_run _ _ _ _ _ Hws). exists ws, s'. split; [done|].
  destruct (proj2 (settling_up_to _ _ Hset) _ n Hroot) as [v Hv].
  rewrite (bind_run _ _ _ _ _ (get_run _ _ _ Hv)).
  change (Node.getChildren (set_prevValue v n)) with (Node.getChildren n).
  by rewrite (bind_run _ _ _ _ _ (Hsecond s' (settling_up_to _ _ Hset) Hsettled)).
Qed.

End TwoUpdates.

Lemma a_second_update_reports_no_change_witness :
  exists ws s',
    Controller.updateWebview (fun _ file => file) 2 (Provider.initial 0) true None
                             Sample.store
    = Some (Some (Controller.mkUpdate ws false), s') /\
    Controller.updateWebview (fun _ file => file) 2 (Provider.initial 0) true None s'
    = Some (Some (Controller.mkUpdate (map unchanged ws) false), s').
Proof.
  apply (a_second_update_reports_no_change
           (fun _ file => file) 2 (Provider.initial 0) Sample.store Sample.root None eq_refl).
  destruct (proj2 sample_is_a_tree) as (n & Hn & _ & Hkids).
  by injection Hn as <-.
Defined.
